(** * VZD_KK_download: catalogue filter, sort key, shapefile merge,
      selective extraction and packaging

    A shallow embedding of [VZD_KK_download.py].  A Python [str] is
    modelled by its UTF-8 bytes, a [string]; searching, splitting and
    joining on ASCII text are the same on code points and on these bytes.
    The [str] methods that consult Unicode tables, and the calls into
    pyshp, zipfile and shutil that can raise, are taken from interfaces
    ([Python], [Library], [Archive]) that state what the script relies on.
    Dictionaries are [gmap]s; the file system is a finite map from paths
    to what is stored there. *)

From Stdlib Require Import String Ascii ZArith List Bool Lia.
From stdpp Require Import base gmap strings list pretty sorting.

Import ListNotations.

(** ** Python string primitives *)

(** [s.startswith(p)] *)
Fixpoint startswith (s p : string) {struct p} : bool :=
  match p with
  | EmptyString => true
  | String a p' =>
      match s with
      | EmptyString => false
      | String b s' => if Ascii.eqb a b then startswith s' p' else false
      end
  end.

(** [needle in hay] *)
Fixpoint contains (hay needle : string) : bool :=
  startswith hay needle
  || match hay with
     | EmptyString => false
     | String _ hay' => contains hay' needle
     end.

(** [s.endswith(suf)] *)
Fixpoint endswith (s suf : string) : bool :=
  String.eqb s suf
  || match s with
     | EmptyString => false
     | String _ s' => endswith s' suf
     end.

Definition is_upper (c : ascii) : bool :=
  let n := N_of_ascii c in (65 <=? n)%N && (n <=? 90)%N.

Definition is_lower (c : ascii) : bool :=
  let n := N_of_ascii c in (97 <=? n)%N && (n <=? 122)%N.

Definition ascii_lower (c : ascii) : ascii :=
  if is_upper c then ascii_of_N (N_of_ascii c + 32) else c.

Definition ascii_upper (c : ascii) : ascii :=
  if is_lower c then ascii_of_N (N_of_ascii c - 32) else c.

Fixpoint string_map (f : ascii -> ascii) (s : string) : string :=
  match s with
  | EmptyString => EmptyString
  | String c s' => String (f c) (string_map f s')
  end.

(** The ASCII letters of [s] in lower case and in upper case; every other
    byte is kept. *)
Definition lower (s : string) : string := string_map ascii_lower s.
Definition upper (s : string) : string := string_map ascii_upper s.

(** [s.split(sep)[0]]: the part before the first [sep], all of [s] when
    there is none. *)
Fixpoint split_head (sep : ascii) (s : string) : string :=
  match s with
  | EmptyString => EmptyString
  | String c s' => if Ascii.eqb c sep then EmptyString else String c (split_head sep s')
  end.

Fixpoint has_char (sep : ascii) (s : string) : bool :=
  match s with
  | EmptyString => false
  | String c s' => Ascii.eqb c sep || has_char sep s'
  end.

(** [s.rsplit(sep, 1)[0]]: the part before the last [sep], all of [s] when
    there is none. *)
Fixpoint rsplit_head (sep : ascii) (s : string) : string :=
  match s with
  | EmptyString => EmptyString
  | String c s' =>
      if has_char sep s' then String c (rsplit_head sep s')
      else if Ascii.eqb c sep then EmptyString
      else s
  end.

(** [s.replace(old, new)] for a non-empty [old]: occurrences are replaced
    left to right, without overlap.  [skip] counts the characters of a
    replaced occurrence that are still to be passed over. *)
Fixpoint replace_from (old new : string) (skip : nat) (s : string) : string :=
  match s with
  | EmptyString => EmptyString
  | String c s' =>
      match skip with
      | S k => replace_from old new k s'
      | O =>
          if startswith s old
          then new +:+ replace_from old new (String.length old - 1) s'
          else String c (replace_from old new 0 s')
      end
  end.

Definition replace (s old new : string) : string := replace_from old new 0 s.

Definition is_digit (c : ascii) : bool :=
  let n := N_of_ascii c in (48 <=? n)%N && (n <=? 57)%N.

Fixpoint all_digits (s : string) : bool :=
  match s with
  | EmptyString => true
  | String c s' => is_digit c && all_digits s'
  end.

(** At least one character, and all of them ASCII digits. *)
Definition isdigit (s : string) : bool :=
  match s with
  | EmptyString => false
  | _ => all_digits s
  end.

Definition digit_value (c : ascii) : Z := Z.of_N (N_of_ascii c) - 48.

Fixpoint int_from (acc : Z) (s : string) : Z :=
  match s with
  | EmptyString => acc
  | String c s' => int_from (10 * acc + digit_value c) s'
  end.

(** The number that a string of ASCII digits writes in base ten. *)
Definition int (s : string) : Z := int_from 0 s.

Definition nonempty (s : string) : bool :=
  match s with
  | EmptyString => false
  | _ => true
  end.

(** [os.path.join(a, b)] on POSIX. *)
Definition os_path_join (a b : string) : string :=
  if startswith b "/" then b
  else if negb (nonempty a) || endswith a "/" then a +:+ b
  else a +:+ "/" +:+ b.


(** [s.split(sep)] for a one-character separator. *)
Fixpoint split_on (sep : ascii) (s : string) : list string :=
  match s with
  | EmptyString => [EmptyString]
  | String c s' =>
      if Ascii.eqb c sep then EmptyString :: split_on sep s'
      else
        match split_on sep s' with
        | head :: tail => String c head :: tail
        | [] => [String c EmptyString]
        end
  end.

(** [sep.join(parts)] *)
Fixpoint join_with (sep : string) (parts : list string) : string :=
  match parts with
  | [] => EmptyString
  | [p] => p
  | p :: rest => p +:+ sep +:+ join_with sep rest
  end.

(** [os.path.normpath(path)] on POSIX.  [new_comps] is kept reversed. *)
Fixpoint normpath_comps (initial_slashes : nat) (comps new_comps : list string)
    : list string :=
  match comps with
  | [] => rev new_comps
  | comp :: rest =>
      if String.eqb comp "" || String.eqb comp "." then
        normpath_comps initial_slashes rest new_comps
      else if negb (String.eqb comp "..") then
        normpath_comps initial_slashes rest (comp :: new_comps)
      else
        match new_comps with
        | [] =>
            if Nat.eqb initial_slashes 0
            then normpath_comps initial_slashes rest [comp]
            else normpath_comps initial_slashes rest []
        | last :: before =>
            if String.eqb last ".."
            then normpath_comps initial_slashes rest (comp :: new_comps)
            else normpath_comps initial_slashes rest before
        end
  end.

Definition normpath (path : string) : string :=
  if String.eqb path "" then "."
  else
    let initial_slashes :=
      if startswith path "/" then
        if startswith path "//" && negb (startswith path "///") then 2 else 1
      else 0 in
    let joined := join_with "/" (normpath_comps initial_slashes (split_on "/" path) []) in
    let result :=
      match initial_slashes with
      | 0 => joined
      | 1 => "/" +:+ joined
      | _ => "//" +:+ joined
      end in
    if String.eqb result "" then "." else result.

(** The member name as [ZipFile.extract] uses it: without empty, "." and
    ".." components, so always relative. *)
Definition sanitize (name : string) : string :=
  join_with "/"
    (List.filter
       (fun x => negb (String.eqb x "" || String.eqb x "." || String.eqb x ".."))
       (split_on "/" name)).

(** The path at which [z.extract(member, temp_dir)] writes the member. *)
Definition extract_target (temp_dir member : string) : string :=
  normpath (os_path_join temp_dir (sanitize member)).

(** ** What the script takes from Python's [str] *)

Definition is_ascii (c : ascii) : bool := (N_of_ascii c <? 128)%N.

Fixpoint ascii_only (s : string) : bool :=
  match s with
  | EmptyString => true
  | String c s' => is_ascii c && ascii_only s'
  end.

(** Some character of [s] is an ASCII character other than a digit. *)
Fixpoint has_ascii_nondigit (s : string) : bool :=
  match s with
  | EmptyString => false
  | String c s' => (is_ascii c && negb (is_digit c)) || has_ascii_nondigit s'
  end.

(** CPython's default bound on the digits that [int] converts
    ([sys.int_info.default_max_str_digits], from CPython 3.11 on). *)
Definition MAX_STR_DIGITS : nat := 4300.

(** [str.upper], [str.lower], [str.isdigit] and [int] on a [str] follow the
    Unicode character database, which is not part of this development.
    They are taken as given, together with the facts about them that the
    script relies on: upper-casing ASCII text; whether the lower-cased text
    ends in one of the two extensions tested; that a string of ASCII digits
    is a digit string, that the empty string and a string with an ASCII
    character other than a digit are not; and that [int] converts a string
    of ASCII digits exactly when it has at most 4300 of them ([None] stands
    for the [ValueError] that [int] raises). *)
Record Python := {
  str_upper : string -> string;
  str_lower : string -> string;
  str_isdigit : string -> bool;
  str_int : string -> option Z;
  upper_ascii : forall s, ascii_only s = true -> str_upper s = upper s;
  lower_endswith :
    forall s suf, suf = ".shp" \/ suf = ".zip" ->
      endswith (str_lower s) suf = endswith (lower s) suf;
  isdigit_ascii : forall s, isdigit s = true -> str_isdigit s = true;
  isdigit_empty : str_isdigit "" = false;
  isdigit_nondigit : forall s, has_ascii_nondigit s = true -> str_isdigit s = false;
  int_ascii :
    forall s, isdigit s = true -> String.length s <= MAX_STR_DIGITS ->
      str_int s = Some (int s);
  int_limit :
    forall s, isdigit s = true -> MAX_STR_DIGITS < String.length s ->
      str_int s = None
}.

(** ** Catalogue client: [get_territory_list] *)

(** One element of [data['result']['resources']].  A field is [None] when
    the key is absent from the JSON object; when present it is a JSON
    string, as in the catalogue's schema. *)
Record Resource := {
  res_name : option string;
  res_format : option string;
  res_url : option string
}.

(** [data['result']['resources']]: the list found there, or the text of
    the exception that the lookup raises. *)
Inductive Lookup :=
  | Missing (e : string)
  | Found (rs : list Resource).

(** The decoded body: the truth value of [data.get('success')], and the
    outcome of the lookup of line 33. *)
Record Body := {
  body_success : bool;
  body_resources : Lookup
}.

(** What the HTTP exchange yields.  The first three constructors are the
    exceptions raised by [requests.get], [raise_for_status] and
    [response.json()], each with its message. *)
Inductive Response :=
  | ConnectionError (msg : string)
  | HTTPError (msg : string)
  | JSONDecodeError (msg : string)
  | Decoded (data : Body).

(** The test of line 38. *)
Definition format_or_url_ok (py : Python) (fmt url : string) : bool :=
  String.eqb fmt "SHP" || String.eqb fmt "ZIP" || endswith (str_lower py url) ".zip".

(** Body of the [for res in ...] loop, lines 35-41. *)
Definition add_resource (py : Python) (resources : gmap string string)
    (res : Resource) : gmap string string :=
  let fmt := str_upper py (default "" (res_format res)) in
  let url := default "" (res_url res) in
  if format_or_url_ok py fmt url then
    match res_name res with
    | Some name =>
        if nonempty name && nonempty url then <[name := url]> resources
        else resources
    | None => resources
    end
  else resources.

Definition collect_resources (py : Python) (rs : list Resource) : gmap string string :=
  fold_left (add_resource py) rs ∅.

(** [get_territory_list]: the returned mapping and the messages passed to
    [st.error]. *)
Definition get_territory_list (py : Python) (r : Response)
    : gmap string string * list string :=
  match r with
  | ConnectionError msg | HTTPError msg | JSONDecodeError msg =>
      (∅, ["API Error: " +:+ msg])
  | Decoded data =>
      if body_success data then
        match body_resources data with
        | Found rs => (collect_resources py rs, [])
        | Missing e => (∅, ["API Error: " +:+ e])
        end
      else (∅, [])
  end.

(** ** Sort key: [get_sort_key] *)

Definition SENTINEL : Z := 999999.

(** The [try] of lines 48-54 encloses the call of [int]; when [int]
    raises, the bare [except] passes and line 55 returns the sentinel. *)
Definition get_sort_key (py : Python) (text : string) : Z :=
  let first_part := split_head "." text in
  if str_isdigit py first_part then
    match str_int py first_part with
    | Some n => n
    | None => SENTINEL
    end
  else SENTINEL.

(** ** Shapefile merge: [merge_shapefiles] *)

(** A field descriptor as pyshp exposes it: (name, type, size, decimal). *)
Record FieldDesc := {
  fd_name : string;
  fd_type : string;
  fd_size : Z;
  fd_decimal : Z
}.

(** One element yielded by [iterShapeRecords]: attribute values and a
    geometry. *)
Record ShapeRecord := {
  sr_record : list string;
  sr_shape : list (Z * Z)
}.

(** A shapefile as a [Reader] sees it: its [fields] (pyshp lists the
    deletion marker among them), its records in file order (as many as
    its header declares), and, when the file is damaged, the index of the
    record at which reading raises together with the exception's text. *)
Record Shapefile := {
  sf_fields : list FieldDesc;
  sf_records : list ShapeRecord;
  sf_damage : option (nat * string)
}.

(** What a path of the store holds.  A [Dataset] sits at the path of its
    geometry file and stands for that file with its attribute table. *)
Inductive FileObj :=
  | Dataset (sf : Shapefile)
  | Blob (content : string).

(** [s] is made of periods only. *)
Fixpoint only_dots (s : string) : bool :=
  match s with
  | EmptyString => true
  | String c s' => Ascii.eqb c "." && only_dots s'
  end.

(** [os.path.splitext(path)[0]]: [path] without the extension of its last
    component; leading periods of that component start no extension. *)
Definition splitext_root (path : string) : string :=
  let comps := split_on "/" path in
  let fname := List.last comps "" in
  if has_char "." fname && negb (only_dots (rsplit_head "." fname))
  then rsplit_head "." path
  else path.

(** [shapefile.Reader(path)]: [None] when the constructor raises.  pyshp
    sets the extension of [path] aside and opens the geometry file under
    the extension ".shp", or ".SHP" when there is no such file. *)
Definition Reader (fs : gmap string FileObj) (path : string) : option Shapefile :=
  let shapeName := splitext_root path in
  match fs !! (shapeName +:+ ".shp") with
  | Some (Dataset sf) => Some sf
  | Some (Blob _) => None
  | None =>
      match fs !! (shapeName +:+ ".SHP") with
      | Some (Dataset sf) => Some sf
      | _ => None
      end
  end.

(** [os.path.exists(path)] *)
Definition path_exists (fs : gmap string FileObj) (path : string) : bool :=
  bool_decide (is_Some (fs !! path)).

(** [sf.iterShapeRecords()] run to its end: the records yielded, and the
    exception that stopped the iteration, if any. *)
Definition iterShapeRecords (sf : Shapefile) : list ShapeRecord * option string :=
  match sf_damage sf with
  | Some (k, msg) =>
      if k <? length (sf_records sf) then (take k (sf_records sf), Some msg)
      else (sf_records sf, None)
  | None => (sf_records sf, None)
  end.

(** The state of a [shapefile.Writer]: its target, the descriptors passed
    to [field], the values passed to the calls of [record] and of [shape]
    that returned, and whether [close] returned.  pyshp opens the target's
    geometry, index and attribute files for writing when the writer is
    constructed. *)
Record Writer := {
  w_target : string;
  w_fields : list FieldDesc;
  w_records : list (list string);
  w_shapes : list (list (Z * Z));
  w_closed : bool
}.

Definition Writer_new (target : string) : Writer :=
  {| w_target := target; w_fields := []; w_records := []; w_shapes := [];
     w_closed := false |}.

Definition Writer_field (w : Writer) (f : FieldDesc) : Writer :=
  {| w_target := w_target w; w_fields := w_fields w ++ [f];
     w_records := w_records w; w_shapes := w_shapes w; w_closed := w_closed w |}.

Definition Writer_record (w : Writer) (values : list string) : Writer :=
  {| w_target := w_target w; w_fields := w_fields w;
     w_records := w_records w ++ [values];
     w_shapes := w_shapes w; w_closed := w_closed w |}.

Definition Writer_shape (w : Writer) (shape : list (Z * Z)) : Writer :=
  {| w_target := w_target w; w_fields := w_fields w;
     w_records := w_records w;
     w_shapes := w_shapes w ++ [shape]; w_closed := w_closed w |}.

Definition Writer_close (w : Writer) : Writer :=
  {| w_target := w_target w; w_fields := w_fields w;
     w_records := w_records w; w_shapes := w_shapes w; w_closed := true |}.

(** When the calls that [merge_shapefiles] makes into pyshp and shutil
    raise, and with what text: [None] is a call that returns.  Whether a
    call on the writer raises is taken to depend on what the writer has
    been given so far and on the arguments of the call.
    [reader_error path] is the text of the exception of a [Reader] that
    does not open [path]. *)
Record Library := {
  reader_error : string -> string;
  writer_error : string -> option string;
  field_error : Writer -> FieldDesc -> option string;
  record_error : Writer -> list string -> option string;
  shape_error : Writer -> list (Z * Z) -> option string;
  close_error : Writer -> option string;
  copy_error : string -> string -> option string
}.

(** Lines 65-73: the first path whose reader opens and has more than one
    field. *)
Fixpoint find_first_sf (fs : gmap string FileObj) (file_paths : list string)
    : option Shapefile :=
  match file_paths with
  | [] => None
  | path :: rest =>
      match Reader fs path with
      | Some temp_sf =>
          if 1 <? length (sf_fields temp_sf) then Some temp_sf
          else find_first_sf fs rest
      | None => find_first_sf fs rest
      end
  end.

(** Lines 80-83: the writer as the loop left it, and the exception of the
    call of [w.field] that ended it, if any. *)
Fixpoint copy_fields (lib : Library) (fields : list FieldDesc) (w : Writer)
    : Writer * option string :=
  match fields with
  | [] => (w, None)
  | field :: rest =>
      if String.eqb (fd_name field) "DeletionFlag" then copy_fields lib rest w
      else
        match field_error lib w field with
        | Some e => (w, Some e)
        | None => copy_fields lib rest (Writer_field w field)
        end
  end.

(** Lines 92-94 over the records that the reader yields: for each,
    [w.record] with its values, then [w.shape] with its geometry; the
    first call that raises ends the loop. *)
Fixpoint write_records (lib : Library) (w : Writer) (recs : list ShapeRecord)
    : Writer * option string :=
  match recs with
  | [] => (w, None)
  | shape_rec :: rest =>
      match record_error lib w (sr_record shape_rec) with
      | Some e => (w, Some e)
      | None =>
          let w := Writer_record w (sr_record shape_rec) in
          match shape_error lib w (sr_shape shape_rec) with
          | Some e => (w, Some e)
          | None => write_records lib (Writer_shape w (sr_shape shape_rec)) rest
          end
      end
  end.

(** Lines 87-95, one path: the writer and the lines printed so far.  An
    exception of the reader or of the writer is caught at line 94. *)
Definition merge_one (lib : Library) (fs : gmap string FileObj) (first_sf : Shapefile)
    (acc : Writer * list string) (path : string) : Writer * list string :=
  let '(w, out) := acc in
  match Reader fs path with
  | None => (w, out ++ ["Error reading " +:+ path +:+ ": " +:+ reader_error lib path])
  | Some sf =>
      if negb (length (sf_fields sf) =? length (sf_fields first_sf)) then (w, out)
      else
        let '(recs, read_err) := iterShapeRecords sf in
        let '(w', write_err) := write_records lib w recs in
        match write_err, read_err with
        | Some e, _ | None, Some e =>
            (w', out ++ ["Error reading " +:+ path +:+ ": " +:+ e])
        | None, None => (w', out)
        end
  end.

(** How a call ends. *)
Inductive Result :=
  | Returns (b : bool)
  | Raises (e : string).

(** What a call of [merge_shapefiles] did besides returning or raising:
    the writer it constructed (if it got that far) in the state the call
    left it, the [shutil.copy] it made, and what it printed.  Reads see the
    store as it was at the call. *)
Record Effects := {
  eff_writer : option Writer;
  eff_copy : option (string * string);
  eff_stdout : list string
}.

(** Lines 75-77. *)
Definition no_valid_shapefiles (w : Writer) (output_path : string) : Result * Effects :=
  (Returns false,
   {| eff_writer := Some w; eff_copy := None;
      eff_stdout := ["No valid shapefiles found for " +:+ output_path] |}).

(** Lines 97-105. *)
Definition finish (lib : Library) (fs : gmap string FileObj)
    (path0 output_path : string) (acc : Writer * list string) : Result * Effects :=
  let '(w, out) := acc in
  match close_error lib w with
  | Some e => (Raises e, {| eff_writer := Some w; eff_copy := None; eff_stdout := out |})
  | None =>
      let w := Writer_close w in
      let first_prj := replace path0 ".shp" ".prj" in
      let output_prj := replace output_path ".shp" ".prj" in
      if path_exists fs first_prj then
        match copy_error lib first_prj output_prj with
        | Some e =>
            (Raises e, {| eff_writer := Some w; eff_copy := None; eff_stdout := out |})
        | None =>
            (Returns true,
             {| eff_writer := Some w; eff_copy := Some (first_prj, output_prj);
                eff_stdout := out |})
        end
      else
        (Returns true, {| eff_writer := Some w; eff_copy := None; eff_stdout := out |})
  end.

(** [merge_shapefiles].  Line 75 tests the truth value of the reader,
    which pyshp takes from its length: a reader over no records is false. *)
Definition merge_shapefiles (lib : Library) (fs : gmap string FileObj)
    (file_paths : list string) (output_path : string) : Result * Effects :=
  match file_paths with
  | [] => (Returns false, {| eff_writer := None; eff_copy := None; eff_stdout := [] |})
  | path0 :: _ =>
      match writer_error lib output_path with
      | Some e =>
          (Raises e, {| eff_writer := None; eff_copy := None; eff_stdout := [] |})
      | None =>
          let w := Writer_new output_path in
          match find_first_sf fs file_paths with
          | None => no_valid_shapefiles w output_path
          | Some first_sf =>
              if length (sf_records first_sf) =? 0 then no_valid_shapefiles w output_path
              else
                match copy_fields lib (sf_fields first_sf) w with
                | (w, Some e) =>
                    (Raises e,
                     {| eff_writer := Some w; eff_copy := None; eff_stdout := [] |})
                | (w, None) =>
                    finish lib fs path0 output_path
                      (fold_left (merge_one lib fs first_sf) file_paths (w, []))
                end
          end
      end
  end.

(** ** Selective extraction: the archive loop of [process_territories] *)

Inductive Category := Parcel | Building.

(** The selector strings of the two categories, and the substring that a
    matching entry must contain and the one it must not. *)
Definition type_name (c : Category) : string :=
  match c with Parcel => "KKParcel" | Building => "KKBuilding" end.

Definition include_of (c : Category) : string := type_name c.

Definition exclude_of (c : Category) : string :=
  match c with Parcel => "KKParcelPart" | Building => "KKBuildingPart" end.

(** The condition of lines 136 and 143. *)
Definition wanted (py : Python) (enabled : bool) (c : Category) (filename : string)
    : bool :=
  enabled
  && contains filename (include_of c)
  && negb (contains filename (exclude_of c))
  && endswith (str_lower py filename) ".shp".

(** Lines 137-138: the entries handed to [z.extract] for one geometry
    entry, in archive order. *)
Definition related_files (namelist : list string) (filename : string) : list string :=
  let base := rsplit_head "." filename in
  List.filter (fun f => startswith f base) namelist.

(** An open [zipfile.ZipFile]: its [namelist()], and for each member the
    text of the exception that [z.extract] raises on it, if it does. *)
Record Archive := {
  zip_namelist : list string;
  zip_extract_error : string -> option string
}.

(** The state of the loop: the calls [z.extract(rf, temp_dir)] that
    returned so far (by their member name) and the two lists of primary
    paths. *)
Record Extraction := {
  extracted : list string;
  parcels_to_merge : list string;
  buildings_to_merge : list string
}.

Definition empty_extraction : Extraction :=
  {| extracted := []; parcels_to_merge := []; buildings_to_merge := [] |}.

(** Lines 139 and 146: [z.extract] on each related file in turn; the
    members extracted, and the exception that ended the loop, if any. *)
Fixpoint extract_members (z : Archive) (members : list string)
    : list string * option string :=
  match members with
  | [] => ([], None)
  | rf :: rest =>
      match zip_extract_error z rf with
      | Some e => ([], Some e)
      | None =>
          let '(done, err) := extract_members z rest in
          (rf :: done, err)
      end
  end.

(** Lines 136-140. *)
Definition visit_parcel (py : Python) (temp_dir : string) (do_parcels : bool)
    (z : Archive) (st : Extraction) (filename : string) : Extraction * option string :=
  if wanted py do_parcels Parcel filename then
    let '(done, err) := extract_members z (related_files (zip_namelist z) filename) in
    match err with
    | Some e =>
        ({| extracted := extracted st ++ done;
            parcels_to_merge := parcels_to_merge st;
            buildings_to_merge := buildings_to_merge st |}, Some e)
    | None =>
        ({| extracted := extracted st ++ done;
            parcels_to_merge := parcels_to_merge st ++ [os_path_join temp_dir filename];
            buildings_to_merge := buildings_to_merge st |}, None)
    end
  else (st, None).

(** Lines 143-147. *)
Definition visit_building (py : Python) (temp_dir : string) (do_buildings : bool)
    (z : Archive) (st : Extraction) (filename : string) : Extraction * option string :=
  if wanted py do_buildings Building filename then
    let '(done, err) := extract_members z (related_files (zip_namelist z) filename) in
    match err with
    | Some e =>
        ({| extracted := extracted st ++ done;
            parcels_to_merge := parcels_to_merge st;
            buildings_to_merge := buildings_to_merge st |}, Some e)
    | None =>
        ({| extracted := extracted st ++ done;
            parcels_to_merge := parcels_to_merge st;
            buildings_to_merge := buildings_to_merge st ++ [os_path_join temp_dir filename] |},
         None)
    end
  else (st, None).

(** [for filename in z.namelist()] over the entries still to visit: the
    state reached, and the exception that ended the loop, if any. *)
Fixpoint visit_entries (py : Python) (temp_dir : string) (do_parcels do_buildings : bool)
    (z : Archive) (entries : list string) (st : Extraction)
    : Extraction * option string :=
  match entries with
  | [] => (st, None)
  | filename :: rest =>
      match visit_parcel py temp_dir do_parcels z st filename with
      | (st, Some e) => (st, Some e)
      | (st, None) =>
          match visit_building py temp_dir do_buildings z st filename with
          | (st, Some e) => (st, Some e)
          | (st, None) => visit_entries py temp_dir do_parcels do_buildings z rest st
          end
      end
  end.

(** Lines 134-147 for one archive. *)
Definition extract_archive (py : Python) (temp_dir : string)
    (selected_types : list string) (z : Archive) (st : Extraction)
    : Extraction * option string :=
  let do_parcels := bool_decide (type_name Parcel ∈ selected_types) in
  let do_buildings := bool_decide (type_name Building ∈ selected_types) in
  visit_entries py temp_dir do_parcels do_buildings z (zip_namelist z) st.

Definition primary_paths (c : Category) (st : Extraction) : list string :=
  match c with
  | Parcel => parcels_to_merge st
  | Building => buildings_to_merge st
  end.

(** ** Merging: step 2 of [process_territories] *)

(** The exceptions that leave [process_territories]: the [KeyError] of
    line 126, or one raised inside pyshp or shutil during a merge. *)
Inductive Exn :=
  | KeyError (key : string)
  | LibraryError (e : string).

(** A call either returns or lets an exception escape. *)
Inductive Outcome (A : Type) :=
  | Returned (a : A)
  | Raised (e : Exn).
Arguments Returned {A} a.
Arguments Raised {A} e.

(** Lines 156-161, and 164-169: one category's merge, and the base name it
    adds to [files_created]. *)
Definition merge_category (lib : Library) (fs : gmap string FileObj)
    (temp_dir : string) (paths : list string) (base : string)
    : Outcome (list string) :=
  match paths with
  | [] => Returned []
  | _ =>
      let out := os_path_join temp_dir (base +:+ ".shp") in
      match (merge_shapefiles lib fs paths out).1 with
      | Returns true => Returned [base]
      | Returns false => Returned []
      | Raises e => Raised (LibraryError e)
      end
  end.

(** Lines 155-169: the base names of the outputs whose merge succeeded.
    [fs] is the working directory as the extraction left it; neither merge
    reads what the other writes. *)
Definition merge_step (lib : Library) (fs : gmap string FileObj) (temp_dir : string)
    (st : Extraction) : Outcome (list string) :=
  match merge_category lib fs temp_dir (parcels_to_merge st) "Parcels_merged" with
  | Raised e => Raised e
  | Returned parcels =>
      match merge_category lib fs temp_dir (buildings_to_merge st) "Buildings_merged" with
      | Raised e => Raised e
      | Returned buildings => Returned (parcels ++ buildings)
      end
  end.

(** ** Packaging: step 3 of [process_territories] *)

Definition EXTENSIONS : list string := [".shp"; ".shx"; ".dbf"; ".prj"; ".cpg"].

(** A member of the output archive: the name it is stored under and the
    path of the file it was written from. *)
Record ZipEntry := {
  ze_arcname : string;
  ze_source : string
}.

(** Lines 176-179 for one base name. *)
Definition zip_base (fs : gmap string FileObj) (temp_dir base_name : string)
    : list ZipEntry :=
  let base_path := os_path_join temp_dir base_name in
  flat_map
    (fun ext =>
       if path_exists fs (base_path +:+ ext)
       then [{| ze_arcname := base_name +:+ ext; ze_source := base_path +:+ ext |}]
       else [])
    EXTENSIONS.

(** Lines 172-184: [None] is Python's [None], [Some entries] the archive
    whose bytes are returned. *)
Definition zip_result (fs : gmap string FileObj) (temp_dir : string)
    (files_created : list string) : option (list ZipEntry) :=
  match files_created with
  | [] => None
  | _ => Some (flat_map (zip_base fs temp_dir) files_created)
  end.

(** ** The download loop of [process_territories] *)

(** What [requests.get], [raise_for_status] and [zipfile.ZipFile] yield
    for a URL: the open archive, or the text of the exception raised. *)
Inductive Download :=
  | Failed (e : string)
  | Opened (z : Archive).

(** The loop's state: the extraction so far, the URLs requested so far,
    and what was printed. *)
Record Run := {
  run_extraction : Extraction;
  run_requests : list string;
  run_stdout : list string
}.

Definition empty_run : Run :=
  {| run_extraction := empty_extraction; run_requests := []; run_stdout := [] |}.

(** Line 150. *)
Definition failure_line (territory_name e : string) : string :=
  "Failed to process " +:+ territory_name +:+ ": " +:+ e.

(** Lines 125-152: the state the loop reached, and the exception that
    left it, if any.  The loop's [try] catches what the download, the
    archive or an extraction raises; what was extracted and listed before
    stays.  The lookup of line 126 is outside the [try]. *)
Fixpoint download_loop (py : Python) (temp_dir : string) (selected_types : list string)
    (resource_map : gmap string string) (get : string -> Download)
    (selected_names : list string) (run : Run) : Run * option Exn :=
  match selected_names with
  | [] => (run, None)
  | territory_name :: rest =>
      match resource_map !! territory_name with
      | None => (run, Some (KeyError territory_name))
      | Some url =>
          let run' :=
            match get url with
            | Opened z =>
                let '(st, err) :=
                  extract_archive py temp_dir selected_types z (run_extraction run) in
                {| run_extraction := st;
                   run_requests := run_requests run ++ [url];
                   run_stdout :=
                     run_stdout run ++
                     match err with
                     | Some e => [failure_line territory_name e]
                     | None => []
                     end |}
            | Failed e =>
                {| run_extraction := run_extraction run;
                   run_requests := run_requests run ++ [url];
                   run_stdout := run_stdout run ++ [failure_line territory_name e] |}
            end in
          download_loop py temp_dir selected_types resource_map get rest run'
      end
  end.

(** ** The whole run: [process_territories] *)

(** How the call ends (with the archive, or [None]), and the URLs it
    requested.  [fs] is the working directory as the extraction left it
    and [fs'] as the merges left it. *)
Definition process_territories (lib : Library) (py : Python) (temp_dir : string)
    (selected_names : list string) (resource_map : gmap string string)
    (selected_types : list string) (get : string -> Download)
    (fs fs' : gmap string FileObj)
    : Outcome (option (list ZipEntry)) * list string :=
  let '(run, exn) :=
    download_loop py temp_dir selected_types resource_map get selected_names
      empty_run in
  match exn with
  | Some e => (Raised e, run_requests run)
  | None =>
      match merge_step lib fs temp_dir (run_extraction run) with
      | Raised e => (Raised e, run_requests run)
      | Returned files_created =>
          (Returned (zip_result fs' temp_dir files_created), run_requests run)
      end
  end.

(** ** The catalogue as an ordered dictionary, and the displayed names *)

(** What lines 35-41 store for one resource, if anything. *)
Definition resource_binding (py : Python) (res : Resource) : option (string * string) :=
  let fmt := str_upper py (default "" (res_format res)) in
  let url := default "" (res_url res) in
  if format_or_url_ok py fmt url then
    match res_name res with
    | Some name =>
        if nonempty name && nonempty url then Some (name, url) else None
    | None => None
    end
  else None.

(** A dict lists its keys in the order in which they were first inserted;
    assigning to a key already present leaves its place unchanged. *)
Definition add_key (py : Python) (keys : list string) (res : Resource) : list string :=
  match resource_binding py res with
  | Some (name, _) => if bool_decide (name ∈ keys) then keys else keys ++ [name]
  | None => keys
  end.

(** [list(resource_map.keys())] for the mapping built from [rs]. *)
Definition catalog_keys (py : Python) (rs : list Resource) : list string :=
  fold_left (add_key py) rs [].

(** [sorted(l, key=key)]: ascending by key and stable.  A stable sort has
    one possible result, here computed by insertion from the right. *)
Fixpoint insert_sorted {A : Type} (key : A -> Z) (x : A) (l : list A) : list A :=
  match l with
  | [] => [x]
  | y :: l' =>
      if (key x <=? key y)%Z then x :: l else y :: insert_sorted key x l'
  end.

Definition sorted {A : Type} (key : A -> Z) (l : list A) : list A :=
  foldr (insert_sorted key) [] l.

(** Line 198. *)
Definition territory_names (py : Python) (rs : list Resource) : list string :=
  sorted (get_sort_key py) (catalog_keys py rs).

(** The resources a response lists, as far as [get_territory_list] reads
    them. *)
Definition catalog_entries (r : Response) : list Resource :=
  match r with
  | Decoded data =>
      if body_success data then
        match body_resources data with
        | Found rs => rs
        | Missing _ => []
        end
      else []
  | _ => []
  end.

(** ** The page: lines 191-234 *)

(** What the user has set: the territories picked, the "select all" box,
    the data types picked, and whether the button was pressed. *)
Record Controls := {
  ctl_territories : list string;
  ctl_select_all : bool;
  ctl_data_types : list string;
  ctl_button : bool
}.

Inductive Screen :=
  | Stopped
  | Idle
  | ErrorShown (msg : string)
  | DownloadOffered (zip : list ZipEntry).

(** One run of the script: what is shown, unless an exception escapes,
    and the URLs requested for archives. *)
Definition page (lib : Library) (py : Python) (r : Response) (ctl : Controls)
    (get : string -> Download) (temp_dir : string)
    (fs fs' : gmap string FileObj) : Outcome Screen * list string :=
  let resource_map := (get_territory_list py r).1 in
  if bool_decide (resource_map = ∅) then (Returned Stopped, [])
  else
    let names := territory_names py (catalog_entries r) in
    let selected_territories :=
      if ctl_select_all ctl then names else ctl_territories ctl in
    if negb (ctl_button ctl) then (Returned Idle, [])
    else
      match selected_territories with
      | [] => (Returned (ErrorShown "Please select at least one territory."), [])
      | _ =>
          match ctl_data_types ctl with
          | [] =>
              (Returned
                 (ErrorShown
                    "Please select at least one data type (Parcels or Buildings)."),
               [])
          | _ =>
              match process_territories lib py temp_dir selected_territories
                      resource_map (ctl_data_types ctl) get fs fs' with
              | (Raised e, requests) => (Raised e, requests)
              | (Returned (Some zip_data), requests) =>
                  (Returned (DownloadOffered zip_data), requests)
              | (Returned None, requests) =>
                  (Returned (ErrorShown "No data found for the selected criteria."),
                   requests)
              end
          end
      end.

(** ** Vocabulary of the properties *)

(** Equality up to ASCII letter case. *)
Definition ci_eq (s t : string) : Prop := lower s = lower t.

(** Equality of the upper-cased forms, as [str.upper] gives them. *)
Definition same_upper (py : Python) (s t : string) : Prop :=
  str_upper py s = str_upper py t.

(** A label "<digits>.<rest>", the digits being ASCII digits. *)
Definition digit_dot_form (text : string) : Prop :=
  exists ds rest, isdigit ds = true /\ text = ds +:+ "." +:+ rest.

(** [head] is the part of [text] before its first period, or all of
    [text] when it has none. *)
Definition head_of (text head : string) : Prop :=
  has_char "." head = false /\
  (text = head \/ exists rest, text = head +:+ "." +:+ rest).

(** The entry has a non-empty name and a non-empty URL, and its declared
    format upper-cases to SHP or ZIP or its URL ends in ".zip", letter
    case aside. *)
Definition eligible (py : Python) (res : Resource) : Prop :=
  exists name url,
    res_name res = Some name /\ res_url res = Some url /\
    name <> "" /\ url <> "" /\
    ((exists fmt, res_format res = Some fmt /\
                  (same_upper py fmt "SHP" \/ same_upper py fmt "ZIP"))
     \/ exists pre tail, url = pre +:+ tail /\ ci_eq tail ".zip").

(** The entry appears in the mapping: its name is mapped to its URL. *)
Definition appears (m : gmap string string) (res : Resource) : Prop :=
  exists name url,
    res_name res = Some name /\ res_url res = Some url /\ m !! name = Some url.

(** The weaker reading: the entry's name is a key of the mapping. *)
Definition name_listed (m : gmap string string) (res : Resource) : Prop :=
  exists name, res_name res = Some name /\ is_Some (m !! name).

(** The mapping returned for a successful response listing [rs]. *)
Definition catalog_of (py : Python) (rs : list Resource) : gmap string string :=
  fst (get_territory_list py
         (Decoded {| body_success := true; body_resources := Found rs |})).

(** [path] opens and exposes more than one field descriptor. *)
Definition usable (fs : gmap string FileObj) (path : string) : Prop :=
  exists sf, Reader fs path = Some sf /\ 1 < length (sf_fields sf).

(** [canon] is read from the first usable path of [file_paths]. *)
Definition canonical (fs : gmap string FileObj) (file_paths : list string)
    (canon : Shapefile) : Prop :=
  exists before path after,
    file_paths = before ++ path :: after /\
    Reader fs path = Some canon /\ 1 < length (sf_fields canon) /\
    forall q, q ∈ before -> ~ usable fs q.

(** The writer takes every descriptor, record and geometry handed to it. *)
Definition accepting (lib : Library) : Prop :=
  (forall w f, field_error lib w f = None) /\
  (forall w values, record_error lib w values = None) /\
  (forall w shape, shape_error lib w shape = None).

(** A record and its geometry, both taken by the writer. *)
Definition Writer_add (w : Writer) (r : ShapeRecord) : Writer :=
  Writer_shape (Writer_record w (sr_record r)) (sr_shape r).

(** The writer [w] after it took further records and geometries. *)
Definition Writer_extend (w : Writer) (records : list (list string))
    (shapes : list (list (Z * Z))) : Writer :=
  {| w_target := w_target w; w_fields := w_fields w;
     w_records := w_records w ++ records;
     w_shapes := w_shapes w ++ shapes; w_closed := w_closed w |}.

(** No call outside the [try] of line 87 raises: constructing the writer,
    [w.field], [w.close] and [shutil.copy] all return. *)
Definition unfailing (lib : Library) : Prop :=
  (forall target, writer_error lib target = None) /\
  (forall w f, field_error lib w f = None) /\
  (forall w, close_error lib w = None) /\
  (forall src dst, copy_error lib src dst = None).

(** The records a path hands to the writer in a merge whose canonical
    source is [canon]: those its reader yields, when it opens with as many
    field descriptors as [canon]; none otherwise. *)
Definition contribution (fs : gmap string FileObj) (canon : Shapefile)
    (path : string) : list ShapeRecord :=
  match Reader fs path with
  | Some sf =>
      if length (sf_fields sf) =? length (sf_fields canon)
      then (iterShapeRecords sf).1 else []
  | None => []
  end.

(** The number of records a reader yields before it raises, if it does:
    all of the file's records when the file is sound. *)
Definition records_read (sf : Shapefile) : nat := length (iterShapeRecords sf).1.

(** [count sf] for a path that opens with as many field descriptors as
    [canon], nothing for any other path. *)
Definition count_if_compatible (count : Shapefile -> nat)
    (fs : gmap string FileObj) (canon : Shapefile) (path : string) : nat :=
  match Reader fs path with
  | Some sf =>
      if length (sf_fields sf) =? length (sf_fields canon) then count sf else 0
  | None => 0
  end.

(** The number of records in the output of a merge, when there is one. *)
Definition output_count (lib : Library) (fs : gmap string FileObj)
    (file_paths : list string) (output_path : string) : option nat :=
  match merge_shapefiles lib fs file_paths output_path with
  | (Returns true, eff) => (fun w => length (w_records w)) <$> eff_writer eff
  | _ => None
  end.

(** The writer a merge leaves behind. *)
Definition merged_writer (lib : Library) (fs : gmap string FileObj)
    (file_paths : list string) (output_path : string) : option Writer :=
  eff_writer (merge_shapefiles lib fs file_paths output_path).2.

(** The reader of [path] raises. *)
Definition fails_to_open (fs : gmap string FileObj) (path : string) : bool :=
  bool_decide (Reader fs path = None).

(** [path] opens with as many field descriptors as [canon], and reading
    its records raises before their end. *)
Definition breaks_off (fs : gmap string FileObj) (canon : Shapefile)
    (path : string) : bool :=
  match Reader fs path with
  | Some sf =>
      (length (sf_fields sf) =? length (sf_fields canon))
      && bool_decide (is_Some (iterShapeRecords sf).2)
  | None => false
  end.

(** Path minus extension, as the extractor computes it. *)
Definition base_name (filename : string) : string := rsplit_head "." filename.

(** The category's test on an archive entry, spelled out. *)
Definition matches_category (c : Category) (filename : string) : Prop :=
  (exists a b, filename = a +:+ include_of c +:+ b) /\
  ~ (exists a b, filename = a +:+ exclude_of c +:+ b) /\
  exists pre tail, filename = pre +:+ tail /\ ci_eq tail ".shp".

Definition requested (selected_types : list string) (c : Category) : Prop :=
  type_name c ∈ selected_types.

(** Every call of [z.extract] on a member of [z] returns. *)
Definition extracts_all (z : Archive) : Prop :=
  forall g, g ∈ zip_namelist z -> zip_extract_error z g = None.

(** The label "<n>.<rest>" with [n] in decimal. *)
Definition numbered (n : N) (rest : string) : string :=
  pretty n +:+ "." +:+ rest.

(** The test of lines 136 and 143 for the category [c], given the types
    selected. *)
Definition selects (py : Python) (selected_types : list string) (c : Category)
    (filename : string) : bool :=
  wanted py (bool_decide (type_name c ∈ selected_types)) c filename.

(** The download of [territory_name] fails. *)
Definition download_fails (resource_map : gmap string string)
    (get : string -> Download) (territory_name : string) : bool :=
  match get <$> resource_map !! territory_name with
  | Some (Failed _) => true
  | _ => false
  end.

(** What is obtained for a territory: [None] when it has no URL. *)
Definition archive_at (resource_map : gmap string string)
    (get : string -> Download) (territory_name : string) : option Download :=
  get <$> resource_map !! territory_name.

(** The base name of a category's merged output. *)
Definition output_base (c : Category) : string :=
  match c with Parcel => "Parcels_merged" | Building => "Buildings_merged" end.

(** The ten names a member of the delivered archive can have. *)
Definition archive_names : list string :=
  base ← ["Parcels_merged"; "Buildings_merged"];
  ext ← EXTENSIONS;
  [base +:+ ext].

(** [s * n] for a one-character [s]. *)
Fixpoint str_repeat (c : ascii) (n : nat) : string :=
  match n with
  | O => EmptyString
  | S n' => String c (str_repeat c n')
  end.

(** ** Sample data *)

(** [str] restricted to what it does on ASCII text; [int] converts digit
    strings of at most 4300 digits. *)
Definition ascii_python : Python.
Proof.
  refine
    {| str_upper := upper;
       str_lower := lower;
       str_isdigit := isdigit;
       str_int := fun s =>
         if isdigit s && (String.length s <=? MAX_STR_DIGITS)
         then Some (int s) else None;
       upper_ascii := fun s _ => eq_refl;
       lower_endswith := fun s suf _ => eq_refl;
       isdigit_ascii := fun s H => H;
       isdigit_empty := eq_refl;
       isdigit_nondigit := _;
       int_ascii := _;
       int_limit := _ |}.
  - intros s H.
    assert (Hall : all_digits s = false).
    { induction s as [|c s IH]; simpl in *; [discriminate|].
      destruct (is_digit c); simpl; [|reflexivity].
      rewrite andb_false_r in H. simpl in H. exact (IH H). }
    destruct s; [reflexivity|]. exact Hall.
  - intros s H Hlen. rewrite H. simpl.
    apply Nat.leb_le in Hlen. rewrite Hlen. reflexivity.
  - intros s H Hlen. rewrite H. simpl.
    apply Nat.leb_gt in Hlen. rewrite Hlen. reflexivity.
Defined.

(** Upper-casing that knows one letter beyond ASCII: the dotless "i"
    (U+0131, in UTF-8 the bytes 196 and 177), whose upper case is "I". *)
Fixpoint upper_dotless (s : string) : string :=
  match s with
  | EmptyString => EmptyString
  | String c s' =>
      match s' with
      | String d s'' =>
          if Ascii.eqb c "196" && Ascii.eqb d "177"
          then String "I" (upper_dotless s'')
          else String (ascii_upper c) (upper_dotless s')
      | EmptyString => String (ascii_upper c) EmptyString
      end
  end.

(** [ascii_python] with that upper-casing. *)
Definition dotless_python : Python.
Proof.
  refine
    {| str_upper := upper_dotless;
       str_lower := str_lower ascii_python;
       str_isdigit := str_isdigit ascii_python;
       str_int := str_int ascii_python;
       upper_ascii := _;
       lower_endswith := lower_endswith ascii_python;
       isdigit_ascii := isdigit_ascii ascii_python;
       isdigit_empty := isdigit_empty ascii_python;
       isdigit_nondigit := isdigit_nondigit ascii_python;
       int_ascii := int_ascii ascii_python;
       int_limit := int_limit ascii_python |}.
  intros s. induction s as [|c s IH]; [reflexivity|].
  cbn [ascii_only]. intros H. apply andb_true_iff in H as [Hc Hs].
  cbn [upper_dotless]. destruct s as [|d s'].
  - reflexivity.
  - assert (Hne : Ascii.eqb c "196" = false).
    { destruct (Ascii.eqb_spec c "196") as [-> | _]; [discriminate Hc | reflexivity]. }
    rewrite Hne. cbn [andb]. rewrite (IH Hs). reflexivity.
Defined.

(** The format "zip" written with a dotless "i". *)
Definition dotless_zip : string :=
  String "z" (String "196" (String "177" (String "p" EmptyString))).

(** A library none of whose calls raises, a reader's failure to open
    aside. *)
Definition quiet : Library :=
  {| reader_error := fun path => "Unable to open " +:+ path;
     writer_error := fun _ => None;
     field_error := fun _ _ => None;
     record_error := fun _ _ => None;
     shape_error := fun _ _ => None;
     close_error := fun _ => None;
     copy_error := fun _ _ => None |}.

(** A library whose writer refuses a record with more values than the
    writer has fields, and a geometry with no points; whose [close] raises
    when the records and the geometries written differ in number; and
    whose copy can write no destination but "/tmp/w/out.prj". *)
Definition strict : Library :=
  {| reader_error := fun path => "Unable to open " +:+ path;
     writer_error := fun _ => None;
     field_error := fun _ _ => None;
     record_error := fun w values =>
       if length (w_fields w) <? length values
       then Some "too many values" else None;
     shape_error := fun _ shape =>
       match shape with [] => Some "no points" | _ => None end;
     close_error := fun w =>
       if length (w_records w) =? length (w_shapes w) then None
       else Some "Number of records and shapes do not match";
     copy_error := fun _ dst =>
       if String.eqb dst "/tmp/w/out.prj" then None
       else Some "[Errno 13] Permission denied" |}.

(** [strict] with a [close] that does not check the two counts. *)
Definition lenient : Library :=
  {| reader_error := reader_error strict; writer_error := writer_error strict;
     field_error := field_error strict; record_error := record_error strict;
     shape_error := shape_error strict; close_error := fun _ => None;
     copy_error := copy_error strict |}.

Definition deletion_flag : FieldDesc :=
  {| fd_name := "DeletionFlag"; fd_type := "C"; fd_size := 1; fd_decimal := 0 |}.
Definition code_field : FieldDesc :=
  {| fd_name := "CODE"; fd_type := "C"; fd_size := 14; fd_decimal := 0 |}.
Definition area_field : FieldDesc :=
  {| fd_name := "AREA"; fd_type := "N"; fd_size := 12; fd_decimal := 2 |}.
Definition owner_field : FieldDesc :=
  {| fd_name := "OWNER"; fd_type := "C"; fd_size := 40; fd_decimal := 0 |}.

Definition parcel (code : string) (x : Z) : ShapeRecord :=
  {| sr_record := [code; "100.00"];
     sr_shape := [(x, 0%Z); (x, 1%Z); ((x + 1)%Z, 0%Z)] |}.

Definition riga_parcels : Shapefile :=
  {| sf_fields := [deletion_flag; code_field; area_field];
     sf_records := [parcel "0100" 0; parcel "0101" 2];
     sf_damage := None |}.

Definition jelgava_parcels : Shapefile :=
  {| sf_fields := [deletion_flag; code_field; area_field];
     sf_records := [parcel "0900" 10];
     sf_damage := None |}.

(** Three records, of which the second cannot be read. *)
Definition damaged_parcels : Shapefile :=
  {| sf_fields := [deletion_flag; code_field; area_field];
     sf_records := [parcel "0500" 20; parcel "0501" 22; parcel "0502" 24];
     sf_damage := Some (1, "unpack requires a buffer of 4 bytes") |}.

Definition wider_parcels : Shapefile :=
  {| sf_fields := [deletion_flag; code_field; area_field; owner_field];
     sf_records := [parcel "0700" 30];
     sf_damage := None |}.

(** A sound file whose second record has a geometry without points. *)
Definition pointless_parcels : Shapefile :=
  {| sf_fields := [deletion_flag; code_field; area_field];
     sf_records := [parcel "0300" 4;
                    {| sr_record := ["0301"; "100.00"]; sr_shape := [] |};
                    parcel "0302" 6];
     sf_damage := None |}.

(** A sound file with no records. *)
Definition empty_parcels : Shapefile :=
  {| sf_fields := [deletion_flag; code_field; area_field];
     sf_records := [];
     sf_damage := None |}.

Definition sample_fs : gmap string FileObj :=
  <["/tmp/w/riga/KKParcel.shp" := Dataset riga_parcels]>
  (<["/tmp/w/riga/KKParcel.prj" := Blob "PROJCS[LKS92]"]>
  (<["/tmp/w/jelgava/KKParcel.shp" := Dataset jelgava_parcels]>
  (<["/tmp/w/damaged/KKParcel.shp" := Dataset damaged_parcels]>
  (<["/tmp/w/wider/KKParcel.shp" := Dataset wider_parcels]>
  (<["/tmp/w/empty/KKParcel.shp" := Dataset empty_parcels]>
  (<["/tmp/w/pointless/KKParcel.shp" := Dataset pointless_parcels]>
  (<["/tmp/w/upper/KKParcel.SHP" := Dataset riga_parcels]>
  (<["/tmp/w/upper/KKParcel.prj" := Blob "PROJCS[LKS92]"]> ∅)))))))).

(** The working directory once a parcel merge has written its output. *)
Definition merged_fs : gmap string FileObj :=
  <["/tmp/w/Parcels_merged.shp" := Blob "shp"]>
  (<["/tmp/w/Parcels_merged.shx" := Blob "shx"]>
  (<["/tmp/w/Parcels_merged.dbf" := Blob "dbf"]>
  (<["/tmp/w/Parcels_merged.prj" := Blob "PROJCS[LKS92]"]> sample_fs))).

(** An archive all of whose members extract. *)
Definition sound_archive (namelist : list string) : Archive :=
  {| zip_namelist := namelist; zip_extract_error := fun _ => None |}.

(** A catalogue of two territories and what their URLs deliver; the
    archive of the second cannot be downloaded. *)
Definition sample_catalog : list Resource :=
  [ {| res_name := Some "10. Jelgava"; res_format := Some "ZIP";
       res_url := Some "https://x/jelgava.zip" |};
    {| res_name := Some "1. Riga"; res_format := Some "zip";
       res_url := Some "https://x/riga.zip" |} ].

Definition sample_get (url : string) : Download :=
  if String.eqb url "https://x/riga.zip"
  then Opened (sound_archive
                 ["riga/KKParcel.shp"; "riga/KKParcel.prj"; "riga/KKParcelPart.shp";
                  "riga/KKBuilding.shp"])
  else Failed "404 Client Error".
(** * Properties *)

(** ** Strings *)

Lemma str_app_nil_l (s : string) : "" +:+ s = s.
Proof. reflexivity. Qed.

Lemma str_app_cons (c : ascii) (s t : string) : String c s +:+ t = String c (s +:+ t).
Proof. reflexivity. Qed.

Lemma str_app_nil_r (s : string) : s +:+ "" = s.
Proof. induction s as [|c s IH]; [reflexivity|]. rewrite str_app_cons, IH. reflexivity. Qed.


Lemma startswith_spec (s p : string) :
  startswith s p = true <-> exists r, s = p +:+ r.
Proof.
  revert s. induction p as [|a p IH]; intros s; simpl.
  - split; [intros _; exists s; reflexivity | reflexivity].
  - destruct s as [|b s].
    + split; [discriminate | intros [r Hr]; rewrite str_app_cons in Hr; discriminate].
    + destruct (Ascii.eqb a b) eqn:E.
      * apply Ascii.eqb_eq in E. subst b. rewrite IH. split.
        -- intros [r ->]. exists r. reflexivity.
        -- intros [r Hr]. rewrite str_app_cons in Hr. injection Hr as ->. exists r. reflexivity.
      * apply Ascii.eqb_neq in E. split; [discriminate|].
        intros [r Hr]. rewrite str_app_cons in Hr. injection Hr as -> _. congruence.
Qed.

Lemma startswith_refl (s : string) : startswith s s = true.
Proof. apply startswith_spec. exists "". symmetry. apply str_app_nil_r. Qed.

Lemma contains_spec (hay needle : string) :
  contains hay needle = true <-> exists a b, hay = a +:+ needle +:+ b.
Proof.
  induction hay as [|c hay IH]; simpl.
  - rewrite orb_false_r, startswith_spec. split.
    + intros [r Hr]. exists "", r. exact Hr.
    + intros [a [b H]]. destruct a as [|x a]; [exists b; exact H|].
      rewrite str_app_cons in H. discriminate.
  - rewrite orb_true_iff, startswith_spec, IH. split.
    + intros [[r Hr] | [a [b H]]].
      * exists "", r. exact Hr.
      * exists (String c a), b. rewrite str_app_cons, H. reflexivity.
    + intros [a [b H]]. destruct a as [|x a].
      * left. exists b. exact H.
      * right. rewrite str_app_cons in H. injection H as -> H. exists a, b. exact H.
Qed.

Lemma endswith_spec (s suf : string) :
  endswith s suf = true <-> exists pre, s = pre +:+ suf.
Proof.
  induction s as [|c s IH]; cbn [endswith].
  - rewrite orb_false_r, String.eqb_eq. split.
    + intros <-. exists "". reflexivity.
    + intros [pre H]. destruct pre as [|x pre]; [exact H|].
      rewrite str_app_cons in H. discriminate.
  - rewrite orb_true_iff, String.eqb_eq, IH. split.
    + intros [<- | [pre ->]].
      * exists "". reflexivity.
      * exists (String c pre). reflexivity.
    + intros [pre H]. destruct pre as [|x pre].
      * left. exact H.
      * right. rewrite str_app_cons in H. injection H as -> H. exists pre. exact H.
Qed.

Lemma string_map_app (f : ascii -> ascii) (s t : string) :
  string_map f (s +:+ t) = string_map f s +:+ string_map f t.
Proof.
  induction s as [|c s IH]; [reflexivity|].
  rewrite str_app_cons. simpl. rewrite IH. reflexivity.
Qed.

Lemma lower_app (s t : string) : lower (s +:+ t) = lower s +:+ lower t.
Proof. apply string_map_app. Qed.




(** Ending in [suf] once lowered is ending in some spelling of [suf]. *)
Lemma endswith_lower_spec (s suf : string) :
  endswith (lower s) suf = true <->
  exists pre tail, s = pre +:+ tail /\ lower tail = suf.
Proof.
  rewrite endswith_spec. split.
  - intros [pre H]. revert pre H. induction s as [|c s IH]; intros pre H.
    + exists "", "". split; [reflexivity|].
      destruct pre; [exact H | rewrite str_app_cons in H; discriminate].
    + destruct pre as [|x pre].
      * exists "", (String c s). split; [reflexivity | exact H].
      * change (lower (String c s)) with (String (ascii_lower c) (lower s)) in H.
        rewrite str_app_cons in H. injection H as _ H.
        destruct (IH pre H) as [p [t [-> Ht]]].
        exists (String c p), t. split; [reflexivity | exact Ht].
  - intros [pre [tail [-> <-]]]. exists (lower pre). apply lower_app.
Qed.

Lemma has_char_app (sep : ascii) (s t : string) :
  has_char sep (s +:+ t) = has_char sep s || has_char sep t.
Proof.
  induction s as [|c s IH]; [reflexivity|].
  rewrite str_app_cons. simpl. rewrite IH, orb_assoc. reflexivity.
Qed.

Lemma split_head_app (sep : ascii) (h r : string) :
  has_char sep h = false ->
  split_head sep (h +:+ String sep r) = h.
Proof.
  induction h as [|c h IH]; intros H.
  - rewrite str_app_nil_l. simpl. rewrite Ascii.eqb_refl. reflexivity.
  - simpl in H. apply orb_false_iff in H as [Hc Hh].
    rewrite str_app_cons. simpl. rewrite Hc, (IH Hh). reflexivity.
Qed.

Lemma split_head_none (sep : ascii) (h : string) :
  has_char sep h = false -> split_head sep h = h.
Proof.
  induction h as [|c h IH]; intros H; [reflexivity|].
  simpl in H. apply orb_false_iff in H as [Hc Hh].
  simpl. rewrite Hc, (IH Hh). reflexivity.
Qed.

Lemma rsplit_head_prefix (sep : ascii) (s : string) :
  startswith s (rsplit_head sep s) = true.
Proof.
  induction s as [|c s IH]; [reflexivity|].
  simpl. destruct (has_char sep s).
  - simpl. rewrite Ascii.eqb_refl. exact IH.
  - destruct (Ascii.eqb c sep); [reflexivity|].
    simpl. rewrite Ascii.eqb_refl. apply startswith_refl.
Qed.

(** [rsplit_head] cuts at the last separator. *)
Lemma rsplit_head_app (sep : ascii) (b e : string) :
  has_char sep e = false ->
  rsplit_head sep (b +:+ String sep e) = b.
Proof.
  intros He. induction b as [|c b IH].
  - rewrite str_app_nil_l. simpl. rewrite He, Ascii.eqb_refl. reflexivity.
  - rewrite str_app_cons. simpl. rewrite has_char_app. simpl. rewrite Ascii.eqb_refl.
    rewrite orb_true_r. simpl. rewrite IH. reflexivity.
Qed.

Lemma rsplit_head_none (sep : ascii) (s : string) :
  has_char sep s = false -> rsplit_head sep s = s.
Proof.
  destruct s as [|c s]; [reflexivity|]. simpl. intros H.
  apply orb_false_iff in H as [Hc Hs]. rewrite Hs, Hc. reflexivity.
Qed.


(** ** Paths *)

Example normpath_sample :
  normpath "/tmp/w/riga/../KKParcel.shp" = "/tmp/w/KKParcel.shp" /\
  normpath "riga//./KKParcel.shp" = "riga/KKParcel.shp" /\
  normpath "//srv/../x" = "//x".
Proof. repeat split. Qed.

Example extract_target_sample :
  extract_target "/tmp/w" "riga/KKParcel.shp" = "/tmp/w/riga/KKParcel.shp" /\
  extract_target "/tmp/w" "/etc/KKParcel.shp" = "/tmp/w/etc/KKParcel.shp" /\
  extract_target "/tmp/w" "riga/../KKParcel.shp" = "/tmp/w/riga/KKParcel.shp".
Proof. repeat split. Qed.

Example splitext_root_sample :
  splitext_root "/tmp/w/riga/KKParcel.shp" = "/tmp/w/riga/KKParcel" /\
  splitext_root "/tmp/w.d/KKParcel" = "/tmp/w.d/KKParcel" /\
  splitext_root "/tmp/w/.hidden" = "/tmp/w/.hidden".
Proof. repeat split. Qed.

(** ** The sort key *)

Lemma is_digit_not_dot (c : ascii) : is_digit c = true -> Ascii.eqb c "." = false.
Proof.
  intros H. destruct (Ascii.eqb c ".") eqn:E; [|reflexivity].
  apply Ascii.eqb_eq in E. subst c. discriminate H.
Qed.

Lemma all_digits_no_dot (s : string) : all_digits s = true -> has_char "." s = false.
Proof.
  induction s as [|c s IH]; [reflexivity|]. simpl. intros H.
  apply andb_true_iff in H as [Hc Hs].
  rewrite (is_digit_not_dot c Hc), (IH Hs). reflexivity.
Qed.

Lemma isdigit_all_digits (s : string) : isdigit s = true -> all_digits s = true.
Proof. destruct s; [discriminate | exact id]. Qed.

Lemma int_from_snoc (acc : Z) (s : string) (c : ascii) :
  int_from acc (s +:+ String c "") = (10 * int_from acc s + digit_value c)%Z.
Proof.
  revert acc. induction s as [|d s IH]; intros acc; [reflexivity|].
  rewrite str_app_cons. simpl. apply IH.
Qed.

(** [int] reads a decimal numeral: appending a digit multiplies by ten and
    adds the digit. *)
Lemma int_snoc (s : string) (c : ascii) :
  int (s +:+ String c "") = (10 * int s + digit_value c)%Z.
Proof. apply int_from_snoc. Qed.

Lemma digit_value_range (c : ascii) :
  is_digit c = true -> (0 <= digit_value c <= 9)%Z.
Proof.
  unfold is_digit, digit_value. intros H.
  apply andb_true_iff in H as [H1 H2].
  apply N.leb_le in H1, H2. lia.
Qed.

Lemma int_from_nonneg (acc : Z) (s : string) :
  (0 <= acc)%Z -> all_digits s = true -> (0 <= int_from acc s)%Z.
Proof.
  revert acc. induction s as [|c s IH]; intros acc Hacc H; [exact Hacc|].
  simpl in H. apply andb_true_iff in H as [Hc Hs]. simpl.
  apply IH; [|exact Hs]. pose proof (digit_value_range c Hc). lia.
Qed.

Lemma int_nonneg (s : string) : isdigit s = true -> (0 <= int s)%Z.
Proof. intros H. apply int_from_nonneg; [lia | apply isdigit_all_digits, H]. Qed.

Lemma not_digit_dot_form_without_dot (text : string) :
  has_char "." text = false -> ~ digit_dot_form text.
Proof.
  intros H [ds [rest [_ ->]]].
  rewrite has_char_app in H. apply orb_false_iff in H as [_ H].
  rewrite str_app_cons in H. simpl in H. discriminate.
Qed.

(** A period is an ASCII character other than a digit. *)
Lemma has_char_dot_nondigit (s : string) :
  has_char "." s = true -> has_ascii_nondigit s = true.
Proof.
  induction s as [|c s IH]; [discriminate|]. simpl. intros H.
  apply orb_true_iff in H as [H | H].
  - apply Ascii.eqb_eq in H. subst c. reflexivity.
  - rewrite (IH H). apply orb_true_r.
Qed.

(** What [str.isdigit] accepts holds no period. *)
Lemma str_isdigit_no_dot (py : Python) (s : string) :
  str_isdigit py s = true -> has_char "." s = false.
Proof.
  intros H. destruct (has_char "." s) eqn:E; [|reflexivity].
  rewrite (isdigit_nondigit py s (has_char_dot_nondigit s E)) in H. discriminate.
Qed.

(** A label is [head +:+ tail] with no period in [head] and [tail] empty
    or begun by a period; its key depends on [head] alone. *)
Lemma get_sort_key_head (py : Python) (head tail : string) :
  has_char "." head = false ->
  tail = "" \/ (exists rest, tail = "." +:+ rest) ->
  get_sort_key py (head +:+ tail)
  = if str_isdigit py head
    then match str_int py head with Some n => n | None => SENTINEL end
    else SENTINEL.
Proof.
  intros Hhead Htail. unfold get_sort_key. destruct Htail as [-> | [rest ->]].
  - rewrite str_app_nil_r, (split_head_none _ _ Hhead). reflexivity.
  - rewrite str_app_cons, str_app_nil_l, (split_head_app _ _ _ Hhead). reflexivity.
Qed.

Lemma get_sort_key_head_of (py : Python) (text head : string) :
  head_of text head ->
  get_sort_key py text
  = if str_isdigit py head
    then match str_int py head with Some n => n | None => SENTINEL end
    else SENTINEL.
Proof.
  intros [Hhead [-> | [rest ->]]].
  - rewrite <- (str_app_nil_r head) at 1.
    apply get_sort_key_head; [exact Hhead | left; reflexivity].
  - apply get_sort_key_head; [exact Hhead | right; exists rest; reflexivity].
Qed.

(** A head of at most 4300 ASCII digits is the key. *)
Lemma get_sort_key_digits (py : Python) (ds tail : string) :
  isdigit ds = true -> String.length ds <= MAX_STR_DIGITS ->
  tail = "" \/ (exists rest, tail = "." +:+ rest) ->
  get_sort_key py (ds +:+ tail) = int ds.
Proof.
  intros Hd Hlen Htail.
  rewrite get_sort_key_head; [|apply all_digits_no_dot, isdigit_all_digits, Hd | exact Htail].
  rewrite (isdigit_ascii py ds Hd), (int_ascii py ds Hd Hlen). reflexivity.
Qed.

(** [int] refuses a longer one, and the key is the sentinel. *)
Lemma get_sort_key_long (py : Python) (ds tail : string) :
  isdigit ds = true -> MAX_STR_DIGITS < String.length ds ->
  tail = "" \/ (exists rest, tail = "." +:+ rest) ->
  get_sort_key py (ds +:+ tail) = SENTINEL.
Proof.
  intros Hd Hlen Htail.
  rewrite get_sort_key_head; [|apply all_digits_no_dot, isdigit_all_digits, Hd | exact Htail].
  rewrite (isdigit_ascii py ds Hd), (int_limit py ds Hd Hlen). reflexivity.
Qed.

(** C4, as stated, fails: the all-digit label "123" has no period, so it is
    not of the form "<digits>.<rest>", yet its key is 123 and not the
    sentinel; the digit-prefixed label "1000000. X" has a key above the
    sentinel, so the unnumbered label "Riga" sorts before it; and a label
    that begins with 4301 digits and a period is of the form
    "<digits>.<rest>", yet [int] refuses its digits and its key is the
    sentinel. *)
Lemma get_sort_key_not_as_claimed :
  (~ digit_dot_form "123" /\ get_sort_key ascii_python "123" = 123%Z /\
   get_sort_key ascii_python "123" <> SENTINEL) /\
  (digit_dot_form "1000000. X" /\ ~ digit_dot_form "Riga" /\
   (get_sort_key ascii_python "Riga" < get_sort_key ascii_python "1000000. X")%Z) /\
  (digit_dot_form (str_repeat "1" 4301 +:+ ". X") /\
   get_sort_key ascii_python (str_repeat "1" 4301 +:+ ". X") = SENTINEL).
Proof.
  split; [split; [|split]|split; [split; [|split]|split]].
  - apply not_digit_dot_form_without_dot. reflexivity.
  - reflexivity.
  - discriminate.
  - exists "1000000", " X". split; reflexivity.
  - apply not_digit_dot_form_without_dot. reflexivity.
  - reflexivity.
  - exists (str_repeat "1" 4301), " X". split; [vm_compute; reflexivity | reflexivity].
  - vm_compute. reflexivity.
Qed.

(** C4 (amended).  The key of a label is decided by its head, the part
    before its first period (the whole label when it has no period): when
    [str.isdigit] accepts the head and [int] converts it, the key is the
    integer obtained; in every other case the key is 999999.  In
    particular a label "<digits>.<rest>", and equally a label that is
    nothing but digits, with at most 4300 ASCII digits has the value of its
    digits as key (a non-negative number); with more than 4300 digits it
    has the key 999999, as has every label whose head is empty or holds an
    ASCII character that is not a digit.  A digit-headed label sorts before
    the labels keyed 999999 exactly when its value is below 999999. *)
Theorem get_sort_key_spec (py : Python) :
  (forall text head, head_of text head ->
     (forall n, str_isdigit py head = true -> str_int py head = Some n ->
                get_sort_key py text = n) /\
     (str_isdigit py head = false \/ str_int py head = None ->
      get_sort_key py text = SENTINEL)) /\
  (forall ds rest, isdigit ds = true -> String.length ds <= MAX_STR_DIGITS ->
     get_sort_key py (ds +:+ "." +:+ rest) = int ds /\ (0 <= int ds)%Z) /\
  (forall ds, isdigit ds = true -> String.length ds <= MAX_STR_DIGITS ->
     get_sort_key py ds = int ds) /\
  (forall ds tail, isdigit ds = true -> MAX_STR_DIGITS < String.length ds ->
     tail = "" \/ (exists rest, tail = "." +:+ rest) ->
     get_sort_key py (ds +:+ tail) = SENTINEL) /\
  (forall head tail,
     has_char "." head = false ->
     tail = "" \/ (exists rest, tail = "." +:+ rest) ->
     head = "" \/ has_ascii_nondigit head = true ->
     get_sort_key py (head +:+ tail) = SENTINEL) /\
  (forall ds tail other,
     isdigit ds = true -> String.length ds <= MAX_STR_DIGITS ->
     tail = "" \/ (exists rest, tail = "." +:+ rest) ->
     get_sort_key py other = SENTINEL ->
     (get_sort_key py (ds +:+ tail) < get_sort_key py other)%Z <-> (int ds < 999999)%Z).
Proof.
  split; [|split; [|split; [|split; [|split]]]].
  - intros text head Hhead. rewrite (get_sort_key_head_of py text head Hhead). split.
    + intros n Hd Hn. rewrite Hd, Hn. reflexivity.
    + intros [Hd | Hn]; [rewrite Hd; reflexivity|].
      rewrite Hn. destruct (str_isdigit py head); reflexivity.
  - intros ds rest Hd Hlen. split; [|apply int_nonneg, Hd].
    apply (get_sort_key_digits py ds ("." +:+ rest) Hd Hlen).
    right. exists rest. reflexivity.
  - intros ds Hd Hlen. rewrite <- (str_app_nil_r ds) at 1.
    apply get_sort_key_digits; [exact Hd | exact Hlen | left; reflexivity].
  - intros ds tail Hd Hlen Htail. apply get_sort_key_long; assumption.
  - intros head tail Hhead Htail Hbad.
    rewrite (get_sort_key_head py _ _ Hhead Htail).
    destruct Hbad as [-> | Hbad].
    + rewrite (isdigit_empty py). reflexivity.
    + rewrite (isdigit_nondigit py head Hbad). reflexivity.
  - intros ds tail other Hd Hlen Htail Hother.
    rewrite (get_sort_key_digits py ds tail Hd Hlen Htail), Hother. reflexivity.
Qed.

Lemma get_sort_key_spec_witness :
  (get_sort_key ascii_python ("10" +:+ "." +:+ " Jelgava") = int "10" /\ (0 <= int "10")%Z) /\
  get_sort_key ascii_python ("Riga" +:+ ". Centrs") = SENTINEL /\
  get_sort_key ascii_python (str_repeat "7" 4301 +:+ "") = SENTINEL.
Proof.
  destruct (get_sort_key_spec ascii_python) as [_ [H1 [_ [H4 [H5 _]]]]].
  split; [|split].
  - apply H1; [reflexivity | vm_compute; lia].
  - apply H5; [reflexivity | right; exists " Centrs"; reflexivity | right; reflexivity].
  - apply H4; [vm_compute; reflexivity | | left; reflexivity].
    apply Nat.ltb_lt. vm_compute. reflexivity.
Defined.

(** ** The catalogue client *)

(** C9.  Whichever of the three exceptions the exchange raises, nothing
    propagates: the message is passed to [st.error] and the mapping
    returned is the empty one, the very mapping returned for a catalogue
    that lists nothing and for an unsuccessful response. *)
Theorem get_territory_list_fails_soft (py : Python) (msg : string) :
  get_territory_list py (ConnectionError msg) = (∅, ["API Error: " +:+ msg]) /\
  get_territory_list py (HTTPError msg) = (∅, ["API Error: " +:+ msg]) /\
  get_territory_list py (JSONDecodeError msg) = (∅, ["API Error: " +:+ msg]) /\
  (get_territory_list py (ConnectionError msg)).1 = catalog_of py [] /\
  (get_territory_list py (ConnectionError msg)).1
  = (get_territory_list py
       (Decoded {| body_success := false; body_resources := Missing "'result'" |})).1.
Proof. repeat split. Qed.

(** The lookup of line 33 is inside the [try] as well: when it raises, the
    exception's text is reported and the mapping is empty. *)
Lemma get_territory_list_missing (py : Python) (e : string) :
  get_territory_list py (Decoded {| body_success := true; body_resources := Missing e |})
  = (∅, ["API Error: " +:+ e]).
Proof. reflexivity. Qed.

Lemma ascii_lower_upper (c : ascii) : ascii_lower (ascii_upper c) = ascii_lower c.
Proof. destruct c as [[] [] [] [] [] [] [] []]; reflexivity. Qed.

Lemma ascii_upper_lower (c : ascii) : ascii_upper (ascii_lower c) = ascii_upper c.
Proof. destruct c as [[] [] [] [] [] [] [] []]; reflexivity. Qed.

Lemma lower_upper (s : string) : lower (upper s) = lower s.
Proof.
  induction s as [|c s IH]; [reflexivity|].
  unfold lower, upper in *. simpl. rewrite ascii_lower_upper, IH. reflexivity.
Qed.

Lemma upper_lower (s : string) : upper (lower s) = upper s.
Proof.
  induction s as [|c s IH]; [reflexivity|].
  unfold lower, upper in *. simpl. rewrite ascii_upper_lower, IH. reflexivity.
Qed.

(** Comparing the upper-cased format with an upper-case constant is
    comparing up to case. *)
Lemma upper_eqb_ci (s k : string) :
  upper k = k -> (String.eqb (upper s) k = true <-> ci_eq s k).
Proof.
  intros Hk. rewrite String.eqb_eq. unfold ci_eq. split.
  - intros H. rewrite <- (lower_upper s), H. reflexivity.
  - intros H. rewrite <- (upper_lower s), H, upper_lower. exact Hk.
Qed.

(** On ASCII text, having the same upper-case form as an upper-case
    constant is being equal to it up to letter case. *)
Lemma same_upper_ascii (py : Python) (fmt k : string) :
  ascii_only fmt = true -> ascii_only k = true -> upper k = k ->
  (same_upper py fmt k <-> ci_eq fmt k).
Proof.
  intros Hf Hk Hup. unfold same_upper.
  rewrite (upper_ascii py fmt Hf), (upper_ascii py k Hk), Hup.
  rewrite <- (upper_eqb_ci fmt k Hup). symmetry. apply String.eqb_eq.
Qed.

(** The format test of line 38 against one of its two constants. *)
Lemma format_test (py : Python) (fmt k : string) :
  ascii_only k = true -> upper k = k ->
  (String.eqb (str_upper py fmt) k = true <-> same_upper py fmt k).
Proof.
  intros Hk Hup. unfold same_upper.
  rewrite (upper_ascii py k Hk), Hup. apply String.eqb_eq.
Qed.

Lemma str_upper_empty (py : Python) : str_upper py "" = "".
Proof. apply (upper_ascii py ""). reflexivity. Qed.

(** The URL test of line 38. *)
Lemma url_test (py : Python) (url : string) :
  endswith (str_lower py url) ".zip" = true <->
  exists pre tail, url = pre +:+ tail /\ ci_eq tail ".zip".
Proof.
  rewrite (lower_endswith py url ".zip") by (right; reflexivity).
  apply endswith_lower_spec.
Qed.

Lemma nonempty_spec (s : string) : nonempty s = true <-> s <> "".
Proof. destruct s; simpl; split; congruence. Qed.

(** The test of line 38, spelled out. *)
Lemma format_or_url_ok_spec (py : Python) (res : Resource) :
  format_or_url_ok py (str_upper py (default "" (res_format res)))
    (default "" (res_url res)) = true <->
  (exists fmt, res_format res = Some fmt /\
               (same_upper py fmt "SHP" \/ same_upper py fmt "ZIP"))
  \/ exists pre tail, default "" (res_url res) = pre +:+ tail /\ ci_eq tail ".zip".
Proof.
  unfold format_or_url_ok. rewrite !orb_true_iff, url_test.
  rewrite !format_test by reflexivity.
  split.
  - intros [[H | H] | H]; [left | left | right; exact H].
    + destruct (res_format res) as [fmt|]; [exists fmt; split; [reflexivity | left; exact H]|].
      unfold same_upper in H. simpl in H. rewrite str_upper_empty in H.
      rewrite (upper_ascii py "SHP") in H by reflexivity. discriminate H.
    + destruct (res_format res) as [fmt|]; [exists fmt; split; [reflexivity | right; exact H]|].
      unfold same_upper in H. simpl in H. rewrite str_upper_empty in H.
      rewrite (upper_ascii py "ZIP") in H by reflexivity. discriminate H.
  - intros [[fmt [-> [H | H]]] | H]; [left; left; exact H | left; right; exact H | right; exact H].
Qed.

(** What one resource adds to the mapping, if anything. *)
Lemma add_resource_cases (py : Python) (m : gmap string string) (res : Resource) :
  (eligible py res /\
   exists name url, res_name res = Some name /\ res_url res = Some url /\
                    add_resource py m res = <[name := url]> m)
  \/ (~ eligible py res /\ add_resource py m res = m).
Proof.
  unfold add_resource.
  destruct (format_or_url_ok _ _ _) eqn:Hok.
  - apply format_or_url_ok_spec in Hok.
    destruct (res_name res) as [name|] eqn:Hn.
    + destruct (nonempty name && nonempty (default "" (res_url res))) eqn:Hne.
      * apply andb_true_iff in Hne as [H1 H2].
        destruct (res_url res) as [url|] eqn:Hu; [|discriminate H2].
        simpl in *. left.
        assert (He : eligible py res).
        { exists name, url. rewrite Hn, Hu.
          split; [reflexivity|]. split; [reflexivity|].
          split; [apply nonempty_spec, H1|]. split; [apply nonempty_spec, H2|].
          exact Hok. }
        split; [exact He|]. exists name, url. repeat split.
      * right. split; [|reflexivity].
        intros [n [u [Hn' [Hu [H1 [H2 _]]]]]]. rewrite Hn in Hn'.
        injection Hn' as ->. rewrite Hu in Hne. simpl in Hne.
        apply nonempty_spec in H1, H2. rewrite H1, H2 in Hne. discriminate.
    + right. split; [|reflexivity]. intros [n [u [Hn' _]]]. rewrite Hn in Hn'. discriminate.
  - right. split; [|reflexivity].
    intros [n [u [Hn [Hu [_ [_ Hc]]]]]].
    assert (H : format_or_url_ok py (str_upper py (default "" (res_format res)))
                  (default "" (res_url res)) = true); [|congruence].
    apply format_or_url_ok_spec. rewrite Hu. exact Hc.
Qed.

Lemma collect_resources_snoc (py : Python) (rs : list Resource) (res : Resource) :
  collect_resources py (rs ++ [res]) = add_resource py (collect_resources py rs) res.
Proof. unfold collect_resources. rewrite fold_left_app. reflexivity. Qed.

(** Every key of the mapping is the name of some listed entry. *)
Lemma collect_resources_keys (py : Python) (rs : list Resource) (name : string) :
  is_Some (collect_resources py rs !! name) -> name ∈ omap res_name rs.
Proof.
  induction rs as [|res rs IH] using rev_ind.
  - intros [u Hu]. unfold collect_resources in Hu. simpl in Hu.
    rewrite lookup_empty in Hu. discriminate.
  - rewrite collect_resources_snoc, omap_app. intros Hs.
    apply elem_of_app.
    destruct (add_resource_cases py (collect_resources py rs) res)
      as [[_ [n [u [Hn [_ Heq]]]]] | [_ Heq]]; rewrite Heq in Hs.
    + destruct (decide (n = name)) as [-> | Hne].
      * right. simpl. rewrite Hn. simpl. apply list_elem_of_here.
      * rewrite lookup_insert_ne in Hs by exact Hne. left. apply IH, Hs.
    + left. apply IH, Hs.
Qed.

(** With pairwise distinct names, the mapping holds at an entry's name the
    entry's own URL when the entry is eligible, and nothing otherwise. *)
Lemma collect_resources_lookup (py : Python) (rs : list Resource) (res : Resource)
    (name : string) :
  NoDup (omap res_name rs) -> res ∈ rs -> res_name res = Some name ->
  (eligible py res /\ collect_resources py rs !! name = res_url res)
  \/ (~ eligible py res /\ collect_resources py rs !! name = None).
Proof.
  induction rs as [|r rs IH] using rev_ind; intros Hnd Hin Hname.
  - inversion Hin.
  - rewrite omap_app in Hnd. apply NoDup_app in Hnd as [Hnd1 [Hdisj _]].
    rewrite collect_resources_snoc.
    apply elem_of_app in Hin as [Hin | Hin].
    + assert (Hr : res_name r <> Some name).
      { intros Hr. apply (Hdisj name).
        - apply list_elem_of_omap. exists res. split; assumption.
        - simpl. rewrite Hr. simpl. apply list_elem_of_here. }
      destruct (add_resource_cases py (collect_resources py rs) r)
        as [[_ [n [u [Hn [_ Heq]]]]] | [_ Heq]]; rewrite Heq.
      * rewrite lookup_insert_ne by congruence. apply IH; assumption.
      * apply IH; assumption.
    + apply list_elem_of_singleton in Hin. subst r.
      assert (Hfresh : collect_resources py rs !! name = None).
      { apply eq_None_not_Some. intros Hs. apply collect_resources_keys in Hs.
        apply (Hdisj name Hs). simpl. rewrite Hname. simpl. apply list_elem_of_here. }
      destruct (add_resource_cases py (collect_resources py rs) res)
        as [[He [n [u [Hn [Hu Heq]]]]] | [He Heq]]; rewrite Heq.
      * left. split; [exact He|]. rewrite Hname in Hn. injection Hn as <-.
        rewrite lookup_insert_eq, Hu. reflexivity.
      * right. split; [exact He | exact Hfresh].
Qed.

(** C7, as stated, fails when a name occurs twice.  In the catalogue below
    the second entry is eligible, but its name is mapped to the URL of the
    third entry, which replaced it; and the first entry is not eligible,
    although its name is a key of the mapping.  It fails, too, on a format
    that only upper-casing makes SHP or ZIP: "zip" written with a dotless
    "i" is not ZIP up to letter case, yet [str.upper] turns it into "ZIP"
    and the entry is kept. *)
Lemma catalog_filter_not_as_claimed :
  (let e0 := {| res_name := Some "1. Riga"; res_format := Some "PDF";
                res_url := Some "https://x/riga.pdf" |} in
   let e1 := {| res_name := Some "1. Riga"; res_format := Some "SHP";
                res_url := Some "https://x/riga_old.zip" |} in
   let e2 := {| res_name := Some "1. Riga"; res_format := Some "zip";
                res_url := Some "https://x/riga.zip" |} in
   let m := catalog_of ascii_python [e0; e1; e2] in
   (eligible ascii_python e1 /\ ~ appears m e1) /\
   (~ eligible ascii_python e0 /\ name_listed m e0)) /\
  (let e := {| res_name := Some "1. Riga"; res_format := Some dotless_zip;
               res_url := Some "https://x/riga.bin" |} in
   ~ ci_eq dotless_zip "SHP" /\ ~ ci_eq dotless_zip "ZIP" /\
   endswith (lower "https://x/riga.bin") ".zip" = false /\
   str_upper dotless_python dotless_zip = "ZIP" /\
   appears (catalog_of dotless_python [e]) e).
Proof.
  split.
  - intros e0 e1 e2 m. split; split.
    + exists "1. Riga", "https://x/riga_old.zip". repeat split; try discriminate.
      left. exists "SHP". split; [reflexivity | left; reflexivity].
    + intros [n [u [Hn [Hu Hm]]]]. injection Hn as <-. injection Hu as <-.
      vm_compute in Hm. discriminate.
    + intros [n [u [_ [Hu [_ [_ Hc]]]]]]. injection Hu as <-.
      destruct Hc as [[fmt [Hf [Hc | Hc]]] | [pre [tail [Hp Ht]]]].
      * injection Hf as <-. discriminate Hc.
      * injection Hf as <-. discriminate Hc.
      * assert (H : endswith (lower "https://x/riga.pdf") ".zip" = true).
        { apply endswith_lower_spec. exists pre, tail. split; assumption. }
        discriminate H.
    + exists "1. Riga". split; [reflexivity|]. vm_compute. eexists. reflexivity.
  - intros e. split; [discriminate|]. split; [discriminate|].
    split; [reflexivity|]. split; [reflexivity|].
    exists "1. Riga", "https://x/riga.bin". repeat split.
Qed.

(** C7 (amended).  When the names of the listed entries are pairwise
    distinct, a listed entry appears in the returned mapping (its name is
    mapped to its URL; equivalently here, its name is a key) if and only
    if it has a non-empty name and a non-empty URL and its declared format
    has the upper-case form SHP or ZIP, or its URL ends in ".zip", letter
    case aside.  For a format written in ASCII, having the upper-case form
    SHP or ZIP is being SHP or ZIP up to letter case. *)
Theorem catalog_filter (py : Python) (rs : list Resource) (res : Resource) :
  NoDup (omap res_name rs) -> res ∈ rs ->
  (appears (catalog_of py rs) res <-> eligible py res) /\
  (name_listed (catalog_of py rs) res <-> eligible py res) /\
  (forall fmt k, ascii_only fmt = true -> k = "SHP" \/ k = "ZIP" ->
                 (same_upper py fmt k <-> ci_eq fmt k)).
Proof.
  intros Hnd Hin.
  assert (Hascii : forall fmt k, ascii_only fmt = true -> k = "SHP" \/ k = "ZIP" ->
                                 (same_upper py fmt k <-> ci_eq fmt k)).
  { intros fmt k Hf [-> | ->]; apply same_upper_ascii; try reflexivity; exact Hf. }
  change (catalog_of py rs) with (collect_resources py rs).
  destruct (res_name res) as [name|] eqn:Hname.
  - destruct (collect_resources_lookup py rs res name Hnd Hin Hname)
      as [[He Hl] | [He Hl]].
    + destruct He as [n [u [Hn [Hu Hrest]]]].
      assert (He : eligible py res) by (exists n, u; tauto).
      split; [|split; [|exact Hascii]]; (split; [intros _; exact He | intros _]).
      * exists name, u. rewrite Hl. tauto.
      * exists name. rewrite Hl, Hu. split; [assumption | eexists; reflexivity].
    + split; [|split; [|exact Hascii]]; (split; [|tauto]).
      * intros [n [u [Hn [_ Hm]]]]. rewrite Hname in Hn. injection Hn as <-.
        congruence.
      * intros [n [Hn [u Hm]]]. rewrite Hname in Hn. injection Hn as <-.
        congruence.
  - split; [|split; [|exact Hascii]]; split.
    + intros [n [u [Hn _]]]. congruence.
    + intros [n [u [Hn _]]]. congruence.
    + intros [n [Hn _]]. congruence.
    + intros [n [u [Hn _]]]. congruence.
Qed.

Lemma catalog_filter_witness :
  let riga := {| res_name := Some "1. Riga"; res_format := Some "shp";
                 res_url := Some "https://x/riga.zip" |} in
  let notes := {| res_name := Some "Notes"; res_format := Some "PDF";
                  res_url := Some "https://x/notes.pdf" |} in
  (appears (catalog_of ascii_python [riga; notes]) riga <-> eligible ascii_python riga) /\
  (name_listed (catalog_of ascii_python [riga; notes]) riga <-> eligible ascii_python riga) /\
  (forall fmt k, ascii_only fmt = true -> k = "SHP" \/ k = "ZIP" ->
                 (same_upper ascii_python fmt k <-> ci_eq fmt k)).
Proof.
  intros riga notes. apply (catalog_filter ascii_python [riga; notes] riga).
  - apply (bool_decide_unpack _). vm_compute. exact I.
  - apply list_elem_of_here.
Defined.

(** ** The merge *)

Lemma find_first_sf_none (fs : gmap string FileObj) (file_paths : list string) :
  find_first_sf fs file_paths = None <-> forall p, p ∈ file_paths -> ~ usable fs p.
Proof.
  induction file_paths as [|path rest IH]; simpl.
  - split; [intros _ p Hp; inversion Hp | reflexivity].
  - destruct (Reader fs path) as [sf|] eqn:Hr.
    + destruct (1 <? length (sf_fields sf)) eqn:Hlen.
      * split; [discriminate|]. intros H. exfalso. apply (H path).
        -- apply list_elem_of_here.
        -- exists sf. split; [exact Hr | apply Nat.ltb_lt, Hlen].
      * rewrite IH. split.
        -- intros H p Hp. apply elem_of_cons in Hp as [-> | Hp]; [|apply H, Hp].
           intros [sf' [Hr' Hl']]. rewrite Hr in Hr'. injection Hr' as <-.
           apply Nat.ltb_lt in Hl'. congruence.
        -- intros H p Hp. apply H. apply list_elem_of_further, Hp.
    + rewrite IH. split.
      * intros H p Hp. apply elem_of_cons in Hp as [-> | Hp]; [|apply H, Hp].
        intros [sf' [Hr' _]]. congruence.
      * intros H p Hp. apply H. apply list_elem_of_further, Hp.
Qed.

(** The scan of lines 65-73 returns the canonical source. *)
Lemma find_first_sf_spec (fs : gmap string FileObj) (file_paths : list string)
    (canon : Shapefile) :
  find_first_sf fs file_paths = Some canon <-> canonical fs file_paths canon.
Proof.
  induction file_paths as [|path rest IH]; simpl.
  - split; [discriminate|]. intros [before [p [after [H _]]]].
    destruct before; discriminate.
  - assert (Hskip : ~ usable fs path ->
                    canonical fs (path :: rest) canon <-> canonical fs rest canon).
    { intros Hnot. split.
      - intros [before [p [after [Heq [Hr [Hl Hb]]]]]].
        destruct before as [|q before]; simpl in Heq; injection Heq as <- Heq.
        + exfalso. apply Hnot. exists canon. split; assumption.
        + exists before, p, after. repeat split; try assumption.
          intros q' Hq'. apply Hb. apply list_elem_of_further, Hq'.
      - intros [before [p [after [Heq [Hr [Hl Hb]]]]]].
        exists (path :: before), p, after. rewrite Heq.
        repeat split; try assumption.
        intros q Hq. apply elem_of_cons in Hq as [-> | Hq]; [exact Hnot | apply Hb, Hq]. }
    destruct (Reader fs path) as [sf|] eqn:Hr.
    + destruct (1 <? length (sf_fields sf)) eqn:Hlen.
      * apply Nat.ltb_lt in Hlen. split.
        -- intros [= <-]. exists [], path, rest. repeat split; try assumption.
           intros q Hq. inversion Hq.
        -- intros [before [p [after [Heq [Hr' [Hl Hb]]]]]].
           destruct before as [|q before]; simpl in Heq; injection Heq as <- Heq.
           ++ congruence.
           ++ exfalso. apply (Hb path); [apply list_elem_of_here|].
              exists sf. split; assumption.
      * rewrite IH. symmetry. apply Hskip.
        intros [sf' [Hr' Hl']]. rewrite Hr in Hr'. injection Hr' as <-.
        apply Nat.ltb_nlt in Hlen. contradiction.
    + rewrite IH. symmetry. apply Hskip. intros [sf' [Hr' _]]. congruence.
Qed.

Lemma canonical_unique (fs : gmap string FileObj) (file_paths : list string)
    (c1 c2 : Shapefile) :
  canonical fs file_paths c1 -> canonical fs file_paths c2 -> c1 = c2.
Proof. rewrite <- !find_first_sf_spec. congruence. Qed.

Lemma canonical_nonempty (fs : gmap string FileObj) (file_paths : list string)
    (canon : Shapefile) :
  canonical fs file_paths canon -> file_paths <> [].
Proof. intros [before [p [after [-> _]]]]. destruct before; discriminate. Qed.

Lemma Writer_extend_nil (w : Writer) : Writer_extend w [] [] = w.
Proof. unfold Writer_extend. rewrite !app_nil_r. destruct w; reflexivity. Qed.

Lemma Writer_extend_extend (w : Writer) (r1 r2 : list (list string))
    (s1 s2 : list (list (Z * Z))) :
  Writer_extend (Writer_extend w r1 s1) r2 s2 = Writer_extend w (r1 ++ r2) (s1 ++ s2).
Proof. unfold Writer_extend. simpl. rewrite !app_assoc. reflexivity. Qed.

Lemma Writer_add_all (recs : list ShapeRecord) (w : Writer) :
  fold_left Writer_add recs w = Writer_extend w (map sr_record recs) (map sr_shape recs).
Proof.
  revert w. induction recs as [|r recs IH]; intros w; simpl.
  - symmetry. apply Writer_extend_nil.
  - rewrite IH. unfold Writer_extend. simpl. rewrite <- !app_assoc. reflexivity.
Qed.

(** The descriptors copied at lines 80-83: the writer's other parts are
    left as they were; when no call of [w.field] raises, the descriptors
    added are those of the source without the deletion marker. *)
Lemma copy_fields_spec (lib : Library) (fields : list FieldDesc) (w w' : Writer)
    (err : option string) :
  copy_fields lib fields w = (w', err) ->
  w_target w' = w_target w /\ w_records w' = w_records w /\
  w_shapes w' = w_shapes w /\ w_closed w' = w_closed w /\
  (err = None ->
   w_fields w' = w_fields w ++ filter (fun f => fd_name f <> "DeletionFlag") fields) /\
  ((forall w f, field_error lib w f = None) -> err = None).
Proof.
  revert w. induction fields as [|f l IH]; intros w; simpl.
  - intros [= <- <-]. rewrite filter_nil, app_nil_r. repeat split.
  - destruct (String.eqb_spec (fd_name f) "DeletionFlag") as [He | He].
    + intros H. rewrite filter_cons_False by (intros Hn; apply Hn, He). apply IH, H.
    + destruct (field_error lib w f) as [e|] eqn:Hf.
      * intros [= <- <-]. repeat split; try discriminate.
        intros Hacc. rewrite Hacc in Hf. discriminate.
      * intros H. destruct (IH _ H) as [Ht [Hr [Hs [Hc [Hfl Hacc]]]]].
        rewrite filter_cons_True by exact He. simpl in *.
        repeat split; try assumption.
        intros Hn. rewrite (Hfl Hn), <- app_assoc. reflexivity.
Qed.

(** The loop of lines 92-94 hands the writer a beginning of the records
    it is given: [j] of them reach [w.record] and [i] of them [w.shape],
    where [i] is [j] or one less; all of them when no call raises. *)
Lemma write_records_spec (lib : Library) (recs : list ShapeRecord) (w w' : Writer)
    (err : option string) :
  write_records lib w recs = (w', err) ->
  exists j i,
    w' = Writer_extend w (map sr_record (take j recs)) (map sr_shape (take i recs)) /\
    i <= j /\ j <= length recs /\ j <= S i /\
    (err = None -> j = length recs /\ i = length recs) /\
    (accepting lib -> err = None).
Proof.
  revert w. induction recs as [|r rest IH]; intros w; simpl.
  - intros [= <- <-]. exists 0, 0. rewrite Writer_extend_nil. repeat split; lia.
  - destruct (record_error lib w (sr_record r)) as [e|] eqn:Hrec.
    + intros [= <- <-]. exists 0, 0. simpl. rewrite Writer_extend_nil.
      repeat split; try lia; try discriminate.
      intros [_ [Hacc _]]. rewrite Hacc in Hrec. discriminate.
    + destruct (shape_error lib (Writer_record w (sr_record r)) (sr_shape r))
        as [e|] eqn:Hsh.
      * intros [= <- <-]. exists 1, 0. simpl.
        split; [unfold Writer_extend, Writer_record; simpl; rewrite app_nil_r; reflexivity|].
        repeat split; try lia; try discriminate.
        intros [_ [_ Hacc]]. rewrite Hacc in Hsh. discriminate.
      * intros H. destruct (IH _ H) as [j [i [Hw [Hij [Hj [Hji [Hnone Hacc]]]]]]].
        exists (S j), (S i). simpl. split.
        { rewrite Hw. unfold Writer_extend, Writer_shape, Writer_record. simpl.
          rewrite <- !app_assoc. reflexivity. }
        repeat split; try lia; try (destruct (Hnone H0); lia). exact Hacc.
Qed.

(** One path of the loop of lines 86-95 hands the writer a beginning of
    the path's contribution. *)
Lemma merge_one_spec (lib : Library) (fs : gmap string FileObj) (canon : Shapefile)
    (w w' : Writer) (out out' : list string) (path : string) :
  merge_one lib fs canon (w, out) path = (w', out') ->
  exists j i,
    w' = Writer_extend w (map sr_record (take j (contribution fs canon path)))
                         (map sr_shape (take i (contribution fs canon path))) /\
    i <= j /\ j <= length (contribution fs canon path) /\ j <= S i /\
    (accepting lib ->
     j = length (contribution fs canon path) /\ i = length (contribution fs canon path)).
Proof.
  unfold merge_one, contribution.
  destruct (Reader fs path) as [sf|].
  - destruct (length (sf_fields sf) =? length (sf_fields canon)); simpl.
    + destruct (iterShapeRecords sf) as [recs read_err]. simpl.
      destruct (write_records lib w recs) as [w1 write_err] eqn:Hw.
      destruct (write_records_spec lib recs w w1 write_err Hw)
        as [j [i [Hw1 [Hij [Hj [Hji [Hnone Hacc]]]]]]].
      intros H. assert (Hw' : w' = w1).
      { destruct write_err, read_err; injection H as <- _; reflexivity. }
      subst w'. exists j, i.
      split; [exact Hw1|]. split; [exact Hij|]. split; [exact Hj|].
      split; [exact Hji|]. intros Ha. apply Hnone, Hacc, Ha.
    + intros [= <- <-]. exists 0, 0. rewrite Writer_extend_nil. repeat split; lia.
  - intros [= <- <-]. exists 0, 0. rewrite Writer_extend_nil. repeat split; lia.
Qed.

(** The loop of lines 86-95 appends, path by path, a beginning of each
    path's contribution; the whole of it when the writer refuses nothing. *)
Lemma merge_loop_spec (lib : Library) (fs : gmap string FileObj) (canon : Shapefile)
    (file_paths : list string) (w w' : Writer) (out out' : list string) :
  fold_left (merge_one lib fs canon) file_paths (w, out) = (w', out') ->
  exists rs ss,
    w' = Writer_extend w rs ss /\
    length rs <= length (flat_map (contribution fs canon) file_paths) /\
    length ss <= length rs /\
    (accepting lib ->
     rs = map sr_record (flat_map (contribution fs canon) file_paths) /\
     ss = map sr_shape (flat_map (contribution fs canon) file_paths)).
Proof.
  revert w out. induction file_paths as [|path rest IH]; intros w out.
  - simpl. intros [= <- <-]. exists [], []. rewrite Writer_extend_nil.
    repeat split; simpl; lia.
  - cbn [fold_left flat_map].
    destruct (merge_one lib fs canon (w, out) path) as [w1 out1] eqn:Hone.
    destruct (merge_one_spec lib fs canon w w1 out out1 path Hone)
      as [j [i [Hw1 [Hij [Hj [Hji Hacc]]]]]].
    intros H. destruct (IH _ _ H) as [rs [ss [Hw' [Hrs [Hss Hall]]]]].
    exists (map sr_record (take j (contribution fs canon path)) ++ rs),
           (map sr_shape (take i (contribution fs canon path)) ++ ss).
    split; [rewrite Hw', Hw1; apply Writer_extend_extend|].
    rewrite !length_app, !length_map, !length_take.
    split; [lia|]. split; [lia|].
    intros Ha. destruct (Hacc Ha) as [-> ->]. destruct (Hall Ha) as [-> ->].
    rewrite !firstn_all, !map_app. split; reflexivity.
Qed.

(** A path that opens with another number of field descriptors is passed
    over. *)
Lemma merge_one_incompatible (lib : Library) (fs : gmap string FileObj)
    (canon sf : Shapefile) (path : string) (acc : Writer * list string) :
  Reader fs path = Some sf ->
  length (sf_fields sf) <> length (sf_fields canon) ->
  merge_one lib fs canon acc path = acc.
Proof.
  intros Hr Hlen. destruct acc as [w out]. unfold merge_one. rewrite Hr.
  apply Nat.eqb_neq in Hlen. rewrite Hlen. reflexivity.
Qed.

(** What a merge that returns success did, in full. *)
Lemma merge_shapefiles_returns_true (lib : Library) (fs : gmap string FileObj)
    (file_paths : list string) (output_path : string) (eff : Effects) :
  merge_shapefiles lib fs file_paths output_path = (Returns true, eff) ->
  exists path0 rest canon w0 w1,
    file_paths = path0 :: rest /\
    canonical fs file_paths canon /\ sf_records canon <> [] /\
    writer_error lib output_path = None /\
    copy_fields lib (sf_fields canon) (Writer_new output_path) = (w0, None) /\
    fold_left (merge_one lib fs canon) file_paths (w0, []) = (w1, eff_stdout eff) /\
    close_error lib w1 = None /\
    eff_writer eff = Some (Writer_close w1) /\
    eff_copy eff
    = (if path_exists fs (replace path0 ".shp" ".prj")
       then Some (replace path0 ".shp" ".prj", replace output_path ".shp" ".prj")
       else None).
Proof.
  unfold merge_shapefiles. destruct file_paths as [|path0 rest]; [discriminate|].
  destruct (writer_error lib output_path) as [e|] eqn:Hwe; [discriminate|].
  destruct (find_first_sf fs (path0 :: rest)) as [canon|] eqn:Hfind; [|discriminate].
  destruct (length (sf_records canon) =? 0) eqn:Hzero; [discriminate|].
  destruct (copy_fields lib (sf_fields canon) (Writer_new output_path))
    as [w0 [e|]] eqn:Hcopy; [discriminate|].
  destruct (fold_left (merge_one lib fs canon) (path0 :: rest) (w0, []))
    as [w1 out] eqn:Hloop.
  unfold finish. destruct (close_error lib w1) as [e|] eqn:Hclose; [discriminate|].
  intros H. exists path0, rest, canon, w0, w1.
  split; [reflexivity|]. split; [apply find_first_sf_spec, Hfind|].
  split. { intros Hn. rewrite Hn in Hzero. discriminate. }
  split; [reflexivity|]. split; [exact Hcopy|].
  destruct (path_exists fs (replace path0 ".shp" ".prj")).
  - destruct (copy_error lib _ _); [discriminate|].
    injection H as <-. simpl. repeat split; assumption.
  - injection H as <-. simpl. repeat split; assumption.
Qed.

(** The merge up to the closing of the writer, for a list whose canonical
    source has records. *)
Lemma merge_shapefiles_run (lib : Library) (fs : gmap string FileObj)
    (path0 : string) (rest : list string) (output_path : string) (canon : Shapefile) :
  writer_error lib output_path = None ->
  canonical fs (path0 :: rest) canon -> sf_records canon <> [] ->
  merge_shapefiles lib fs (path0 :: rest) output_path
  = match copy_fields lib (sf_fields canon) (Writer_new output_path) with
    | (w, Some e) =>
        (Raises e, {| eff_writer := Some w; eff_copy := None; eff_stdout := [] |})
    | (w, None) =>
        finish lib fs path0 output_path
          (fold_left (merge_one lib fs canon) (path0 :: rest) (w, []))
    end.
Proof.
  intros Hwe Hc Hrec. apply find_first_sf_spec in Hc. unfold merge_shapefiles.
  rewrite Hwe, Hc. destruct (sf_records canon); [contradiction | reflexivity].
Qed.

(** The writer a successful merge leaves: closed, on the output path, with
    the canonical descriptors, and holding a beginning of each path's
    contribution. *)
Lemma merge_shapefiles_writer (lib : Library) (fs : gmap string FileObj)
    (file_paths : list string) (output_path : string) (eff : Effects) :
  merge_shapefiles lib fs file_paths output_path = (Returns true, eff) ->
  exists canon w,
    canonical fs file_paths canon /\ sf_records canon <> [] /\
    eff_writer eff = Some w /\
    w_target w = output_path /\ w_closed w = true /\
    w_fields w = filter (fun f => fd_name f <> "DeletionFlag") (sf_fields canon) /\
    length (w_records w) <= length (flat_map (contribution fs canon) file_paths) /\
    length (w_shapes w) <= length (w_records w) /\
    (accepting lib ->
     w_records w = map sr_record (flat_map (contribution fs canon) file_paths) /\
     w_shapes w = map sr_shape (flat_map (contribution fs canon) file_paths)).
Proof.
  intros Hm.
  destruct (merge_shapefiles_returns_true lib fs file_paths output_path eff Hm)
    as [path0 [rest [canon [w0 [w1 [-> [Hc [Hrec [_ [Hcopy [Hloop [_ [Hw _]]]]]]]]]]]]].
  destruct (copy_fields_spec lib _ _ _ _ Hcopy) as [Ht [Hr [Hs [Hcl [Hf _]]]]].
  destruct (merge_loop_spec lib fs canon _ _ _ _ _ Hloop) as [rs [ss [Hw1 [Hrs [Hss Hall]]]]].
  exists canon, (Writer_close w1). subst w1. simpl in *.
  rewrite Ht, Hr, Hs, (Hf eq_refl). simpl.
  repeat split; try assumption.
  - apply (proj1 (Hall H)).
  - apply (proj2 (Hall H)).
Qed.

(** The merge returns failure on an empty list and, once the writer is
    constructed, on a list without a usable path and on a list whose first
    usable path holds no records. *)
Lemma merge_shapefiles_false_iff (lib : Library) (fs : gmap string FileObj)
    (file_paths : list string) (output_path : string) :
  (merge_shapefiles lib fs file_paths output_path).1 = Returns false <->
  file_paths = [] \/
  (writer_error lib output_path = None /\
   ((forall p, p ∈ file_paths -> ~ usable fs p) \/
    exists canon, canonical fs file_paths canon /\ sf_records canon = [])).
Proof.
  unfold merge_shapefiles. destruct file_paths as [|path0 rest].
  { simpl. split; [left; reflexivity | reflexivity]. }
  destruct (writer_error lib output_path) as [e|] eqn:Hwe.
  { simpl. split; [discriminate|]. intros [H | [H _]]; discriminate. }
  destruct (find_first_sf fs (path0 :: rest)) as [canon|] eqn:Hfind.
  - pose proof Hfind as Hc. apply find_first_sf_spec in Hc.
    destruct (sf_records canon) as [|r recs] eqn:Hrec; simpl.
    + split; [|reflexivity]. intros _. right. split; [reflexivity|].
      right. exists canon. split; assumption.
    + assert (Hno : ~ (path0 :: rest = [] \/
                       @None string = None /\
                       ((forall p, p ∈ path0 :: rest -> ~ usable fs p) \/
                        exists canon0, canonical fs (path0 :: rest) canon0 /\
                                       sf_records canon0 = []))).
      { intros [H | [_ [H | [c [Hc' Hr']]]]]; [discriminate | |].
        - apply find_first_sf_none in H. congruence.
        - rewrite (canonical_unique _ _ _ _ Hc' Hc) in Hr'. congruence. }
      split; [|intros H; contradiction].
      destruct (copy_fields lib (sf_fields canon) (Writer_new output_path)) as [w [e|]];
        [discriminate|].
      destruct (fold_left _ _ _) as [w1 out]. unfold finish.
      destruct (close_error lib w1); [discriminate|].
      destruct (path_exists fs _); [|discriminate].
      destruct (copy_error lib _ _); discriminate.
  - simpl. split; [|reflexivity]. intros _. right. split; [reflexivity|].
    left. apply find_first_sf_none, Hfind.
Qed.

(** C2.  With nothing stored at the only input path the merge returns
    failure, as claimed, but it has by then constructed the writer on the
    output path (line 62 precedes the scan), which opens the output's
    geometry, index and attribute files; with an empty list it returns
    before constructing it. *)
Theorem merge_failure_leaves_writer :
  merge_shapefiles quiet ∅ ["/tmp/w/KKParcel.shp"] "/tmp/w/Parcels_merged.shp"
  = (Returns false,
     {| eff_writer := Some (Writer_new "/tmp/w/Parcels_merged.shp");
        eff_copy := None;
        eff_stdout := ["No valid shapefiles found for /tmp/w/Parcels_merged.shp"] |})
  /\ merge_shapefiles quiet ∅ [] "/tmp/w/Parcels_merged.shp"
     = (Returns false, {| eff_writer := None; eff_copy := None; eff_stdout := [] |}).
Proof. split; reflexivity. Qed.

(** The same holds whatever the library does after the writer is
    constructed, and for every list without a usable path. *)
Lemma merge_shapefiles_failure_effects (lib : Library) (fs : gmap string FileObj)
    (file_paths : list string) (output_path : string) :
  (merge_shapefiles lib fs [] output_path
   = (Returns false, {| eff_writer := None; eff_copy := None; eff_stdout := [] |})) /\
  (file_paths <> [] -> writer_error lib output_path = None ->
   (forall p, p ∈ file_paths -> ~ usable fs p) ->
   merge_shapefiles lib fs file_paths output_path
   = (Returns false,
      {| eff_writer := Some (Writer_new output_path); eff_copy := None;
         eff_stdout := ["No valid shapefiles found for " +:+ output_path] |})).
Proof.
  split; [reflexivity|]. intros Hne Hwe Hnone.
  apply find_first_sf_none in Hnone. unfold merge_shapefiles.
  destruct file_paths; [contradiction|]. rewrite Hwe, Hnone. reflexivity.
Qed.

(** A first usable file without records is no better than none: the
    reader is false at line 75, and the merge fails although a later file
    has records. *)
Example merge_empty_canonical_sample :
  merge_shapefiles quiet sample_fs
    ["/tmp/w/empty/KKParcel.shp"; "/tmp/w/riga/KKParcel.shp"] "/tmp/w/Parcels_merged.shp"
  = (Returns false,
     {| eff_writer := Some (Writer_new "/tmp/w/Parcels_merged.shp");
        eff_copy := None;
        eff_stdout := ["No valid shapefiles found for /tmp/w/Parcels_merged.shp"] |}).
Proof. reflexivity. Qed.

(** C5.  When the merge succeeds, the descriptors given to the writer are
    those of the canonical source (the first path that opens with more than
    one field descriptor), in order, without the deletion marker. *)
Theorem merge_output_schema (lib : Library) (fs : gmap string FileObj)
    (file_paths : list string) (output_path : string) (eff : Effects) :
  merge_shapefiles lib fs file_paths output_path = (Returns true, eff) ->
  exists canon w,
    canonical fs file_paths canon /\
    eff_writer eff = Some w /\ w_target w = output_path /\ w_closed w = true /\
    w_fields w = filter (fun f => fd_name f <> "DeletionFlag") (sf_fields canon).
Proof.
  intros Hm.
  destruct (merge_shapefiles_writer lib fs file_paths output_path eff Hm)
    as [canon [w [Hc [_ [Hw [Ht [Hcl [Hf _]]]]]]]].
  exists canon, w. repeat split; assumption.
Qed.

Lemma merge_output_schema_witness :
  exists canon w,
    canonical sample_fs
      ["/tmp/w/missing/KKParcel.shp"; "/tmp/w/riga/KKParcel.shp"] canon /\
    eff_writer
      (merge_shapefiles quiet sample_fs
         ["/tmp/w/missing/KKParcel.shp"; "/tmp/w/riga/KKParcel.shp"]
         "/tmp/w/Parcels_merged.shp").2 = Some w /\
    w_target w = "/tmp/w/Parcels_merged.shp" /\ w_closed w = true /\
    w_fields w = filter (fun f => fd_name f <> "DeletionFlag") (sf_fields canon).
Proof.
  apply (merge_output_schema quiet sample_fs
           ["/tmp/w/missing/KKParcel.shp"; "/tmp/w/riga/KKParcel.shp"]
           "/tmp/w/Parcels_merged.shp").
  reflexivity.
Defined.

(** The schema of the sample merge, spelled out. *)
Example merge_output_schema_sample :
  (w_fields <$>
   eff_writer
     (merge_shapefiles quiet sample_fs
        ["/tmp/w/missing/KKParcel.shp"; "/tmp/w/riga/KKParcel.shp"]
        "/tmp/w/Parcels_merged.shp").2)
  = Some [code_field; area_field].
Proof. reflexivity. Qed.

Lemma flat_map_length_sum {A B : Type} (f : A -> list B) (l : list A) :
  length (flat_map f l) = sum_list (map (fun x => length (f x)) l).
Proof.
  induction l as [|x l IH]; [reflexivity|].
  simpl. rewrite length_app, IH. reflexivity.
Qed.

Lemma contribution_length (fs : gmap string FileObj) (canon : Shapefile)
    (path : string) :
  length (contribution fs canon path) = count_if_compatible records_read fs canon path.
Proof.
  unfold contribution, count_if_compatible, records_read.
  destruct (Reader fs path) as [sf|]; [|reflexivity].
  destruct (_ =? _); reflexivity.
Qed.

Lemma contribution_sum (fs : gmap string FileObj) (canon : Shapefile)
    (file_paths : list string) :
  length (flat_map (contribution fs canon) file_paths)
  = sum_list (map (count_if_compatible records_read fs canon) file_paths).
Proof.
  rewrite flat_map_length_sum. f_equal. apply map_ext. intros p.
  apply contribution_length.
Qed.

Lemma records_read_sound (sf : Shapefile) :
  sf_damage sf = None -> records_read sf = length (sf_records sf).
Proof. unfold records_read, iterShapeRecords. intros ->. reflexivity. Qed.

(** Taking out a path that opens with a number of field descriptors other
    than the canonical one leaves the canonical source in place. *)
Lemma canonical_remove (fs : gmap string FileObj) (before after : list string)
    (path : string) (sf canon : Shapefile) :
  Reader fs path = Some sf ->
  length (sf_fields sf) <> length (sf_fields canon) ->
  canonical fs (before ++ path :: after) canon ->
  canonical fs (before ++ after) canon.
Proof.
  intros Hr Hlen. rewrite <- !find_first_sf_spec.
  induction before as [|q before IH]; simpl.
  - rewrite Hr. destruct (1 <? length (sf_fields sf)); [|exact id].
    intros [= ->]. contradiction.
  - destruct (Reader fs q) as [sfq|]; [|exact IH].
    destruct (1 <? length (sf_fields sfq)); [exact id | exact IH].
Qed.

(** The loop passes over such a path. *)
Lemma merge_loop_remove (lib : Library) (fs : gmap string FileObj)
    (canon sf : Shapefile) (before after : list string) (path : string)
    (acc : Writer * list string) :
  Reader fs path = Some sf ->
  length (sf_fields sf) <> length (sf_fields canon) ->
  fold_left (merge_one lib fs canon) (before ++ path :: after) acc
  = fold_left (merge_one lib fs canon) (before ++ after) acc.
Proof.
  intros Hr Hlen. rewrite !fold_left_app. simpl.
  rewrite (merge_one_incompatible lib fs canon sf path _ Hr Hlen). reflexivity.
Qed.

(** The writer that lines 97-105 leave does not depend on the first path. *)
Lemma finish_writer (lib : Library) (fs : gmap string FileObj)
    (path0 output_path : string) (w : Writer) (out : list string) :
  eff_writer (finish lib fs path0 output_path (w, out)).2
  = Some (match close_error lib w with Some _ => w | None => Writer_close w end).
Proof.
  unfold finish. destruct (close_error lib w); [reflexivity|].
  destruct (path_exists fs _); [|reflexivity].
  destruct (copy_error lib _ _); reflexivity.
Qed.

Lemma output_count_success (lib : Library) (fs : gmap string FileObj)
    (file_paths : list string) (output_path : string) (eff : Effects) (w : Writer) :
  merge_shapefiles lib fs file_paths output_path = (Returns true, eff) ->
  eff_writer eff = Some w ->
  output_count lib fs file_paths output_path = Some (length (w_records w)).
Proof. intros Hm Hw. unfold output_count. rewrite Hm, Hw. reflexivity. Qed.

(** C1, as stated, fails in three ways.  A file that opens with the
    canonical number of field descriptors but cannot be read to its end
    adds only the records read before the failure: merging the damaged
    file alone gives one record, not its three.  A file with another
    number of field descriptors, put before the canonical source, becomes
    the canonical source itself: the two Riga records give way to its
    single record.  And a writer that refuses a geometry ends the file at
    that record: of the three records of a sound file, two are written. *)
Lemma merge_record_count_not_as_claimed :
  (canonical sample_fs ["/tmp/w/damaged/KKParcel.shp"] damaged_parcels /\
   output_count quiet sample_fs ["/tmp/w/damaged/KKParcel.shp"]
     "/tmp/w/Parcels_merged.shp" = Some 1 /\
   sum_list (map (count_if_compatible (fun sf => length (sf_records sf))
                    sample_fs damaged_parcels)
               ["/tmp/w/damaged/KKParcel.shp"]) = 3) /\
  (canonical sample_fs ["/tmp/w/riga/KKParcel.shp"] riga_parcels /\
   Reader sample_fs "/tmp/w/wider/KKParcel.shp" = Some wider_parcels /\
   length (sf_fields wider_parcels) <> length (sf_fields riga_parcels) /\
   output_count quiet sample_fs ["/tmp/w/riga/KKParcel.shp"]
     "/tmp/w/Parcels_merged.shp" = Some 2 /\
   output_count quiet sample_fs
     ["/tmp/w/wider/KKParcel.shp"; "/tmp/w/riga/KKParcel.shp"]
     "/tmp/w/Parcels_merged.shp" = Some 1) /\
  (canonical sample_fs ["/tmp/w/pointless/KKParcel.shp"] pointless_parcels /\
   sf_damage pointless_parcels = None /\
   output_count lenient sample_fs ["/tmp/w/pointless/KKParcel.shp"] "/tmp/w/out.shp"
   = Some 2 /\
   sum_list (map (count_if_compatible (fun sf => length (sf_records sf))
                    sample_fs pointless_parcels)
               ["/tmp/w/pointless/KKParcel.shp"]) = 3).
Proof.
  split; [split; [|split]|split; [split; [|split; [|split; [|split]]]|split; [|split; [|split]]]].
  - apply find_first_sf_spec. reflexivity.
  - reflexivity.
  - reflexivity.
  - apply find_first_sf_spec. reflexivity.
  - reflexivity.
  - discriminate.
  - reflexivity.
  - reflexivity.
  - apply find_first_sf_spec. reflexivity.
  - reflexivity.
  - reflexivity.
  - reflexivity.
Qed.

(** C1 (amended).  When the merge succeeds, the output's record count is
    at most the sum, over exactly the listed paths that open with the
    canonical number of field descriptors, of the number of records read
    from each before any read failure; it is that sum when the writer
    refuses no record and no geometry, and then, when every listed file is
    sound, it is the sum of their record counts.  Taking out of the list
    one file whose number of field descriptors differs from that of the
    list's canonical schema leaves the canonical source and what is
    written unchanged. *)
Theorem merge_record_count (lib : Library) (fs : gmap string FileObj)
    (file_paths : list string) (output_path : string) (eff : Effects) :
  merge_shapefiles lib fs file_paths output_path = (Returns true, eff) ->
  exists canon n,
    canonical fs file_paths canon /\
    output_count lib fs file_paths output_path = Some n /\
    n <= sum_list (map (count_if_compatible records_read fs canon) file_paths) /\
    (accepting lib ->
     n = sum_list (map (count_if_compatible records_read fs canon) file_paths)) /\
    (accepting lib ->
     (forall p sf, p ∈ file_paths -> Reader fs p = Some sf -> sf_damage sf = None) ->
     n = sum_list (map (count_if_compatible (fun sf => length (sf_records sf))
                          fs canon) file_paths)) /\
    (forall before path after sf,
       file_paths = before ++ path :: after ->
       Reader fs path = Some sf ->
       length (sf_fields sf) <> length (sf_fields canon) ->
       canonical fs (before ++ after) canon /\
       merged_writer lib fs (before ++ after) output_path
       = merged_writer lib fs file_paths output_path /\
       (before <> [] ->
        merge_shapefiles lib fs (before ++ after) output_path
        = merge_shapefiles lib fs file_paths output_path)).
Proof.
  intros Hm.
  destruct (merge_shapefiles_writer lib fs file_paths output_path eff Hm)
    as [canon [w [Hc [Hrec [Hw [_ [_ [_ [Hle [_ Hacc]]]]]]]]]].
  exists canon, (length (w_records w)).
  split; [exact Hc|]. split; [apply (output_count_success _ _ _ _ eff); assumption|].
  rewrite <- contribution_sum. split; [exact Hle|].
  assert (H2 : accepting lib ->
               length (w_records w) = length (flat_map (contribution fs canon) file_paths)).
  { intros Ha. rewrite (proj1 (Hacc Ha)), length_map. reflexivity. }
  split; [exact H2|]. split.
  - intros Ha Hsound. rewrite (H2 Ha), contribution_sum. f_equal. apply map_ext_in.
    intros p Hp. unfold count_if_compatible.
    destruct (Reader fs p) as [sf|] eqn:Hr; [|reflexivity].
    destruct (_ =? _); [|reflexivity].
    apply records_read_sound, (Hsound p); [apply list_elem_of_In, Hp | exact Hr].
  - intros before path after sf -> Hr Hlen.
    pose proof (canonical_remove fs before after path sf canon Hr Hlen Hc) as Hc'.
    split; [exact Hc'|].
    destruct (merge_shapefiles_returns_true lib fs _ output_path eff Hm)
      as [p0 [rest0 [canon0 [w0 [w1 [Heq [Hc0 [_ [Hwe _]]]]]]]]].
    assert (Hne : before ++ after <> []) by (apply (canonical_nonempty fs _ canon), Hc').
    destruct before as [|b before].
    + simpl in *. destruct after as [|a after]; [contradiction|].
      split; [|intros H; contradiction].
      unfold merged_writer.
      rewrite (merge_shapefiles_run lib fs a after output_path canon Hwe Hc' Hrec).
      rewrite (merge_shapefiles_run lib fs path (a :: after) output_path canon Hwe Hc Hrec).
      destruct (copy_fields lib (sf_fields canon) (Writer_new output_path)) as [wc [e|]];
        [reflexivity|].
      rewrite (merge_loop_remove lib fs canon sf [] (a :: after) path _ Hr Hlen).
      simpl. destruct (fold_left _ _ _) as [wl ol]. rewrite !finish_writer. reflexivity.
    + simpl in *.
      assert (Hsame : merge_shapefiles lib fs (b :: before ++ after) output_path
                      = merge_shapefiles lib fs (b :: before ++ path :: after) output_path).
      { rewrite (merge_shapefiles_run lib fs b _ output_path canon Hwe Hc' Hrec).
        rewrite (merge_shapefiles_run lib fs b _ output_path canon Hwe Hc Hrec).
        destruct (copy_fields lib (sf_fields canon) (Writer_new output_path)) as [wc [e|]];
          [reflexivity|].
        rewrite (merge_loop_remove lib fs canon sf (b :: before) after path _ Hr Hlen).
        reflexivity. }
      split; [unfold merged_writer; rewrite Hsame; reflexivity | intros _; exact Hsame].
Qed.

Lemma merge_record_count_witness :
  exists canon n,
    canonical sample_fs
      ["/tmp/w/riga/KKParcel.shp"; "/tmp/w/wider/KKParcel.shp";
       "/tmp/w/damaged/KKParcel.shp"] canon /\
    output_count quiet sample_fs
      ["/tmp/w/riga/KKParcel.shp"; "/tmp/w/wider/KKParcel.shp";
       "/tmp/w/damaged/KKParcel.shp"] "/tmp/w/Parcels_merged.shp" = Some n /\
    n <= sum_list (map (count_if_compatible records_read sample_fs canon)
                     ["/tmp/w/riga/KKParcel.shp"; "/tmp/w/wider/KKParcel.shp";
                      "/tmp/w/damaged/KKParcel.shp"]).
Proof.
  destruct (merge_record_count quiet sample_fs
              ["/tmp/w/riga/KKParcel.shp"; "/tmp/w/wider/KKParcel.shp";
               "/tmp/w/damaged/KKParcel.shp"] "/tmp/w/Parcels_merged.shp"
              (merge_shapefiles quiet sample_fs
                 ["/tmp/w/riga/KKParcel.shp"; "/tmp/w/wider/KKParcel.shp";
                  "/tmp/w/damaged/KKParcel.shp"] "/tmp/w/Parcels_merged.shp").2)
    as [canon [n [Hc [Hn [Hle _]]]]]; [reflexivity|].
  exists canon, n. split; [exact Hc|]. split; [exact Hn | exact Hle].
Defined.

(** A writer that takes a record and then refuses its geometry leaves the
    output with fewer records than were read, and one record more than
    geometries; the merge still returns success when [close] and the copy
    do, and raises when [close] checks the two counts. *)
Example merge_refused_geometry_sample :
  let r := merge_shapefiles lenient sample_fs ["/tmp/w/pointless/KKParcel.shp"]
             "/tmp/w/out.shp" in
  r.1 = Returns true /\
  (w_records <$> eff_writer r.2) = Some [["0300"; "100.00"]; ["0301"; "100.00"]] /\
  (length ∘ w_shapes <$> eff_writer r.2) = Some 1 /\
  eff_stdout r.2 = ["Error reading /tmp/w/pointless/KKParcel.shp: no points"] /\
  (merge_shapefiles strict sample_fs ["/tmp/w/pointless/KKParcel.shp"]
     "/tmp/w/out.shp").1
  = Raises "Number of records and shapes do not match".
Proof. repeat split. Qed.




(** The sample merge with the damaged file in the middle: the Riga records,
    the one record read from the damaged file, the Jelgava record; and the
    failure is printed, not raised. *)
Example merge_damaged_sample :
  let r := merge_shapefiles quiet sample_fs
             ["/tmp/w/riga/KKParcel.shp"; "/tmp/w/damaged/KKParcel.shp";
              "/tmp/w/jelgava/KKParcel.shp"] "/tmp/w/Parcels_merged.shp" in
  r.1 = Returns true /\
  (w_records <$> eff_writer r.2)
  = Some [["0100"; "100.00"]; ["0101"; "100.00"]; ["0500"; "100.00"];
          ["0900"; "100.00"]] /\
  eff_stdout r.2
  = ["Error reading /tmp/w/damaged/KKParcel.shp: unpack requires a buffer of 4 bytes"].
Proof. repeat split. Qed.

(** ** The projection sidecar *)

Lemma replace_shp_prj (base : string) :
  has_char "." base = false ->
  replace (base +:+ ".shp") ".shp" ".prj" = base +:+ ".prj".
Proof.
  unfold replace. induction base as [|c base IH]; intros H; [reflexivity|].
  simpl in H. apply orb_false_iff in H as [Hc Hb].
  assert (Hdot : Ascii.eqb "." c = false).
  { destruct (Ascii.eqb_spec "." c) as [<- | _]; [discriminate Hc | reflexivity]. }
  rewrite !str_app_cons. cbn [replace_from startswith].
  rewrite Hdot, (IH Hb). reflexivity.
Qed.

Lemma replace_absent (s old new : string) :
  contains s old = false -> replace s old new = s.
Proof.
  unfold replace. induction s as [|c s IH]; intros H; [reflexivity|].
  cbn [contains] in H. apply orb_false_iff in H as [Hstart Hrest].
  cbn [replace_from]. rewrite Hstart, (IH Hrest). reflexivity.
Qed.

(** Lines 99-103: what is copied by a merge that returns success. *)
Lemma merge_shapefiles_copy (lib : Library) (fs : gmap string FileObj) (path0 : string)
    (rest : list string) (output_path : string) (eff : Effects) :
  merge_shapefiles lib fs (path0 :: rest) output_path = (Returns true, eff) ->
  eff_copy eff
  = if path_exists fs (replace path0 ".shp" ".prj")
    then Some (replace path0 ".shp" ".prj", replace output_path ".shp" ".prj")
    else None.
Proof.
  intros Hm.
  destruct (merge_shapefiles_returns_true lib fs _ output_path eff Hm)
    as [p0 [rest0 [canon [w0 [w1 [Heq [_ [_ [_ [_ [_ [_ [_ Hcp]]]]]]]]]]]]].
  injection Heq as <- <-. exact Hcp.
Qed.

Example merge_copy_sample :
  let out := "/tmp/w/Parcels_merged.shp" in
  eff_copy (merge_shapefiles quiet sample_fs
              ["/tmp/w/riga/KKParcel.shp"; "/tmp/w/jelgava/KKParcel.shp"] out).2
  = Some ("/tmp/w/riga/KKParcel.prj", "/tmp/w/Parcels_merged.prj") /\
  merge_shapefiles quiet sample_fs
    ["/tmp/w/jelgava/KKParcel.shp"; "/tmp/w/riga/KKParcel.shp"] out
  = (Returns true,
     {| eff_writer :=
          Some {| w_target := out; w_fields := [code_field; area_field];
                  w_records := [["0900"; "100.00"]; ["0100"; "100.00"];
                                ["0101"; "100.00"]];
                  w_shapes := [[(10, 0); (10, 1); (11, 0)];
                               [(0, 0); (0, 1); (1, 0)];
                               [(2, 0); (2, 1); (3, 0)]]%Z;
                  w_closed := true |};
        eff_copy := None; eff_stdout := [] |}).
Proof. split; reflexivity. Qed.

(** The copy is outside any [try]: when it raises, so does the merge, with
    the output already written and closed. *)
Example merge_copy_raises_sample :
  (merge_shapefiles strict sample_fs ["/tmp/w/riga/KKParcel.shp"]
     "/tmp/w/Parcels_merged.shp").1
  = Raises "[Errno 13] Permission denied".
Proof. reflexivity. Qed.

(** C6.  The sidecar's path is obtained by replacing ".shp", in lower case
    only, in the first path.  The extractor lists "KKParcel.SHP" as a
    parcel file; merging it, the first path is left as it is by the
    replacement, it exists, and the geometry file itself is copied to the
    output's projection path: the sidecar next to it is not copied when it
    exists, and a projection file is written when it does not. *)
Theorem merge_copies_geometry_for_uppercase_extension :
  let out := "/tmp/w/Parcels_merged.shp" in
  let first := "/tmp/w/upper/KKParcel.SHP" in
  let bare : gmap string FileObj := {[ first := Dataset riga_parcels ]} in
  parcels_to_merge
    (extract_archive ascii_python "/tmp/w" ["KKParcel"]
       (sound_archive ["upper/KKParcel.SHP"; "upper/KKParcel.prj"])
       empty_extraction).1
  = [first] /\
  path_exists sample_fs "/tmp/w/upper/KKParcel.prj" = true /\
  (merge_shapefiles quiet sample_fs [first] out).1 = Returns true /\
  eff_copy (merge_shapefiles quiet sample_fs [first] out).2
  = Some (first, "/tmp/w/Parcels_merged.prj") /\
  path_exists bare "/tmp/w/upper/KKParcel.prj" = false /\
  (merge_shapefiles quiet bare [first] out).1 = Returns true /\
  eff_copy (merge_shapefiles quiet bare [first] out).2
  = Some (first, "/tmp/w/Parcels_merged.prj").
Proof. repeat split. Qed.

(** ** Selective extraction *)

Lemma wanted_spec (py : Python) (enabled : bool) (c : Category) (filename : string) :
  wanted py enabled c filename = true <-> enabled = true /\ matches_category c filename.
Proof.
  unfold wanted, matches_category.
  rewrite (lower_endswith py filename ".shp") by (left; reflexivity).
  rewrite !andb_true_iff, negb_true_iff, <- not_true_iff_false.
  rewrite !contains_spec, endswith_lower_spec. unfold ci_eq.
  change (lower ".shp") with ".shp". tauto.
Qed.

Lemma related_files_spec (namelist : list string) (filename g : string) :
  In g (related_files namelist filename) <->
  In g namelist /\ startswith g (base_name filename) = true.
Proof. unfold related_files, base_name. rewrite filter_In. reflexivity. Qed.

(** Entries with the same base name begin with that base name. *)
Lemma same_base_name_startswith (g filename : string) :
  base_name g = base_name filename -> startswith g (base_name filename) = true.
Proof. intros <-. apply rsplit_head_prefix. Qed.

Lemma requested_spec (selected_types : list string) (c : Category) :
  bool_decide (type_name c ∈ selected_types) = true <-> requested selected_types c.
Proof. unfold requested. apply bool_decide_eq_true. Qed.

(** The members extracted are a beginning of those asked for; all of them
    when no extraction raises. *)
Lemma extract_members_spec (z : Archive) (members done : list string)
    (err : option string) :
  extract_members z members = (done, err) ->
  (exists rest, members = done ++ rest) /\
  ((forall g, In g members -> zip_extract_error z g = None) ->
   done = members /\ err = None).
Proof.
  revert done err. induction members as [|rf rest IH]; intros done err; simpl.
  - intros [= <- <-]. split; [exists []; reflexivity | intros _; split; reflexivity].
  - destruct (zip_extract_error z rf) as [e|] eqn:He.
    + intros [= <- <-]. split; [exists (rf :: rest); reflexivity|].
      intros H. rewrite (H rf) in He by (left; reflexivity). discriminate.
    + destruct (extract_members z rest) as [done' err'] eqn:Hrest.
      intros [= <- <-]. destruct (IH _ _ eq_refl) as [[r Hr] Hall]. split.
      * exists r. simpl. rewrite <- Hr. reflexivity.
      * intros H. destruct Hall as [-> ->]; [|split; reflexivity].
        intros g Hg. apply H. right. exact Hg.
Qed.

Lemma extract_members_sub (z : Archive) (members done : list string)
    (err : option string) (g : string) :
  extract_members z members = (done, err) -> In g done -> In g members.
Proof.
  intros H Hg. destruct (extract_members_spec z members done err H) as [[rest ->] _].
  apply in_or_app. left. exact Hg.
Qed.

Lemma related_files_extract (z : Archive) (filename : string) :
  extracts_all z ->
  extract_members z (related_files (zip_namelist z) filename)
  = (related_files (zip_namelist z) filename, None).
Proof.
  intros Hall.
  destruct (extract_members z (related_files (zip_namelist z) filename))
    as [done err] eqn:H.
  destruct (extract_members_spec z _ done err H) as [_ Hd].
  destruct Hd as [-> ->]; [|reflexivity].
  intros g Hg. apply Hall, list_elem_of_In.
  apply related_files_spec in Hg as [Hg _]. exact Hg.
Qed.

(** The loop of lines 134-147, unrolled, for an archive all of whose
    members extract. *)
Lemma extract_fold (py : Python) (temp_dir : string) (dp db : bool) (z : Archive)
    (l : list string) (st : Extraction) :
  extracts_all z ->
  visit_entries py temp_dir dp db z l st
  = ({| extracted :=
          extracted st
          ++ flat_map
               (fun f =>
                  (if wanted py dp Parcel f then related_files (zip_namelist z) f else [])
                  ++ (if wanted py db Building f
                      then related_files (zip_namelist z) f else []))
               l;
        parcels_to_merge :=
          parcels_to_merge st
          ++ map (os_path_join temp_dir) (List.filter (wanted py dp Parcel) l);
        buildings_to_merge :=
          buildings_to_merge st
          ++ map (os_path_join temp_dir) (List.filter (wanted py db Building) l) |},
     None).
Proof.
  intros Hall. revert st. induction l as [|f l IH]; intros st.
  - simpl. rewrite !app_nil_r. destruct st; reflexivity.
  - cbn [visit_entries]. unfold visit_parcel, visit_building.
    rewrite !(related_files_extract z f Hall).
    destruct (wanted py dp Parcel f) eqn:Hp, (wanted py db Building f) eqn:Hb;
      rewrite IH; cbn [extracted parcels_to_merge buildings_to_merge flat_map
                       List.filter map];
      rewrite ?Hp, ?Hb; cbn [map]; rewrite ?app_nil_r, <- ?app_assoc; reflexivity.
Qed.

(** Whether or not an extraction raises, the loop extracts and lists
    nothing but what a matching entry calls for. *)
Lemma visit_entries_sub (py : Python) (temp_dir : string) (dp db : bool) (z : Archive)
    (l : list string) (st st' : Extraction) (err : option string) :
  visit_entries py temp_dir dp db z l st = (st', err) ->
  (forall g, In g (extracted st') ->
     In g (extracted st) \/
     exists f, In f l /\ In g (related_files (zip_namelist z) f) /\
               (wanted py dp Parcel f = true \/ wanted py db Building f = true)) /\
  (forall p, In p (parcels_to_merge st') ->
     In p (parcels_to_merge st) \/
     exists f, In f l /\ wanted py dp Parcel f = true /\ p = os_path_join temp_dir f) /\
  (forall p, In p (buildings_to_merge st') ->
     In p (buildings_to_merge st) \/
     exists f, In f l /\ wanted py db Building f = true /\ p = os_path_join temp_dir f).
Proof.
  revert st. induction l as [|f l IH]; intros st.
  - simpl. intros [= <- <-]. repeat split; intros x Hx; left; exact Hx.
  - cbn [visit_entries].
    assert (Hp : forall st1 e1,
      visit_parcel py temp_dir dp z st f = (st1, e1) ->
      (forall g, In g (extracted st1) ->
         In g (extracted st) \/
         (In g (related_files (zip_namelist z) f) /\ wanted py dp Parcel f = true)) /\
      (forall p, In p (parcels_to_merge st1) ->
         In p (parcels_to_merge st) \/
         (wanted py dp Parcel f = true /\ p = os_path_join temp_dir f)) /\
      buildings_to_merge st1 = buildings_to_merge st).
    { intros st1 e1. unfold visit_parcel.
      destruct (wanted py dp Parcel f) eqn:Hw.
      - destruct (extract_members z _) as [done [e|]] eqn:Hm; intros [= <- <-]; simpl;
          (split; [|split; [|reflexivity]]).
        + intros g Hg. apply in_app_or in Hg as [Hg | Hg]; [left; exact Hg | right].
          split; [apply (extract_members_sub z _ _ _ g Hm Hg) | reflexivity].
        + intros p Hpp. left. exact Hpp.
        + intros g Hg. apply in_app_or in Hg as [Hg | Hg]; [left; exact Hg | right].
          split; [apply (extract_members_sub z _ _ _ g Hm Hg) | reflexivity].
        + intros p Hpp. apply in_app_or in Hpp as [Hpp | [<- | []]];
            [left; exact Hpp | right; split; reflexivity].
      - intros [= <- <-]. repeat split; intros x Hx; left; exact Hx. }
    assert (Hb : forall st0 st1 e1,
      visit_building py temp_dir db z st0 f = (st1, e1) ->
      (forall g, In g (extracted st1) ->
         In g (extracted st0) \/
         (In g (related_files (zip_namelist z) f) /\ wanted py db Building f = true)) /\
      (forall p, In p (buildings_to_merge st1) ->
         In p (buildings_to_merge st0) \/
         (wanted py db Building f = true /\ p = os_path_join temp_dir f)) /\
      parcels_to_merge st1 = parcels_to_merge st0).
    { intros st0 st1 e1. unfold visit_building.
      destruct (wanted py db Building f) eqn:Hw.
      - destruct (extract_members z _) as [done [e|]] eqn:Hm; intros [= <- <-]; simpl;
          (split; [|split; [|reflexivity]]).
        + intros g Hg. apply in_app_or in Hg as [Hg | Hg]; [left; exact Hg | right].
          split; [apply (extract_members_sub z _ _ _ g Hm Hg) | reflexivity].
        + intros p Hpp. left. exact Hpp.
        + intros g Hg. apply in_app_or in Hg as [Hg | Hg]; [left; exact Hg | right].
          split; [apply (extract_members_sub z _ _ _ g Hm Hg) | reflexivity].
        + intros p Hpp. apply in_app_or in Hpp as [Hpp | [<- | []]];
            [left; exact Hpp | right; split; reflexivity].
      - intros [= <- <-]. repeat split; intros x Hx; left; exact Hx. }
    destruct (visit_parcel py temp_dir dp z st f) as [st1 e1] eqn:H1.
    destruct (Hp st1 e1 eq_refl) as [Hp1 [Hp2 Hp3]].
    assert (Hone : forall st2,
      (forall g, In g (extracted st2) ->
         In g (extracted st1) \/
         (In g (related_files (zip_namelist z) f) /\ wanted py db Building f = true)) ->
      (forall p, In p (buildings_to_merge st2) ->
         In p (buildings_to_merge st1) \/
         (wanted py db Building f = true /\ p = os_path_join temp_dir f)) ->
      parcels_to_merge st2 = parcels_to_merge st1 ->
      (forall g, In g (extracted st2) ->
         In g (extracted st) \/
         exists f0, In f0 (f :: l) /\ In g (related_files (zip_namelist z) f0) /\
                    (wanted py dp Parcel f0 = true \/ wanted py db Building f0 = true)) /\
      (forall p, In p (parcels_to_merge st2) ->
         In p (parcels_to_merge st) \/
         exists f0, In f0 (f :: l) /\ wanted py dp Parcel f0 = true /\
                    p = os_path_join temp_dir f0) /\
      (forall p, In p (buildings_to_merge st2) ->
         In p (buildings_to_merge st) \/
         exists f0, In f0 (f :: l) /\ wanted py db Building f0 = true /\
                    p = os_path_join temp_dir f0)).
    { intros st2 Hb1 Hb2 Hb3. split; [|split].
      - intros g Hg. destruct (Hb1 g Hg) as [Hg1 | [Hg1 Hw]].
        + destruct (Hp1 g Hg1) as [Hg0 | [Hg0 Hw]]; [left; exact Hg0 | right].
          exists f. split; [left; reflexivity|]. split; [exact Hg0 | left; exact Hw].
        + right. exists f. split; [left; reflexivity|]. split; [exact Hg1 | right; exact Hw].
      - intros p Hpp. rewrite Hb3 in Hpp.
        destruct (Hp2 p Hpp) as [H0 | [Hw ->]]; [left; exact H0 | right].
        exists f. split; [left; reflexivity|]. split; [exact Hw | reflexivity].
      - intros p Hpp. destruct (Hb2 p Hpp) as [H0 | [Hw ->]].
        + left. rewrite <- Hp3. exact H0.
        + right. exists f. split; [left; reflexivity|]. split; [exact Hw | reflexivity]. }
    destruct e1 as [e|].
    { intros [= <- <-]. apply Hone.
      - intros g Hg. left. exact Hg.
      - intros p Hpp. left. exact Hpp.
      - reflexivity. }
    destruct (visit_building py temp_dir db z st1 f) as [st2 e2] eqn:H2.
    destruct (Hb st1 st2 e2 H2) as [Hb1 [Hb2 Hb3]].
    destruct (Hone st2 Hb1 Hb2 Hb3) as [Ho1 [Ho2 Ho3]].
    destruct e2 as [e|].
    { intros [= <- <-]. split; [exact Ho1|]. split; [exact Ho2 | exact Ho3]. }
    intros H. destruct (IH st2 H) as [I1 [I2 I3]]. split; [|split].
    + intros g Hg. destruct (I1 g Hg) as [Hg2 | [f0 [Hf0 Hrest]]].
      * apply Ho1, Hg2.
      * right. exists f0. split; [right; exact Hf0 | exact Hrest].
    + intros p Hpp. destruct (I2 p Hpp) as [Hg2 | [f0 [Hf0 Hrest]]].
      * apply Ho2, Hg2.
      * right. exists f0. split; [right; exact Hf0 | exact Hrest].
    + intros p Hpp. destruct (I3 p Hpp) as [Hg2 | [f0 [Hf0 Hrest]]].
      * apply Ho3, Hg2.
      * right. exists f0. split; [right; exact Hf0 | exact Hrest].
Qed.

(** What is extracted from an archive comes from the archive and begins
    with the base name of an entry that matches a requested category. *)
Lemma extracted_sub (py : Python) (temp_dir : string) (selected_types : list string)
    (z : Archive) (g : string) :
  In g (extracted (extract_archive py temp_dir selected_types z empty_extraction).1) ->
  In g (zip_namelist z) /\
  exists c f, requested selected_types c /\ In f (zip_namelist z) /\
              matches_category c f /\ startswith g (base_name f) = true.
Proof.
  unfold extract_archive.
  destruct (visit_entries py temp_dir _ _ z (zip_namelist z) empty_extraction)
    as [st err] eqn:H.
  destruct (visit_entries_sub py temp_dir _ _ z _ _ _ _ H) as [H1 _].
  simpl. intros Hg. destruct (H1 g Hg) as [[] | [f [Hf [Hrel Hw]]]].
  apply related_files_spec in Hrel as [Hgn Hs]. split; [exact Hgn|].
  destruct Hw as [Hw | Hw]; apply wanted_spec in Hw as [Hreq Hm].
  - exists Parcel, f. split; [apply requested_spec, Hreq|].
    split; [exact Hf|]. split; [exact Hm | exact Hs].
  - exists Building, f. split; [apply requested_spec, Hreq|].
    split; [exact Hf|]. split; [exact Hm | exact Hs].
Qed.

(** A primary path is the joined path of a matching entry. *)
Lemma primary_paths_sub (py : Python) (temp_dir : string) (selected_types : list string)
    (z : Archive) (st0 : Extraction) (c : Category) (p : string) :
  In p (primary_paths c (extract_archive py temp_dir selected_types z st0).1) ->
  In p (primary_paths c st0) \/
  exists f, requested selected_types c /\ In f (zip_namelist z) /\
            matches_category c f /\ p = os_path_join temp_dir f.
Proof.
  unfold extract_archive.
  destruct (visit_entries py temp_dir _ _ z (zip_namelist z) st0) as [st err] eqn:H.
  destruct (visit_entries_sub py temp_dir _ _ z _ _ _ _ H) as [_ [H2 H3]].
  simpl. destruct c; simpl; intros Hp.
  - destruct (H2 p Hp) as [H0 | [f [Hf [Hw ->]]]]; [left; exact H0 | right].
    apply wanted_spec in Hw as [Hreq Hm]. exists f.
    split; [apply (requested_spec _ Parcel), Hreq|].
    split; [exact Hf|]. split; [exact Hm | reflexivity].
  - destruct (H3 p Hp) as [H0 | [f [Hf [Hw ->]]]]; [left; exact H0 | right].
    apply wanted_spec in Hw as [Hreq Hm]. exists f.
    split; [apply (requested_spec _ Building), Hreq|].
    split; [exact Hf|]. split; [exact Hm | reflexivity].
Qed.

(** When every member extracts, all of that is extracted and listed. *)
Lemma extracted_spec (py : Python) (temp_dir : string) (selected_types : list string)
    (z : Archive) (g : string) :
  extracts_all z ->
  In g (zip_namelist z) ->
  (exists c f, requested selected_types c /\ In f (zip_namelist z) /\
               matches_category c f /\ startswith g (base_name f) = true) ->
  In g (extracted (extract_archive py temp_dir selected_types z empty_extraction).1).
Proof.
  intros Hall Hg [c [f [Hreq [Hf [Hm Hs]]]]].
  unfold extract_archive. rewrite (extract_fold py temp_dir _ _ z _ _ Hall).
  simpl. rewrite in_flat_map. exists f. split; [exact Hf|].
  apply requested_spec in Hreq.
  assert (Hw : wanted py (bool_decide (type_name c ∈ selected_types)) c f = true).
  { apply wanted_spec. split; assumption. }
  apply in_or_app. destruct c; [left | right]; simpl in Hw; rewrite Hw;
    apply related_files_spec; split; assumption.
Qed.

Lemma primary_paths_spec (py : Python) (temp_dir : string) (selected_types : list string)
    (z : Archive) (c : Category) (f : string) :
  extracts_all z ->
  requested selected_types c -> In f (zip_namelist z) -> matches_category c f ->
  In (os_path_join temp_dir f)
     (primary_paths c (extract_archive py temp_dir selected_types z empty_extraction).1).
Proof.
  intros Hall Hreq Hf Hm.
  unfold extract_archive. rewrite (extract_fold py temp_dir _ _ z _ _ Hall).
  assert (Hw : wanted py (bool_decide (type_name c ∈ selected_types)) c f = true).
  { apply wanted_spec. split; [apply requested_spec, Hreq | exact Hm]. }
  destruct c; simpl; apply in_map, filter_In; split; assumption.
Qed.

(** C3, as stated, fails in three ways.  On "exactly": with only parcels
    requested and the first archive below, "KKParcel.shp" is the one entry
    that matches; next to the two entries of base name "KKParcel" the
    extractor also extracts "KKParcelPart.shp", whose base name is
    "KKParcelPart": its name merely begins with "KKParcel".  On the path
    recorded: for the entries "/srv/KKParcel.shp" and "riga/../KKParcel.shp"
    the path listed is not the path the entry is extracted to.  And when
    the extraction of a related file raises, the matching entry is not
    listed and the entries after it are not visited. *)
Lemma extraction_not_as_claimed :
  (let z := sound_archive ["KKParcel.shp"; "KKParcel.dbf"; "KKParcelPart.shp"] in
   let st := (extract_archive ascii_python "/tmp/w" ["KKParcel"] z empty_extraction).1 in
   matches_category Parcel "KKParcel.shp" /\
   (forall c f, requested ["KKParcel"] c -> f ∈ zip_namelist z ->
                matches_category c f -> f = "KKParcel.shp") /\
   "KKParcelPart.shp" ∈ extracted st /\
   "KKParcelPart.shp" <> "KKParcel.shp" /\
   base_name "KKParcelPart.shp" <> base_name "KKParcel.shp") /\
  (let z := sound_archive ["/srv/KKParcel.shp"; "riga/../KKParcel.shp"] in
   let st := (extract_archive ascii_python "/tmp/w" ["KKParcel"] z empty_extraction).1 in
   matches_category Parcel "/srv/KKParcel.shp" /\
   matches_category Parcel "riga/../KKParcel.shp" /\
   parcels_to_merge st = ["/srv/KKParcel.shp"; "/tmp/w/riga/../KKParcel.shp"] /\
   extract_target "/tmp/w" "/srv/KKParcel.shp" = "/tmp/w/srv/KKParcel.shp" /\
   extract_target "/tmp/w" "riga/../KKParcel.shp" = "/tmp/w/riga/KKParcel.shp" /\
   normpath "/tmp/w/riga/../KKParcel.shp" = "/tmp/w/KKParcel.shp") /\
  (let z := {| zip_namelist := ["KKParcel.shp"; "KKParcel.dbf"; "b/KKParcel.shp"];
               zip_extract_error := fun g =>
                 if String.eqb g "KKParcel.dbf" then Some "Bad CRC-32" else None |} in
   matches_category Parcel "KKParcel.shp" /\
   matches_category Parcel "b/KKParcel.shp" /\
   extract_archive ascii_python "/tmp/w" ["KKParcel"] z empty_extraction
   = ({| extracted := ["KKParcel.shp"]; parcels_to_merge := [];
         buildings_to_merge := [] |}, Some "Bad CRC-32")).
Proof.
  split; [|split].
  - intros z st. split; [|split; [|split; [|split]]].
    + apply (wanted_spec ascii_python true Parcel "KKParcel.shp"). reflexivity.
    + intros c f Hreq Hf Hm.
      assert (Hw : wanted ascii_python true c f = true)
        by (apply wanted_spec; split; [reflexivity | exact Hm]).
      destruct c.
      * apply list_elem_of_In in Hf. simpl in Hf.
        destruct Hf as [<- | [<- | [<- | []]]];
          [reflexivity | discriminate Hw | discriminate Hw].
      * apply list_elem_of_In in Hreq. simpl in Hreq.
        destruct Hreq as [Hreq | []]. discriminate Hreq.
    + apply list_elem_of_In. vm_compute. tauto.
    + discriminate.
    + discriminate.
  - intros z st. split; [|split; [|repeat split]].
    + apply (wanted_spec ascii_python true Parcel "/srv/KKParcel.shp"). reflexivity.
    + apply (wanted_spec ascii_python true Parcel "riga/../KKParcel.shp"). reflexivity.
  - intros z. split; [|split; [|reflexivity]].
    + apply (wanted_spec ascii_python true Parcel "KKParcel.shp"). reflexivity.
    + apply (wanted_spec ascii_python true Parcel "b/KKParcel.shp"). reflexivity.
Qed.

(** C3 (amended).  When every member of the archive extracts: for every
    archive entry that contains the include substring of a requested
    category, does not contain its exclude substring and ends in ".shp"
    whatever the letter case, the extractor extracts that entry and every
    archive entry whose name begins with that entry's base name, among them
    every entry with the same base name, and lists the entry's name joined
    to the working directory as a primary path of the category.  Whether
    or not an extraction fails, nothing else is extracted and nothing else
    is listed.  The path listed names the file the entry is extracted to
    whenever the entry's name is relative and free of empty, "." and ".."
    components. *)
Theorem extraction_spec (py : Python) (temp_dir : string)
    (selected_types : list string) (z : Archive) :
  let st := (extract_archive py temp_dir selected_types z empty_extraction).1 in
  let namelist := zip_namelist z in
  (extracts_all z ->
   forall c filename,
     requested selected_types c -> filename ∈ namelist ->
     matches_category c filename ->
     filename ∈ extracted st /\
     (forall g, g ∈ namelist -> base_name g = base_name filename -> g ∈ extracted st) /\
     (forall g, g ∈ namelist -> startswith g (base_name filename) = true ->
                g ∈ extracted st) /\
     os_path_join temp_dir filename ∈ primary_paths c st) /\
  (forall g, g ∈ extracted st ->
     g ∈ namelist /\
     exists c f, requested selected_types c /\ f ∈ namelist /\
                 matches_category c f /\ startswith g (base_name f) = true) /\
  (forall c p, p ∈ primary_paths c st ->
     exists f, requested selected_types c /\ f ∈ namelist /\
               matches_category c f /\ p = os_path_join temp_dir f) /\
  (forall filename, sanitize filename = filename ->
     extract_target temp_dir filename = normpath (os_path_join temp_dir filename)).
Proof.
  intros st namelist. split; [|split; [|split]].
  - intros Hall c filename Hreq Hf Hm. apply list_elem_of_In in Hf.
    assert (Hstart : forall g, g ∈ namelist ->
              startswith g (base_name filename) = true -> g ∈ extracted st).
    { intros g Hg Hs. apply list_elem_of_In, extracted_spec;
        [exact Hall | apply list_elem_of_In, Hg|].
      exists c, filename.
      split; [exact Hreq|]. split; [exact Hf|]. split; [exact Hm | exact Hs]. }
    split; [|split; [|split]].
    + apply Hstart; [apply list_elem_of_In, Hf | apply rsplit_head_prefix].
    + intros g Hg Hb. apply Hstart; [exact Hg | apply same_base_name_startswith, Hb].
    + exact Hstart.
    + apply list_elem_of_In, primary_paths_spec; assumption.
  - intros g Hg. apply list_elem_of_In, extracted_sub in Hg as [Hg [c [f [H1 [H2 [H3 H4]]]]]].
    split; [apply list_elem_of_In, Hg|]. exists c, f.
    split; [exact H1|]. split; [apply list_elem_of_In, H2|]. split; [exact H3 | exact H4].
  - intros c p Hp. apply list_elem_of_In, primary_paths_sub in Hp as [Hp | [f [H1 [H2 [H3 H4]]]]].
    + destruct c; inversion Hp.
    + exists f. split; [exact H1|]. split; [apply list_elem_of_In, H2|].
      split; [exact H3 | exact H4].
  - intros filename Hclean. unfold extract_target. rewrite Hclean. reflexivity.
Qed.

Lemma extraction_spec_witness :
  let z := sound_archive ["riga/KKParcel.SHP"; "riga/KKParcel.dbf"; "riga/KKBuilding.shp"] in
  let st := (extract_archive ascii_python "/tmp/w" ["KKParcel"] z empty_extraction).1 in
  "riga/KKParcel.SHP" ∈ extracted st /\
  "riga/KKParcel.dbf" ∈ extracted st /\
  os_path_join "/tmp/w" "riga/KKParcel.SHP" ∈ primary_paths Parcel st /\
  extract_target "/tmp/w" "riga/KKParcel.SHP"
  = normpath (os_path_join "/tmp/w" "riga/KKParcel.SHP").
Proof.
  intros z st.
  destruct (extraction_spec ascii_python "/tmp/w" ["KKParcel"] z) as [H [_ [_ Hpath]]].
  destruct (H (fun g _ => eq_refl) Parcel "riga/KKParcel.SHP") as [H1 [H2 [_ H4]]].
  - apply list_elem_of_here.
  - apply list_elem_of_here.
  - apply (wanted_spec ascii_python true Parcel "riga/KKParcel.SHP"). reflexivity.
  - split; [exact H1|]. split; [|split; [exact H4|]].
    + apply H2; [apply list_elem_of_further, list_elem_of_here | reflexivity].
    + apply Hpath. reflexivity.
Defined.

(** ** Packaging *)

Lemma os_path_join_relative (a b : string) :
  nonempty a = true -> endswith a "/" = false -> startswith b "/" = false ->
  os_path_join a b = a +:+ "/" +:+ b.
Proof. unfold os_path_join. intros -> -> ->. reflexivity. Qed.

Lemma merge_category_cases (lib : Library) (fs : gmap string FileObj)
    (temp_dir : string) (paths : list string) (base : string) (created : list string) :
  merge_category lib fs temp_dir paths base = Returned created ->
  (created = [base] /\ paths <> [] /\
   (merge_shapefiles lib fs paths (os_path_join temp_dir (base +:+ ".shp"))).1
   = Returns true)
  \/ (created = [] /\
      (paths = [] \/
       (merge_shapefiles lib fs paths (os_path_join temp_dir (base +:+ ".shp"))).1
       = Returns false)).
Proof.
  unfold merge_category. destruct paths as [|p paths].
  - intros [= <-]. right. split; [reflexivity | left; reflexivity].
  - destruct (merge_shapefiles lib fs (p :: paths) _).1 as [[|]|e] eqn:Hm.
    + intros [= <-]. left. split; [reflexivity|]. split; [discriminate | reflexivity].
    + intros [= <-]. right. split; [reflexivity | right; reflexivity].
    + discriminate.
Qed.

(** What the merge step hands on when neither merge raises. *)
Lemma merge_step_returned (lib : Library) (fs : gmap string FileObj) (temp_dir : string)
    (st : Extraction) (files_created : list string) :
  merge_step lib fs temp_dir st = Returned files_created ->
  exists parcels buildings,
    files_created = parcels ++ buildings /\
    merge_category lib fs temp_dir (parcels_to_merge st) "Parcels_merged"
    = Returned parcels /\
    merge_category lib fs temp_dir (buildings_to_merge st) "Buildings_merged"
    = Returned buildings.
Proof.
  unfold merge_step.
  destruct (merge_category lib fs temp_dir (parcels_to_merge st) _) as [ps|e];
    [|discriminate].
  destruct (merge_category lib fs temp_dir (buildings_to_merge st) _) as [bs|e];
    [|discriminate].
  intros [= <-]. exists ps, bs. repeat split.
Qed.

(** The base names handed to the packager are the two fixed ones. *)
Lemma merge_step_names (lib : Library) (fs : gmap string FileObj) (temp_dir : string)
    (st : Extraction) (files_created : list string) (base : string) :
  merge_step lib fs temp_dir st = Returned files_created ->
  In base files_created ->
  base = "Parcels_merged" \/ base = "Buildings_merged".
Proof.
  intros H Hb. destruct (merge_step_returned _ _ _ _ _ H) as [ps [bs [-> [Hp Hbs]]]].
  apply in_app_or in Hb as [Hb | Hb].
  - destruct (merge_category_cases _ _ _ _ _ _ Hp) as [[-> _] | [-> _]];
      [|inversion Hb].
    destruct Hb as [<- | []]. left. reflexivity.
  - destruct (merge_category_cases _ _ _ _ _ _ Hbs) as [[-> _] | [-> _]];
      [|inversion Hb].
    destruct Hb as [<- | []]. right. reflexivity.
Qed.

Lemma zip_base_spec (fs : gmap string FileObj) (temp_dir base_name : string)
    (e : ZipEntry) :
  In e (zip_base fs temp_dir base_name) <->
  exists ext, In ext EXTENSIONS /\
              path_exists fs (os_path_join temp_dir base_name +:+ ext) = true /\
              e = {| ze_arcname := base_name +:+ ext;
                     ze_source := os_path_join temp_dir base_name +:+ ext |}.
Proof.
  unfold zip_base. rewrite in_flat_map. split.
  - intros [ext [Hext He]].
    destruct (path_exists fs _) eqn:Hex; [|inversion He].
    destruct He as [<- | []]. exists ext. repeat split; assumption.
  - intros [ext [Hext [Hex ->]]]. exists ext. split; [exact Hext|].
    rewrite Hex. left. reflexivity.
Qed.

(** C8.  Given no base name the packager returns [None].  Given some, it
    returns an archive whose members are exactly, for each base name and
    each of the five extensions ".shp", ".shx", ".dbf", ".prj", ".cpg", the
    file at the base name joined to the working directory, plus the
    extension, when that file exists, stored under the base name plus the
    extension.  For the base names the merge step produces, the joined path
    is the working directory, a slash, and the base name. *)
Theorem zip_result_spec (fs : gmap string FileObj) (temp_dir : string)
    (files_created : list string) :
  (files_created = [] -> zip_result fs temp_dir files_created = None) /\
  (files_created <> [] ->
   exists entries,
     zip_result fs temp_dir files_created = Some entries /\
     forall e, e ∈ entries <->
       exists base ext,
         base ∈ files_created /\ ext ∈ EXTENSIONS /\
         path_exists fs (os_path_join temp_dir base +:+ ext) = true /\
         e = {| ze_arcname := base +:+ ext;
                ze_source := os_path_join temp_dir base +:+ ext |}) /\
  EXTENSIONS = [".shp"; ".shx"; ".dbf"; ".prj"; ".cpg"] /\
  (forall lib fs0 st base,
     merge_step lib fs0 temp_dir st = Returned files_created -> base ∈ files_created ->
     nonempty temp_dir = true -> endswith temp_dir "/" = false ->
     os_path_join temp_dir base = temp_dir +:+ "/" +:+ base).
Proof.
  split; [intros ->; reflexivity|]. split; [|split; [reflexivity|]].
  - intros Hne. exists (flat_map (zip_base fs temp_dir) files_created). split.
    + unfold zip_result. destruct files_created; [contradiction | reflexivity].
    + intros e. rewrite list_elem_of_In, in_flat_map. split.
      * intros [base [Hb He]]. apply zip_base_spec in He as [ext [Hext [Hex ->]]].
        exists base, ext. rewrite !list_elem_of_In. repeat split; assumption.
      * intros [base [ext [Hb [Hext [Hex ->]]]]]. exists base.
        split; [apply list_elem_of_In, Hb|]. apply zip_base_spec. exists ext.
        split; [apply list_elem_of_In, Hext|]. split; [exact Hex | reflexivity].
  - intros lib fs0 st base Hstep Hb Hd Hslash. apply os_path_join_relative; try assumption.
    apply list_elem_of_In in Hb.
    destruct (merge_step_names _ _ _ _ _ _ Hstep Hb) as [-> | ->]; reflexivity.
Qed.

Lemma zip_result_spec_witness :
  zip_result merged_fs "/tmp/w" [] = None /\
  exists entries,
    zip_result merged_fs "/tmp/w" ["Parcels_merged"] = Some entries /\
    forall e, e ∈ entries <->
      exists base ext,
        base ∈ ["Parcels_merged"] /\ ext ∈ EXTENSIONS /\
        path_exists merged_fs (os_path_join "/tmp/w" base +:+ ext) = true /\
        e = {| ze_arcname := base +:+ ext;
               ze_source := os_path_join "/tmp/w" base +:+ ext |}.
Proof.
  split.
  - apply (proj1 (zip_result_spec merged_fs "/tmp/w" [])). reflexivity.
  - apply (proj1 (proj2 (zip_result_spec merged_fs "/tmp/w" ["Parcels_merged"]))).
    discriminate.
Defined.

(** The archive of a sample run in which the second territory's download
    fails: the four files present, under flat names; there is no ".cpg"
    and no building output. *)
Example process_territories_sample :
  process_territories quiet ascii_python "/tmp/w" ["1. Riga"; "10. Jelgava"]
    (catalog_of ascii_python sample_catalog) ["KKParcel"] sample_get
    sample_fs merged_fs
  = (Returned
       (Some [ {| ze_arcname := "Parcels_merged.shp";
                  ze_source := "/tmp/w/Parcels_merged.shp" |};
               {| ze_arcname := "Parcels_merged.shx";
                  ze_source := "/tmp/w/Parcels_merged.shx" |};
               {| ze_arcname := "Parcels_merged.dbf";
                  ze_source := "/tmp/w/Parcels_merged.dbf" |};
               {| ze_arcname := "Parcels_merged.prj";
                  ze_source := "/tmp/w/Parcels_merged.prj" |} ]),
     ["https://x/riga.zip"; "https://x/jelgava.zip"]).
Proof. reflexivity. Qed.
(** * Further properties *)

(** ** The catalogue client, continued *)

Lemma add_resource_binding (py : Python) (m : gmap string string) (res : Resource) :
  add_resource py m res
  = match resource_binding py res with
    | Some (name, url) => <[name := url]> m
    | None => m
    end.
Proof.
  unfold add_resource, resource_binding.
  destruct (format_or_url_ok _ _ _); [|reflexivity].
  destruct (res_name res) as [name|]; [|reflexivity].
  destruct (nonempty name && _); reflexivity.
Qed.

Lemma resource_binding_spec (py : Python) (res : Resource) (name url : string) :
  resource_binding py res = Some (name, url) <->
  eligible py res /\ res_name res = Some name /\ res_url res = Some url.
Proof.
  pose proof (add_resource_binding py ∅ res) as Hb.
  destruct (add_resource_cases py ∅ res)
    as [[He [n [u [Hn [Hu Heq]]]]] | [He Heq]]; rewrite Heq in Hb.
  - destruct (resource_binding py res) as [[n' u']|].
    + assert (Hl : (<[n := u]> (∅ : gmap string string)) !! n' = Some u').
      { rewrite Hb. apply lookup_insert_eq. }
      destruct (decide (n = n')) as [<- | Hne].
      * rewrite lookup_insert_eq in Hl. injection Hl as <-. split.
        -- intros [= <- <-]. split; [exact He | split; assumption].
        -- intros [_ [Hn' Hu']]. congruence.
      * rewrite lookup_insert_ne, lookup_empty in Hl by exact Hne. discriminate.
    + exfalso. apply (f_equal (fun m => m !! n)) in Hb.
      rewrite lookup_insert_eq, lookup_empty in Hb. discriminate.
  - destruct (resource_binding py res) as [[n' u']|].
    + exfalso. apply (f_equal (fun m => m !! n')) in Hb.
      rewrite lookup_insert_eq, lookup_empty in Hb. discriminate.
    + split; [discriminate | intros [He' _]; contradiction].
Qed.

Lemma resource_binding_none (py : Python) (res : Resource) :
  resource_binding py res = None <-> ~ eligible py res.
Proof.
  split.
  - intros Hb [n [u He]].
    assert (H : resource_binding py res = Some (n, u)); [|congruence].
    apply resource_binding_spec. split; [exists n, u; exact He | tauto].
  - intros He. destruct (resource_binding py res) as [[n u]|] eqn:Hb; [|reflexivity].
    apply resource_binding_spec in Hb as [Hb _]. contradiction.
Qed.

Lemma snoc_decompose {A : Type} (before after l : list A) (x y : A) :
  before ++ x :: after = l ++ [y] ->
  (after = [] /\ before = l /\ x = y)
  \/ exists after', after = after' ++ [y] /\ l = before ++ x :: after'.
Proof.
  induction after as [|a after' _] using rev_ind; intros H.
  - left. apply (app_inj_tail before l x y) in H as [-> ->]. repeat split.
  - right. exists after'.
    change (before ++ x :: after' ++ [a]) with (before ++ (x :: after') ++ [a]) in H.
    rewrite app_assoc in H. apply app_inj_tail in H as [<- ->]. split; reflexivity.
Qed.

Lemma collect_resources_last (py : Python) (rs : list Resource) (name url : string) :
  collect_resources py rs !! name = Some url <->
  exists before res after,
    rs = before ++ res :: after /\
    eligible py res /\ res_name res = Some name /\ res_url res = Some url /\
    forall r, r ∈ after -> ~ (eligible py r /\ res_name r = Some name).
Proof.
  induction rs as [|r rs IH] using rev_ind.
  - split; [intros H; unfold collect_resources in H; simpl in H;
            rewrite lookup_empty in H; discriminate|].
    intros [before [res [after [H _]]]]. destruct before; discriminate.
  - rewrite collect_resources_snoc, add_resource_binding.
    assert (Hskip : ~ (eligible py r /\ res_name r = Some name) ->
      (collect_resources py rs !! name = Some url <->
       exists before res after,
         rs ++ [r] = before ++ res :: after /\
         eligible py res /\ res_name res = Some name /\ res_url res = Some url /\
         forall r', r' ∈ after -> ~ (eligible py r' /\ res_name r' = Some name))).
    { intros Hr. rewrite IH. split.
      - intros [before [res [after [-> [He [Hn [Hu Hafter]]]]]]].
        exists before, res, (after ++ [r]). rewrite <- app_assoc.
        split; [reflexivity|]. split; [exact He|]. split; [exact Hn|].
        split; [exact Hu|]. intros r' Hr'.
        apply elem_of_app in Hr' as [Hr' | Hr']; [apply Hafter, Hr'|].
        apply list_elem_of_singleton in Hr'. subst r'. exact Hr.
      - intros [before [res [after [Heq [He [Hn [Hu Hafter]]]]]]].
        symmetry in Heq.
        apply snoc_decompose in Heq as [[-> [-> ->]] | [after' [-> ->]]].
        + exfalso. apply Hr. split; assumption.
        + exists before, res, after'. split; [reflexivity|]. split; [exact He|].
          split; [exact Hn|]. split; [exact Hu|]. intros r' Hr'.
          apply Hafter, elem_of_app. left. exact Hr'. }
    destruct (resource_binding py r) as [[n u]|] eqn:Hb.
    + apply resource_binding_spec in Hb as [He [Hn Hu]].
      destruct (decide (n = name)) as [-> | Hne].
      * rewrite lookup_insert_eq. split.
        -- intros [= <-]. exists rs, r, []. repeat split; try assumption.
           intros r' Hr'. inversion Hr'.
        -- intros [before [res [after [Heq [He' [Hn' [Hu' Hafter]]]]]]].
           symmetry in Heq.
           apply snoc_decompose in Heq as [[-> [-> ->]] | [after' [-> ->]]].
           ++ congruence.
           ++ exfalso. apply (Hafter r); [|split; assumption].
              apply elem_of_app. right. apply list_elem_of_here.
      * rewrite lookup_insert_ne by exact Hne. apply Hskip.
        intros [_ Hn']. congruence.
    + apply Hskip. intros [He _]. apply resource_binding_none in Hb. contradiction.
Qed.

(** X1.  Whatever the catalogue lists, the mapping holds at a name the URL
    of the last eligible entry of that name, and holds the names of
    eligible entries only: a later entry replaces an earlier one of the
    same name, and entries that are not eligible replace nothing.  An
    entry is eligible when its name and its URL are not empty and its
    format upper-cases to SHP or ZIP or its URL ends in ".zip", letter case
    aside. *)
Theorem catalog_last_entry_wins (py : Python) (rs : list Resource) (name url : string) :
  catalog_of py rs !! name = Some url <->
  exists before res after,
    rs = before ++ res :: after /\
    eligible py res /\ res_name res = Some name /\ res_url res = Some url /\
    forall r, r ∈ after -> ~ (eligible py r /\ res_name r = Some name).
Proof. apply collect_resources_last. Qed.

Lemma collect_resources_app (py : Python) (l1 l2 : list Resource) :
  collect_resources py (l1 ++ l2) = collect_resources py l2 ∪ collect_resources py l1.
Proof.
  induction l2 as [|r l2 IH] using rev_ind.
  - rewrite app_nil_r. unfold collect_resources at 2. simpl.
    symmetry. apply (left_id_L ∅ (∪)).
  - rewrite app_assoc, !collect_resources_snoc, !add_resource_binding, IH.
    destruct (resource_binding py r) as [[n u]|]; [|reflexivity].
    apply insert_union_l.
Qed.

(** X2.  The mapping of a catalogue listed in two parts is the mapping of
    the second part, completed by the mapping of the first for the names
    the second does not hold. *)
Theorem catalog_of_app (py : Python) (l1 l2 : list Resource) :
  catalog_of py (l1 ++ l2) = catalog_of py l2 ∪ catalog_of py l1.
Proof. apply collect_resources_app. Qed.

(** ** The sort key and the displayed order *)

Lemma int_from_app (acc : Z) (a b : string) :
  int_from acc (a +:+ b) = int_from (int_from acc a) b.
Proof.
  revert acc. induction a as [|c a IH]; intros acc; [reflexivity|].
  rewrite str_app_cons. simpl. apply IH.
Qed.

Lemma all_digits_app (a b : string) :
  all_digits (a +:+ b) = all_digits a && all_digits b.
Proof.
  induction a as [|c a IH]; [reflexivity|].
  rewrite str_app_cons. simpl. rewrite IH, andb_assoc. reflexivity.
Qed.

Lemma pretty_N_char_digit (r : N) :
  (r < 10)%N ->
  is_digit (pretty_N_char r) = true /\ digit_value (pretty_N_char r) = Z.of_N r.
Proof.
  intros Hr.
  assert (H : (r = 0 \/ r = 1 \/ r = 2 \/ r = 3 \/ r = 4 \/ r = 5 \/ r = 6
              \/ r = 7 \/ r = 8 \/ r = 9)%N) by lia.
  repeat (destruct H as [-> | H]; [split; reflexivity|]). subst r. split; reflexivity.
Qed.

(** The digits that [pretty_N_go] puts before its accumulator read back as
    the number. *)
Lemma pretty_N_go_digits (x : N) (s : string) :
  exists d, pretty_N_go x s = d +:+ s /\ all_digits d = true /\
            int d = Z.of_N x /\ ((0 < x)%N -> d <> "").
Proof.
  revert s. induction (N.lt_wf_0 x) as [x _ IH]. intros s.
  destruct (decide (0 < x)%N) as [Hpos | Hzero].
  - rewrite pretty_N_go_step by exact Hpos.
    destruct (IH (x `div` 10)%N (N.div_lt x 10 Hpos eq_refl)
                (String (pretty_N_char (x `mod` 10)) s))
      as [d [Hd [Hall [Hint _]]]].
    destruct (pretty_N_char_digit (x `mod` 10)%N) as [Hdig Hval].
    { apply N.mod_lt. discriminate. }
    exists (d +:+ String (pretty_N_char (x `mod` 10)) "").
    split; [|split; [|split]].
    + rewrite Hd. clear. induction d as [|c d IHd]; [reflexivity|].
      rewrite !str_app_cons, IHd. reflexivity.
    + rewrite all_digits_app, Hall. simpl. rewrite Hdig. reflexivity.
    + rewrite int_snoc, Hint, Hval.
      rewrite (N.div_mod x 10) at 3 by discriminate. lia.
    + intros _. destruct d; discriminate.
  - assert (x = 0%N) as -> by lia. exists "". rewrite pretty_N_go_0.
    split; [reflexivity|]. split; [reflexivity|]. split; [reflexivity|]. lia.
Qed.

Lemma pretty_N_isdigit (n : N) : isdigit (pretty n) = true /\ int (pretty n) = Z.of_N n.
Proof.
  unfold pretty, pretty_N. destruct (decide (n = 0%N)) as [-> | Hn].
  - split; reflexivity.
  - destruct (pretty_N_go_digits n "") as [d [Hd [Hall [Hint Hne]]]].
    rewrite Hd, str_app_nil_r. split; [|exact Hint].
    destruct d; [exfalso; apply Hne; [lia | reflexivity] | exact Hall].
Qed.

(** X3.  A label that begins with the decimal numeral of [n] and a period
    has key [n], provided the numeral has at most 4300 digits; so numbered
    labels are ordered by number, "2." before "10.", and not by spelling. *)
Theorem get_sort_key_numbered (py : Python) (n m : N) (rest rest' : string) :
  String.length (pretty n) <= MAX_STR_DIGITS ->
  String.length (pretty m) <= MAX_STR_DIGITS ->
  get_sort_key py (numbered n rest) = Z.of_N n /\
  ((n < m)%N <->
   (get_sort_key py (numbered n rest) < get_sort_key py (numbered m rest'))%Z).
Proof.
  intros Hn Hm.
  assert (H : forall k r, String.length (pretty k) <= MAX_STR_DIGITS ->
                          get_sort_key py (numbered k r) = Z.of_N k).
  { intros k r Hk. destruct (pretty_N_isdigit k) as [Hd Hi].
    unfold numbered. rewrite <- Hi.
    apply (get_sort_key_digits py (pretty k) ("." +:+ r) Hd Hk).
    right. exists r. reflexivity. }
  split; [apply H, Hn|]. rewrite !H by assumption. lia.
Qed.

Lemma get_sort_key_numbered_witness :
  get_sort_key ascii_python (numbered 2 " Daugavpils") = 2%Z /\
  ((2 < 10)%N <->
   (get_sort_key ascii_python (numbered 2 " Daugavpils")
    < get_sort_key ascii_python (numbered 10 " Jelgava"))%Z).
Proof.
  apply (get_sort_key_numbered ascii_python 2 10 " Daugavpils" " Jelgava");
    vm_compute; lia.
Defined.

(** Beyond that length the number is lost: the key is the sentinel. *)
Lemma get_sort_key_numbered_long (py : Python) (n : N) (rest : string) :
  MAX_STR_DIGITS < String.length (pretty n) ->
  get_sort_key py (numbered n rest) = SENTINEL.
Proof.
  intros Hn. destruct (pretty_N_isdigit n) as [Hd _]. unfold numbered.
  apply (get_sort_key_long py (pretty n) ("." +:+ rest) Hd Hn).
  right. exists rest. reflexivity.
Qed.

Lemma insert_sorted_perm {A : Type} (key : A -> Z) (x : A) (l : list A) :
  insert_sorted key x l ≡ₚ x :: l.
Proof.
  induction l as [|y l IH]; simpl; [reflexivity|].
  destruct (key x <=? key y)%Z; [reflexivity|].
  rewrite IH. apply Permutation_swap.
Qed.

Lemma sorted_perm {A : Type} (key : A -> Z) (l : list A) : sorted key l ≡ₚ l.
Proof.
  induction l as [|x l IH]; simpl; [reflexivity|].
  rewrite insert_sorted_perm, IH. reflexivity.
Qed.

Lemma insert_sorted_ordered {A : Type} (key : A -> Z) (x : A) (l : list A) :
  StronglySorted (fun a b => (key a <= key b)%Z) l ->
  StronglySorted (fun a b => (key a <= key b)%Z) (insert_sorted key x l).
Proof.
  induction l as [|y l IH]; intros Hs; simpl.
  - constructor; constructor.
  - destruct (Z.leb_spec (key x) (key y)) as [Hle | Hgt].
    + constructor; [exact Hs|]. apply StronglySorted_inv in Hs as [_ Hy].
      constructor; [exact Hle|].
      eapply Forall_impl; [exact Hy|]. simpl. intros a Ha. lia.
    + apply StronglySorted_inv in Hs as [Hl Hy].
      constructor; [apply IH, Hl|].
      rewrite insert_sorted_perm. constructor; [lia | exact Hy].
Qed.

Lemma sorted_ordered {A : Type} (key : A -> Z) (l : list A) :
  StronglySorted (fun a b => (key a <= key b)%Z) (sorted key l).
Proof.
  induction l as [|x l IH]; simpl; [constructor|].
  apply insert_sorted_ordered, IH.
Qed.

Lemma insert_sorted_filter {A : Type} (key : A -> Z) (k : Z) (x : A) (l : list A) :
  filter (fun y => key y = k) (insert_sorted key x l)
  = filter (fun y => key y = k) (x :: l).
Proof.
  induction l as [|y l IH]; simpl; [reflexivity|].
  destruct (Z.leb_spec (key x) (key y)) as [Hle | Hgt]; [reflexivity|].
  rewrite filter_cons, IH, !filter_cons.
  destruct (decide (key y = k)), (decide (key x = k)); try reflexivity. lia.
Qed.

Lemma sorted_stable {A : Type} (key : A -> Z) (k : Z) (l : list A) :
  filter (fun y => key y = k) (sorted key l) = filter (fun y => key y = k) l.
Proof.
  induction l as [|x l IH]; simpl; [reflexivity|].
  rewrite insert_sorted_filter, !filter_cons, IH. reflexivity.
Qed.

Lemma catalog_keys_snoc (py : Python) (rs : list Resource) (r : Resource) :
  catalog_keys py (rs ++ [r]) = add_key py (catalog_keys py rs) r.
Proof. unfold catalog_keys. rewrite fold_left_app. reflexivity. Qed.

(** The key list holds each key of the mapping once. *)
Lemma catalog_keys_spec (py : Python) (rs : list Resource) :
  NoDup (catalog_keys py rs) /\
  forall name, name ∈ catalog_keys py rs <-> is_Some (collect_resources py rs !! name).
Proof.
  induction rs as [|r rs [IHnd IHin]] using rev_ind.
  - split; [constructor|]. intros name. unfold collect_resources. simpl.
    rewrite lookup_empty. split; [intros H; inversion H | intros [u H]; discriminate].
  - rewrite catalog_keys_snoc, collect_resources_snoc, add_resource_binding.
    unfold add_key. destruct (resource_binding py r) as [[n u]|]; [|split; assumption].
    destruct (bool_decide_reflect (n ∈ catalog_keys py rs)) as [Hin | Hnin].
    + split; [exact IHnd|]. intros name. rewrite IHin.
      destruct (decide (n = name)) as [<- | Hne].
      * rewrite lookup_insert_eq. apply IHin in Hin. split; [eauto | intros _; exact Hin].
      * rewrite lookup_insert_ne by exact Hne. reflexivity.
    + split.
      * apply NoDup_app. split; [exact IHnd|]. split; [|apply NoDup_singleton].
        intros x Hx Hx'. apply list_elem_of_singleton in Hx'. subst x. contradiction.
      * intros name. rewrite elem_of_app, list_elem_of_singleton, IHin.
        destruct (decide (n = name)) as [<- | Hne].
        -- rewrite lookup_insert_eq. split; [eauto | intros _; right; reflexivity].
        -- rewrite lookup_insert_ne by exact Hne. split; [|tauto].
           intros [H | H]; [exact H | congruence].
Qed.

(** X4.  The names offered for selection are exactly the keys of the
    mapping, each once, in ascending order of their sort keys. *)
Theorem territory_names_spec (py : Python) (rs : list Resource) :
  (forall name, name ∈ territory_names py rs <-> is_Some (catalog_of py rs !! name)) /\
  NoDup (territory_names py rs) /\
  StronglySorted (fun a b => (get_sort_key py a <= get_sort_key py b)%Z)
    (territory_names py rs).
Proof.
  destruct (catalog_keys_spec py rs) as [Hnd Hin]. unfold territory_names.
  split; [|split].
  - intros name. rewrite sorted_perm. apply Hin.
  - rewrite sorted_perm. exact Hnd.
  - apply sorted_ordered.
Qed.

(** X5.  Names with equal sort keys, such as all the names without a
    number, are offered in the order in which the catalogue first listed
    them. *)
Theorem territory_names_stable (py : Python) (rs : list Resource) (k : Z) :
  filter (fun name => get_sort_key py name = k) (territory_names py rs)
  = filter (fun name => get_sort_key py name = k) (catalog_keys py rs).
Proof. apply sorted_stable. Qed.

(** A small catalogue in displayed order: the numbered names by number,
    then the others as the catalogue listed them. *)
Example territory_names_sample :
  territory_names ascii_python
    [ {| res_name := Some "10. Jelgava"; res_format := Some "ZIP";
         res_url := Some "https://x/jelgava.zip" |};
      {| res_name := Some "Visa Latvija"; res_format := Some "ZIP";
         res_url := Some "https://x/lv.zip" |};
      {| res_name := Some "2. Daugavpils"; res_format := Some "ZIP";
         res_url := Some "https://x/daugavpils.zip" |};
      {| res_name := Some "Arhivs"; res_format := Some "ZIP";
         res_url := Some "https://x/arhivs.zip" |};
      {| res_name := Some "1. Riga"; res_format := Some "ZIP";
         res_url := Some "https://x/riga.zip" |} ]
  = ["1. Riga"; "2. Daugavpils"; "10. Jelgava"; "Visa Latvija"; "Arhivs"].
Proof. reflexivity. Qed.

(** ** The merge, continued *)

Lemma canonical_app (fs : gmap string FileObj) (l1 l2 : list string)
    (canon : Shapefile) :
  canonical fs l1 canon -> canonical fs (l1 ++ l2) canon.
Proof.
  intros [before [p [after [-> [Hr [Hl Hb]]]]]].
  exists before, p, (after ++ l2). rewrite <- app_assoc.
  split; [reflexivity|]. split; [exact Hr|]. split; [exact Hl | exact Hb].
Qed.

Lemma merged_writer_success (lib : Library) (fs : gmap string FileObj)
    (file_paths : list string) (output_path : string) (eff : Effects) :
  merge_shapefiles lib fs file_paths output_path = (Returns true, eff) ->
  merged_writer lib fs file_paths output_path = eff_writer eff.
Proof. intros Hm. unfold merged_writer. rewrite Hm. reflexivity. Qed.

(** X6.  On success the writer holds at least as many records as
    geometries and at most what the listed paths contribute; when it
    refuses no record and no geometry, the output holds, in the order of
    the list, what each path contributes, each path's records in the
    file's own order, and the attribute records and the geometries written
    are equal in number. *)
Theorem merge_output_in_list_order (lib : Library) (fs : gmap string FileObj)
    (file_paths : list string) (output_path : string) (eff : Effects) :
  merge_shapefiles lib fs file_paths output_path = (Returns true, eff) ->
  exists canon w,
    canonical fs file_paths canon /\
    merged_writer lib fs file_paths output_path = Some w /\
    length (w_shapes w) <= length (w_records w) /\
    length (w_records w) <= length (flat_map (contribution fs canon) file_paths) /\
    (accepting lib ->
     w_records w = map sr_record (flat_map (contribution fs canon) file_paths) /\
     w_shapes w = map sr_shape (flat_map (contribution fs canon) file_paths) /\
     length (w_records w) = length (w_shapes w)).
Proof.
  intros Hm.
  destruct (merge_shapefiles_writer lib fs file_paths output_path eff Hm)
    as [canon [w [Hc [_ [Hw [_ [_ [_ [Hle [Hsh Hacc]]]]]]]]]].
  exists canon, w. split; [exact Hc|].
  split; [rewrite (merged_writer_success _ _ _ _ _ Hm); exact Hw|].
  split; [exact Hsh|]. split; [exact Hle|].
  intros Ha. destruct (Hacc Ha) as [Hr Hs].
  split; [exact Hr|]. split; [exact Hs|]. rewrite Hr, Hs, !length_map. reflexivity.
Qed.

Lemma merge_output_in_list_order_witness :
  exists canon w,
    canonical sample_fs
      ["/tmp/w/jelgava/KKParcel.shp"; "/tmp/w/wider/KKParcel.shp";
       "/tmp/w/riga/KKParcel.shp"] canon /\
    merged_writer quiet sample_fs
      ["/tmp/w/jelgava/KKParcel.shp"; "/tmp/w/wider/KKParcel.shp";
       "/tmp/w/riga/KKParcel.shp"] "/tmp/w/Parcels_merged.shp" = Some w /\
    length (w_shapes w) <= length (w_records w) /\
    length (w_records w)
    <= length (flat_map (contribution sample_fs canon)
                 ["/tmp/w/jelgava/KKParcel.shp"; "/tmp/w/wider/KKParcel.shp";
                  "/tmp/w/riga/KKParcel.shp"]) /\
    (accepting quiet ->
     w_records w
     = map sr_record
         (flat_map (contribution sample_fs canon)
            ["/tmp/w/jelgava/KKParcel.shp"; "/tmp/w/wider/KKParcel.shp";
             "/tmp/w/riga/KKParcel.shp"]) /\
     w_shapes w
     = map sr_shape
         (flat_map (contribution sample_fs canon)
            ["/tmp/w/jelgava/KKParcel.shp"; "/tmp/w/wider/KKParcel.shp";
             "/tmp/w/riga/KKParcel.shp"]) /\
     length (w_records w) = length (w_shapes w)).
Proof.
  apply (merge_output_in_list_order quiet sample_fs _ "/tmp/w/Parcels_merged.shp"
           (merge_shapefiles quiet sample_fs
              ["/tmp/w/jelgava/KKParcel.shp"; "/tmp/w/wider/KKParcel.shp";
               "/tmp/w/riga/KKParcel.shp"] "/tmp/w/Parcels_merged.shp").2).
  reflexivity.
Defined.

Lemma contribution_unusable (fs : gmap string FileObj) (canon : Shapefile)
    (path : string) :
  1 < length (sf_fields canon) -> ~ usable fs path ->
  contribution fs canon path = [].
Proof.
  intros Hl Hnot. unfold contribution.
  destruct (Reader fs path) as [sf|] eqn:Hr; [|reflexivity].
  destruct (Nat.eqb_spec (length (sf_fields sf)) (length (sf_fields canon)))
    as [He | _]; [|reflexivity].
  exfalso. apply Hnot. exists sf. split; [exact Hr | lia].
Qed.

Lemma flat_map_nil {A B : Type} (f : A -> list B) (l : list A) :
  (forall x, x ∈ l -> f x = []) -> flat_map f l = [].
Proof.
  induction l as [|x l IH]; intros H; [reflexivity|]. simpl.
  rewrite (H x), IH; [reflexivity | | apply list_elem_of_here].
  intros y Hy. apply H, list_elem_of_further, Hy.
Qed.

(** X7.  The paths listed before the canonical source add nothing, and the
    canonical source is itself merged: when the merge succeeds with a
    writer that refuses no record and no geometry, the output begins with
    the records read from the canonical source (all of its records when it
    is sound), followed by what the later paths contribute. *)
Theorem merge_output_starts_with_canonical (lib : Library) (fs : gmap string FileObj)
    (before after : list string) (path output_path : string) (eff : Effects)
    (canon : Shapefile) :
  merge_shapefiles lib fs (before ++ path :: after) output_path = (Returns true, eff) ->
  accepting lib ->
  Reader fs path = Some canon ->
  1 < length (sf_fields canon) ->
  (forall q, q ∈ before -> ~ usable fs q) ->
  exists w,
    eff_writer eff = Some w /\
    w_records w
    = map sr_record (iterShapeRecords canon).1
      ++ map sr_record (flat_map (contribution fs canon) after) /\
    (sf_damage canon = None ->
     map sr_record (sf_records canon) `prefix_of` w_records w).
Proof.
  intros Hm Ha Hr Hl Hb.
  assert (Hc : canonical fs (before ++ path :: after) canon).
  { exists before, path, after. repeat split; assumption. }
  destruct (merge_shapefiles_writer lib fs _ output_path eff Hm)
    as [canon' [w [Hc' [_ [Hw [_ [_ [_ [_ [_ Hacc]]]]]]]]]].
  rewrite (canonical_unique _ _ _ _ Hc' Hc) in Hacc.
  destruct (Hacc Ha) as [Hrec _].
  exists w. split; [exact Hw|].
  assert (Heq : w_records w
                = map sr_record (iterShapeRecords canon).1
                  ++ map sr_record (flat_map (contribution fs canon) after)).
  { rewrite Hrec, flat_map_app, flat_map_nil.
    - simpl. unfold contribution at 1. rewrite Hr, Nat.eqb_refl, map_app. reflexivity.
    - intros q Hq. apply contribution_unusable; [exact Hl | apply Hb, Hq]. }
  split; [exact Heq|]. intros Hsound. rewrite Heq.
  unfold iterShapeRecords. rewrite Hsound. simpl. apply prefix_app_r. reflexivity.
Qed.

Lemma merge_output_starts_with_canonical_witness :
  exists w,
    eff_writer
      (merge_shapefiles quiet sample_fs
         (["/tmp/w/missing/KKParcel.shp"] ++ "/tmp/w/riga/KKParcel.shp"
            :: ["/tmp/w/jelgava/KKParcel.shp"]) "/tmp/w/Parcels_merged.shp").2
    = Some w /\
    w_records w
    = map sr_record (iterShapeRecords riga_parcels).1
      ++ map sr_record (flat_map (contribution sample_fs riga_parcels)
                          ["/tmp/w/jelgava/KKParcel.shp"]) /\
    (sf_damage riga_parcels = None ->
     map sr_record (sf_records riga_parcels) `prefix_of` w_records w).
Proof.
  apply (merge_output_starts_with_canonical quiet sample_fs
           ["/tmp/w/missing/KKParcel.shp"] ["/tmp/w/jelgava/KKParcel.shp"]
           "/tmp/w/riga/KKParcel.shp" "/tmp/w/Parcels_merged.shp").
  - reflexivity.
  - split; [|split]; intros; reflexivity.
  - reflexivity.
  - simpl. lia.
  - intros q Hq [sf [Hsf _]]. apply list_elem_of_singleton in Hq. subst q.
    discriminate Hsf.
Defined.

(** X8.  Listing further paths after a list whose merge succeeds changes
    neither the canonical source nor the output schema, and the records
    and geometries merged from the shorter list are the beginning of those
    merged from the longer one; what follows them is what the further
    paths contribute, when the writer refuses no record and no geometry. *)
Theorem merge_more_paths_extends_output (lib : Library) (fs : gmap string FileObj)
    (l1 l2 : list string) (output_path : string) (eff : Effects) :
  merge_shapefiles lib fs l1 output_path = (Returns true, eff) ->
  exists canon w1 w12 rs ss,
    canonical fs l1 canon /\ canonical fs (l1 ++ l2) canon /\
    merged_writer lib fs l1 output_path = Some w1 /\
    merged_writer lib fs (l1 ++ l2) output_path = Some w12 /\
    w_fields w12 = w_fields w1 /\
    w_records w12 = w_records w1 ++ rs /\
    w_shapes w12 = w_shapes w1 ++ ss /\
    (accepting lib ->
     rs = map sr_record (flat_map (contribution fs canon) l2) /\
     ss = map sr_shape (flat_map (contribution fs canon) l2)).
Proof.
  intros Hm.
  destruct (merge_shapefiles_returns_true lib fs l1 output_path eff Hm)
    as [path0 [rest [canon [w0 [w1 [-> [Hc [Hrec [Hwe [Hcopy [Hloop [_ [Hw _]]]]]]]]]]]]].
  pose proof (canonical_app fs _ l2 canon Hc) as Hc'.
  destruct (fold_left (merge_one lib fs canon) l2 (w1, eff_stdout eff))
    as [w2 out2] eqn:Hl2.
  destruct (merge_loop_spec lib fs canon _ _ _ _ _ Hl2) as [rs [ss [Hw2 [_ [_ Hacc]]]]].
  exists canon, (Writer_close w1),
    (match close_error lib w2 with Some _ => w2 | None => Writer_close w2 end), rs, ss.
  split; [exact Hc|]. split; [exact Hc'|].
  split; [rewrite (merged_writer_success _ _ _ _ _ Hm); exact Hw|].
  split.
  { unfold merged_writer.
    change ((path0 :: rest) ++ l2) with (path0 :: (rest ++ l2)) in *.
    rewrite (merge_shapefiles_run lib fs path0 (rest ++ l2) output_path canon Hwe Hc' Hrec).
    rewrite Hcopy.
    change (path0 :: (rest ++ l2)) with ((path0 :: rest) ++ l2).
    rewrite fold_left_app, Hloop, Hl2.
    apply finish_writer. }
  subst w2. destruct (close_error lib _); simpl;
    (split; [reflexivity|]; split; [reflexivity|]; split; [reflexivity | exact Hacc]).
Qed.

Lemma merge_more_paths_extends_output_witness :
  exists canon w1 w12 rs ss,
    canonical sample_fs ["/tmp/w/riga/KKParcel.shp"] canon /\
    canonical sample_fs (["/tmp/w/riga/KKParcel.shp"] ++ ["/tmp/w/damaged/KKParcel.shp"])
      canon /\
    merged_writer quiet sample_fs ["/tmp/w/riga/KKParcel.shp"] "/tmp/w/out.shp" = Some w1 /\
    merged_writer quiet sample_fs
      (["/tmp/w/riga/KKParcel.shp"] ++ ["/tmp/w/damaged/KKParcel.shp"])
      "/tmp/w/out.shp" = Some w12 /\
    w_fields w12 = w_fields w1 /\
    w_records w12 = w_records w1 ++ rs /\
    w_shapes w12 = w_shapes w1 ++ ss /\
    (accepting quiet ->
     rs = map sr_record (flat_map (contribution sample_fs canon)
                           ["/tmp/w/damaged/KKParcel.shp"]) /\
     ss = map sr_shape (flat_map (contribution sample_fs canon)
                          ["/tmp/w/damaged/KKParcel.shp"])).
Proof.
  apply (merge_more_paths_extends_output quiet sample_fs ["/tmp/w/riga/KKParcel.shp"]
           ["/tmp/w/damaged/KKParcel.shp"] "/tmp/w/out.shp"
           (merge_shapefiles quiet sample_fs ["/tmp/w/riga/KKParcel.shp"]
              "/tmp/w/out.shp").2).
  reflexivity.
Defined.

Lemma merge_one_stdout (lib : Library) (fs : gmap string FileObj) (canon : Shapefile)
    (w : Writer) (out : list string) (path : string) :
  accepting lib ->
  length (merge_one lib fs canon (w, out) path).2
  = length out
    + (if fails_to_open fs path then 1 else 0)
    + (if breaks_off fs canon path then 1 else 0).
Proof.
  intros Ha. unfold merge_one, fails_to_open, breaks_off.
  destruct (Reader fs path) as [sf|].
  - rewrite bool_decide_eq_false_2 by discriminate.
    destruct (length (sf_fields sf) =? length (sf_fields canon)); simpl; [|lia].
    destruct (iterShapeRecords sf) as [recs read_err]. simpl.
    destruct (write_records lib w recs) as [w' write_err] eqn:Hw.
    destruct (write_records_spec lib recs w w' write_err Hw) as [j [i [_ [_ [_ [_ [_ Hn]]]]]]].
    rewrite (Hn Ha). destruct read_err as [e|]; simpl.
    + rewrite length_app. simpl. lia.
    + lia.
  - rewrite bool_decide_eq_true_2 by reflexivity. simpl. rewrite length_app. simpl. lia.
Qed.

Lemma merge_loop_stdout (lib : Library) (fs : gmap string FileObj) (canon : Shapefile)
    (file_paths : list string) (w : Writer) (out : list string) :
  accepting lib ->
  length (fold_left (merge_one lib fs canon) file_paths (w, out)).2
  = length out
    + length (List.filter (fails_to_open fs) file_paths)
    + length (List.filter (breaks_off fs canon) file_paths).
Proof.
  intros Ha. revert w out. induction file_paths as [|path rest IH]; intros w out.
  - simpl. lia.
  - cbn [fold_left List.filter].
    pose proof (merge_one_stdout lib fs canon w out path Ha) as Hstep.
    destruct (merge_one lib fs canon (w, out) path) as [w' out'].
    rewrite IH. simpl in Hstep. rewrite Hstep.
    destruct (fails_to_open fs path), (breaks_off fs canon path); simpl; lia.
Qed.

(** X9.  A successful merge whose writer refuses no record and no geometry
    prints one line for each listed path that does not open and one for
    each path that opens with the canonical number of field descriptors
    and cannot be read to its end, and nothing else: a path skipped for its
    number of field descriptors is skipped silently. *)
Theorem merge_prints_one_line_per_failure (lib : Library) (fs : gmap string FileObj)
    (file_paths : list string) (output_path : string) (eff : Effects) :
  merge_shapefiles lib fs file_paths output_path = (Returns true, eff) ->
  accepting lib ->
  exists canon,
    canonical fs file_paths canon /\
    length (eff_stdout eff)
    = length (List.filter (fails_to_open fs) file_paths)
      + length (List.filter (breaks_off fs canon) file_paths).
Proof.
  intros Hm Ha.
  destruct (merge_shapefiles_returns_true lib fs _ output_path eff Hm)
    as [path0 [rest [canon [w0 [w1 [_ [Hc [_ [_ [_ [Hloop _]]]]]]]]]]].
  exists canon. split; [exact Hc|].
  pose proof (merge_loop_stdout lib fs canon file_paths w0 [] Ha) as Hout.
  rewrite Hloop in Hout. simpl in Hout. exact Hout.
Qed.

Lemma merge_prints_one_line_per_failure_witness :
  exists canon,
    canonical sample_fs
      ["/tmp/w/missing/KKParcel.shp"; "/tmp/w/riga/KKParcel.shp";
       "/tmp/w/wider/KKParcel.shp"; "/tmp/w/damaged/KKParcel.shp"] canon /\
    length
      (eff_stdout
         (merge_shapefiles quiet sample_fs
            ["/tmp/w/missing/KKParcel.shp"; "/tmp/w/riga/KKParcel.shp";
             "/tmp/w/wider/KKParcel.shp"; "/tmp/w/damaged/KKParcel.shp"]
            "/tmp/w/Parcels_merged.shp").2)
    = length (List.filter (fails_to_open sample_fs)
                ["/tmp/w/missing/KKParcel.shp"; "/tmp/w/riga/KKParcel.shp";
                 "/tmp/w/wider/KKParcel.shp"; "/tmp/w/damaged/KKParcel.shp"])
      + length (List.filter (breaks_off sample_fs canon)
                  ["/tmp/w/missing/KKParcel.shp"; "/tmp/w/riga/KKParcel.shp";
                   "/tmp/w/wider/KKParcel.shp"; "/tmp/w/damaged/KKParcel.shp"]).
Proof.
  apply (merge_prints_one_line_per_failure quiet sample_fs _ "/tmp/w/Parcels_merged.shp").
  - reflexivity.
  - split; [|split]; intros; reflexivity.
Defined.

(** X10.  When the first listed path does not contain ".shp" in lower
    case, the path taken for its projection sidecar is the first path
    itself: a merge that returns success has copied that file to the
    output's projection path when it exists, and has copied nothing when
    it does not. *)
Theorem merge_copy_without_lowercase_shp (lib : Library) (fs : gmap string FileObj)
    (path0 : string) (rest : list string) (output_path : string) (eff : Effects) :
  merge_shapefiles lib fs (path0 :: rest) output_path = (Returns true, eff) ->
  contains path0 ".shp" = false ->
  eff_copy eff
  = if path_exists fs path0
    then Some (path0, replace output_path ".shp" ".prj") else None.
Proof.
  intros Hm Hno. rewrite (merge_shapefiles_copy _ _ _ _ _ _ Hm).
  rewrite (replace_absent _ _ _ Hno). reflexivity.
Qed.

Lemma merge_copy_without_lowercase_shp_witness :
  eff_copy (merge_shapefiles quiet sample_fs
              ("/tmp/w/upper/KKParcel.SHP" :: ["/tmp/w/riga/KKParcel.shp"])
              "/tmp/w/Parcels_merged.shp").2
  = if path_exists sample_fs "/tmp/w/upper/KKParcel.SHP"
    then Some ("/tmp/w/upper/KKParcel.SHP",
               replace "/tmp/w/Parcels_merged.shp" ".shp" ".prj")
    else None.
Proof.
  apply (merge_copy_without_lowercase_shp quiet sample_fs "/tmp/w/upper/KKParcel.SHP"
           ["/tmp/w/riga/KKParcel.shp"] "/tmp/w/Parcels_merged.shp").
  - reflexivity.
  - reflexivity.
Defined.

(** X11.  For lower-case ".shp" paths without another period, a merge that
    returns success has copied the sidecar of the first listed path when
    it exists, whichever path is the canonical source, and has copied
    nothing when it does not. *)
Theorem merge_shapefiles_copy_lowercase (lib : Library) (fs : gmap string FileObj)
    (base0 out_base : string) (rest : list string) (eff : Effects) :
  merge_shapefiles lib fs ((base0 +:+ ".shp") :: rest) (out_base +:+ ".shp")
  = (Returns true, eff) ->
  has_char "." base0 = false -> has_char "." out_base = false ->
  eff_copy eff
  = if path_exists fs (base0 +:+ ".prj")
    then Some (base0 +:+ ".prj", out_base +:+ ".prj") else None.
Proof.
  intros Hm H0 Hout. rewrite (merge_shapefiles_copy _ _ _ _ _ _ Hm).
  rewrite (replace_shp_prj _ H0), (replace_shp_prj _ Hout). reflexivity.
Qed.

Lemma merge_shapefiles_copy_lowercase_witness :
  eff_copy (merge_shapefiles quiet sample_fs
              (("/tmp/w/riga/KKParcel" +:+ ".shp") :: ["/tmp/w/jelgava/KKParcel.shp"])
              ("/tmp/w/Parcels_merged" +:+ ".shp")).2
  = if path_exists sample_fs ("/tmp/w/riga/KKParcel" +:+ ".prj")
    then Some ("/tmp/w/riga/KKParcel" +:+ ".prj", "/tmp/w/Parcels_merged" +:+ ".prj")
    else None.
Proof.
  apply (merge_shapefiles_copy_lowercase quiet sample_fs "/tmp/w/riga/KKParcel"
           "/tmp/w/Parcels_merged" ["/tmp/w/jelgava/KKParcel.shp"]).
  - reflexivity.
  - reflexivity.
  - reflexivity.
Defined.

(** X12.  The merge returns failure exactly when the list is empty or,
    the writer having been constructed, none of its paths opens with more
    than one field descriptor or the first that does holds no records.
    When it returns failure, nothing has been passed to the writer and
    nothing is copied; when it returns success, the writer it leaves is
    closed and targets the output path. *)
Theorem merge_shapefiles_outcome (lib : Library) (fs : gmap string FileObj)
    (file_paths : list string) (output_path : string) :
  let r := merge_shapefiles lib fs file_paths output_path in
  (r.1 = Returns false <->
   file_paths = [] \/
   (writer_error lib output_path = None /\
    ((forall p, p ∈ file_paths -> ~ usable fs p) \/
     exists canon, canonical fs file_paths canon /\ sf_records canon = []))) /\
  (r.1 = Returns false ->
   eff_copy r.2 = None /\
   forall w, eff_writer r.2 = Some w -> w = Writer_new output_path) /\
  (r.1 = Returns true ->
   exists w, eff_writer r.2 = Some w /\ w_closed w = true /\
             w_target w = output_path).
Proof.
  intros r. subst r. split; [apply merge_shapefiles_false_iff|]. split.
  - unfold merge_shapefiles. destruct file_paths as [|path0 rest].
    { intros _. split; [reflexivity | discriminate]. }
    destruct (writer_error lib output_path); [discriminate|].
    assert (Hnv : forall w, eff_copy (no_valid_shapefiles w output_path).2 = None /\
                            eff_writer (no_valid_shapefiles w output_path).2 = Some w).
    { intros w. split; reflexivity. }
    destruct (find_first_sf fs (path0 :: rest)) as [canon|].
    + destruct (length (sf_records canon) =? 0).
      * intros _. split; [reflexivity|]. intros w [= <-]. reflexivity.
      * destruct (copy_fields lib _ _) as [w [e|]]; [discriminate|].
        destruct (fold_left _ _ _) as [w1 out]. unfold finish.
        destruct (close_error lib w1); [discriminate|].
        destruct (path_exists fs _); [|discriminate].
        destruct (copy_error lib _ _); discriminate.
    + intros _. split; [reflexivity|]. intros w [= <-]. reflexivity.
  - intros Hm.
    destruct (merge_shapefiles lib fs file_paths output_path) as [res eff] eqn:H.
    simpl in Hm. subst res.
    destruct (merge_shapefiles_writer lib fs _ _ _ H)
      as [canon [w [_ [_ [Hw [Ht [Hcl _]]]]]]].
    exists w. split; [exact Hw|]. split; [exact Hcl | exact Ht].
Qed.

Lemma merge_shapefiles_outcome_witness :
  exists w,
    eff_writer (merge_shapefiles quiet sample_fs ["/tmp/w/riga/KKParcel.shp"]
                  "/tmp/w/Parcels_merged.shp").2 = Some w /\
    w_closed w = true /\ w_target w = "/tmp/w/Parcels_merged.shp".
Proof.
  apply (proj2 (proj2 (merge_shapefiles_outcome quiet sample_fs
                         ["/tmp/w/riga/KKParcel.shp"] "/tmp/w/Parcels_merged.shp"))).
  reflexivity.
Defined.

(** ** The run over the selected territories *)

Lemma selects_spec (py : Python) (selected_types : list string) (c : Category)
    (filename : string) :
  selects py selected_types c filename = true <->
  requested selected_types c /\ matches_category c filename.
Proof. unfold selects. rewrite wanted_spec, requested_spec. reflexivity. Qed.

(** One archive all of whose members extract adds its matching entries to
    what earlier archives left. *)
Lemma extract_archive_primary_paths (py : Python) (temp_dir : string)
    (selected_types : list string) (z : Archive) (st : Extraction) (c : Category) :
  extracts_all z ->
  (extract_archive py temp_dir selected_types z st).2 = None /\
  primary_paths c (extract_archive py temp_dir selected_types z st).1
  = primary_paths c st
    ++ map (os_path_join temp_dir)
         (List.filter (selects py selected_types c) (zip_namelist z)).
Proof.
  intros Hall. unfold extract_archive.
  rewrite (extract_fold py temp_dir _ _ z _ _ Hall). split; [reflexivity|].
  destruct c; reflexivity.
Qed.

(** An archive adds nothing to a category that is not enabled, whether or
    not its extraction fails. *)
Lemma visit_entries_disabled (py : Python) (temp_dir : string) (dp db : bool)
    (z : Archive) (l : list string) (st : Extraction) :
  (dp = false ->
   parcels_to_merge (visit_entries py temp_dir dp db z l st).1 = parcels_to_merge st) /\
  (db = false ->
   buildings_to_merge (visit_entries py temp_dir dp db z l st).1
   = buildings_to_merge st).
Proof.
  revert st. induction l as [|f l IH]; intros st; [split; reflexivity|].
  cbn [visit_entries]. unfold visit_parcel, visit_building.
  split; intros ->.
  - unfold wanted at 1. cbn [andb].
    destruct (wanted py db Building f).
    + destruct (extract_members z _) as [done [e|]]; [reflexivity|].
      rewrite (proj1 (IH _) eq_refl). reflexivity.
    + apply (proj1 (IH _) eq_refl).
  - destruct (wanted py dp Parcel f).
    + destruct (extract_members z _) as [done [e|]]; [reflexivity|].
      unfold wanted at 1. cbn [andb]. rewrite (proj2 (IH _) eq_refl). reflexivity.
    + unfold wanted at 1. cbn [andb]. apply (proj2 (IH _) eq_refl).
Qed.

Lemma extract_archive_unselected (py : Python) (temp_dir : string)
    (selected_types : list string) (z : Archive) (st : Extraction) (c : Category) :
  ~ requested selected_types c ->
  primary_paths c (extract_archive py temp_dir selected_types z st).1
  = primary_paths c st.
Proof.
  intros Hreq. unfold extract_archive.
  assert (Hoff : bool_decide (type_name c ∈ selected_types) = false).
  { apply not_true_iff_false. intros H. apply Hreq, requested_spec, H. }
  destruct c; simpl.
  - apply (proj1 (visit_entries_disabled py temp_dir _ _ z _ st)), Hoff.
  - apply (proj2 (visit_entries_disabled py temp_dir _ _ z _ st)), Hoff.
Qed.

(** The state after one territory whose URL is [url]. *)
Lemma download_loop_cons (py : Python) (temp_dir : string) (selected_types : list string)
    (resource_map : gmap string string) (get : string -> Download)
    (name url : string) (rest : list string) (run : Run) :
  resource_map !! name = Some url ->
  exists run1,
    download_loop py temp_dir selected_types resource_map get (name :: rest) run
    = download_loop py temp_dir selected_types resource_map get rest run1 /\
    run_requests run1 = run_requests run ++ [url] /\
    (forall c,
       ~ requested selected_types c ->
       primary_paths c (run_extraction run1) = primary_paths c (run_extraction run)) /\
    ((forall z, get url = Opened z -> extracts_all z) ->
     (forall c,
        primary_paths c (run_extraction run1)
        = primary_paths c (run_extraction run)
          ++ match get url with
             | Opened z =>
                 map (os_path_join temp_dir)
                   (List.filter (selects py selected_types c) (zip_namelist z))
             | Failed _ => []
             end) /\
     length (run_stdout run1)
     = length (run_stdout run)
       + match get url with Failed _ => 1 | Opened _ => 0 end).
Proof.
  intros Hurl. cbn [download_loop]. rewrite Hurl.
  destruct (get url) as [e|z] eqn:Hget.
  - eexists. split; [reflexivity|]. simpl.
    split; [reflexivity|]. split; [reflexivity|]. intros _.
    split; [intros c; rewrite app_nil_r; reflexivity|].
    rewrite length_app. reflexivity.
  - destruct (extract_archive py temp_dir selected_types z (run_extraction run))
      as [st err] eqn:Hex.
    eexists. split; [reflexivity|]. simpl. split; [reflexivity|]. split.
    + intros c Hreq.
      pose proof (extract_archive_unselected py temp_dir selected_types z
                    (run_extraction run) c Hreq) as H.
      rewrite Hex in H. exact H.
    + intros Hall.
      destruct (extract_archive_primary_paths py temp_dir selected_types z
                  (run_extraction run) Parcel (Hall z eq_refl)) as [Herr _].
      rewrite Hex in Herr. simpl in Herr. subst err. split.
      * intros c.
        destruct (extract_archive_primary_paths py temp_dir selected_types z
                    (run_extraction run) c (Hall z eq_refl)) as [_ Hp].
        rewrite Hex in Hp. exact Hp.
      * rewrite app_nil_r. lia.
Qed.

(** The loop requests the URL of each selected territory, in order, as
    long as the names have URLs. *)
Lemma download_loop_requests (py : Python) (temp_dir : string)
    (selected_types : list string) (resource_map : gmap string string)
    (get : string -> Download) (selected_names : list string) (run : Run) :
  (forall n, n ∈ selected_names -> is_Some (resource_map !! n)) ->
  exists run',
    download_loop py temp_dir selected_types resource_map get selected_names run
    = (run', None) /\
    run_requests run' = run_requests run ++ omap (fun n => resource_map !! n) selected_names /\
    Forall2 (fun n u => resource_map !! n = Some u) selected_names
      (omap (fun n => resource_map !! n) selected_names).
Proof.
  revert run. induction selected_names as [|name rest IH]; intros run Hall.
  - exists run. simpl. rewrite app_nil_r. repeat split. constructor.
  - destruct (Hall name (list_elem_of_here _ _)) as [url Hurl].
    destruct (download_loop_cons py temp_dir selected_types resource_map get
                name url rest run Hurl) as [run1 [Heq [Hreq1 _]]].
    destruct (IH run1) as [run' [Hret [Hreq Hf2]]].
    { intros n Hn. apply Hall, list_elem_of_further, Hn. }
    exists run'. rewrite Heq. split; [exact Hret|].
    simpl. rewrite Hurl. simpl. split.
    + rewrite Hreq, Hreq1, <- app_assoc. reflexivity.
    + constructor; assumption.
Qed.

(** What the territories add to the primary paths of a category, when
    every archive that opens extracts in full. *)
Lemma download_loop_returns (py : Python) (temp_dir : string)
    (selected_types : list string) (resource_map : gmap string string)
    (get : string -> Download) (selected_names : list string) (run : Run) :
  (forall n, n ∈ selected_names -> is_Some (resource_map !! n)) ->
  (forall n z, n ∈ selected_names ->
               archive_at resource_map get n = Some (Opened z) -> extracts_all z) ->
  let run' :=
    (download_loop py temp_dir selected_types resource_map get selected_names run).1 in
  (forall c,
     primary_paths c (run_extraction run')
     = primary_paths c (run_extraction run)
       ++ flat_map
            (fun n =>
               match archive_at resource_map get n with
               | Some (Opened z) =>
                   map (os_path_join temp_dir)
                     (List.filter (selects py selected_types c) (zip_namelist z))
               | _ => []
               end)
            selected_names) /\
  length (run_stdout run')
  = length (run_stdout run)
    + length (List.filter (download_fails resource_map get) selected_names).
Proof.
  revert run. induction selected_names as [|name rest IH]; intros run Hall Hext.
  - simpl. split; [intros c; rewrite app_nil_r; reflexivity | lia].
  - destruct (Hall name (list_elem_of_here _ _)) as [url Hurl].
    destruct (download_loop_cons py temp_dir selected_types resource_map get
                name url rest run Hurl) as [run1 [Heq [_ [_ Hone]]]].
    assert (Ha : archive_at resource_map get name = Some (get url)).
    { unfold archive_at. rewrite Hurl. reflexivity. }
    destruct Hone as [Hp1 Hs1].
    { intros z Hz. apply (Hext name z); [apply list_elem_of_here|].
      rewrite Ha, Hz. reflexivity. }
    intros run'. subst run'. rewrite Heq.
    destruct (IH run1) as [Hp Hs].
    { intros n Hn. apply Hall, list_elem_of_further, Hn. }
    { intros n z Hn. apply Hext, list_elem_of_further, Hn. }
    split.
    + intros c. rewrite Hp, Hp1. cbn [flat_map]. rewrite Ha, <- app_assoc.
      destruct (get url); reflexivity.
    + rewrite Hs, Hs1. cbn [List.filter]. unfold download_fails at 2.
      rewrite Hurl. simpl. destruct (get url); simpl; lia.
Qed.

(** X13.  When every selected territory has a URL, the loop requests the
    URLs of the selected territories, one each and in the order selected;
    and when, besides, every archive that opens extracts in full, a
    territory whose download fails is passed over with one printed line,
    and for each category the primary paths are, territory after territory
    in that order, the matching entries of each archive in archive order,
    joined to the working directory. *)
Theorem download_loop_accumulates (py : Python) (temp_dir : string)
    (selected_types : list string) (resource_map : gmap string string)
    (get : string -> Download) (selected_names : list string) :
  (forall n, n ∈ selected_names -> is_Some (resource_map !! n)) ->
  exists run,
    download_loop py temp_dir selected_types resource_map get selected_names empty_run
    = (run, None) /\
    Forall2 (fun n u => resource_map !! n = Some u) selected_names
      (run_requests run) /\
    ((forall n z, n ∈ selected_names ->
                  archive_at resource_map get n = Some (Opened z) -> extracts_all z) ->
     (forall c,
        primary_paths c (run_extraction run)
        = flat_map
            (fun n =>
               match archive_at resource_map get n with
               | Some (Opened z) =>
                   map (os_path_join temp_dir)
                     (List.filter (selects py selected_types c) (zip_namelist z))
               | _ => []
               end)
            selected_names) /\
     length (run_stdout run)
     = length (List.filter (download_fails resource_map get) selected_names)).
Proof.
  intros Hall.
  destruct (download_loop_requests py temp_dir selected_types resource_map get
              selected_names empty_run Hall) as [run [Hret [Hreq Hf2]]].
  exists run. split; [exact Hret|]. split; [rewrite Hreq; exact Hf2|].
  intros Hext.
  destruct (download_loop_returns py temp_dir selected_types resource_map get
              selected_names empty_run Hall Hext) as [Hp Hs].
  rewrite Hret in Hp, Hs. simpl in Hp, Hs. split.
  - intros c. rewrite Hp. destruct c; reflexivity.
  - exact Hs.
Qed.

Lemma download_loop_accumulates_witness :
  exists run,
    download_loop ascii_python "/tmp/w" ["KKParcel"]
      (catalog_of ascii_python sample_catalog) sample_get
      ["1. Riga"; "10. Jelgava"] empty_run = (run, None) /\
    Forall2 (fun n u => catalog_of ascii_python sample_catalog !! n = Some u)
      ["1. Riga"; "10. Jelgava"] (run_requests run).
Proof.
  destruct (download_loop_accumulates ascii_python "/tmp/w" ["KKParcel"]
              (catalog_of ascii_python sample_catalog)
              sample_get ["1. Riga"; "10. Jelgava"]) as [run [Hret [Hreq _]]].
  - intros n Hn. apply list_elem_of_In in Hn. simpl in Hn.
    destruct Hn as [<- | [<- | []]]; vm_compute; eexists; reflexivity.
  - exists run. split; [exact Hret | exact Hreq].
Defined.

(** The sample run: both URLs are requested, the Jelgava failure is
    printed, and the Riga parcel file is the one primary path. *)
Example download_loop_sample :
  download_loop ascii_python "/tmp/w" ["KKParcel"]
    (catalog_of ascii_python sample_catalog) sample_get
    (territory_names ascii_python sample_catalog) empty_run
  = ({| run_extraction :=
          {| extracted := ["riga/KKParcel.shp"; "riga/KKParcel.prj";
                           "riga/KKParcelPart.shp"];
             parcels_to_merge := ["/tmp/w/riga/KKParcel.shp"];
             buildings_to_merge := [] |};
        run_requests := ["https://x/riga.zip"; "https://x/jelgava.zip"];
        run_stdout := ["Failed to process 10. Jelgava: 404 Client Error"] |},
     None).
Proof. reflexivity. Qed.

(** An archive whose second member cannot be extracted: the territory is
    reported as failed, yet what was extracted and listed before stays and
    is merged with the rest. *)
Example download_loop_partial_sample :
  let broken :=
    {| zip_namelist := ["a/KKParcel.shp"; "b/KKParcel.shp"; "b/KKParcel.dbf"];
       zip_extract_error := fun g =>
         if String.eqb g "b/KKParcel.dbf" then Some "Bad CRC-32" else None |} in
  download_loop ascii_python "/tmp/w" ["KKParcel"] {[ "1. Riga" := "https://x/riga.zip" ]}
    (fun _ => Opened broken) ["1. Riga"] empty_run
  = ({| run_extraction :=
          {| extracted := ["a/KKParcel.shp"; "b/KKParcel.shp"];
             parcels_to_merge := ["/tmp/w/a/KKParcel.shp"];
             buildings_to_merge := [] |};
        run_requests := ["https://x/riga.zip"];
        run_stdout := ["Failed to process 1. Riga: Bad CRC-32"] |},
     None).
Proof. reflexivity. Qed.

Lemma download_loop_raises (py : Python) (temp_dir : string)
    (selected_types : list string) (resource_map : gmap string string)
    (get : string -> Download) (before after : list string) (name : string) (run : Run) :
  (forall n, n ∈ before -> is_Some (resource_map !! n)) ->
  resource_map !! name = None ->
  exists run',
    download_loop py temp_dir selected_types resource_map get
      (before ++ name :: after) run = (run', Some (KeyError name)) /\
    run_requests run' = run_requests run ++ omap (fun n => resource_map !! n) before.
Proof.
  intros Hall Hname.
  destruct (download_loop_requests py temp_dir selected_types resource_map get
              before run Hall) as [run' [Hret [Hreq _]]].
  exists run'. split; [|exact Hreq]. clear Hreq.
  revert run Hret. induction before as [|b before IH]; intros run Hret.
  - simpl in *. injection Hret as ->. rewrite Hname. reflexivity.
  - destruct (Hall b (list_elem_of_here _ _)) as [url Hurl].
    cbn [app download_loop] in *. rewrite Hurl in *.
    apply IH; [|exact Hret]. intros n Hn. apply Hall, list_elem_of_further, Hn.
Qed.

Lemma first_missing (resource_map : gmap string string) (names : list string) :
  (forall n, n ∈ names -> is_Some (resource_map !! n))
  \/ exists before name after,
       names = before ++ name :: after /\
       (forall n, n ∈ before -> is_Some (resource_map !! n)) /\
       resource_map !! name = None.
Proof.
  induction names as [|x names IH].
  - left. intros n Hn. inversion Hn.
  - destruct (resource_map !! x) as [u|] eqn:Hx.
    + destruct IH as [Hall | [before [name [after [-> [Hb Hn]]]]]].
      * left. intros n Hn. apply elem_of_cons in Hn as [-> | Hn]; [eauto | apply Hall, Hn].
      * right. exists (x :: before), name, after. split; [reflexivity|].
        split; [|exact Hn]. intros n Hn'.
        apply elem_of_cons in Hn' as [-> | Hn']; [eauto | apply Hb, Hn'].
    + right. exists [], x, names. split; [reflexivity|]. split; [|exact Hx].
      intros n Hn. inversion Hn.
Qed.

(** X14.  The URL of a selected territory is looked up outside the loop's
    [try]: the run ends in the [KeyError] of that lookup exactly when some
    selected name is not a key of the mapping, and then with the first
    such name, after the URLs of the names before it have been requested
    and before any merge. *)
Theorem process_territories_key_error (lib : Library) (py : Python) (temp_dir : string)
    (selected_names : list string) (resource_map : gmap string string)
    (selected_types : list string) (get : string -> Download)
    (fs fs' : gmap string FileObj) :
  let r := process_territories lib py temp_dir selected_names resource_map
             selected_types get fs fs' in
  ((exists key, r.1 = Raised (KeyError key))
   <-> exists n, n ∈ selected_names /\ resource_map !! n = None) /\
  (forall before name after,
     selected_names = before ++ name :: after ->
     (forall n, n ∈ before -> is_Some (resource_map !! n)) ->
     resource_map !! name = None ->
     r.1 = Raised (KeyError name) /\
     Forall2 (fun n u => resource_map !! n = Some u) before r.2).
Proof.
  intros r. subst r.
  assert (Hfirst : forall before name after,
     selected_names = before ++ name :: after ->
     (forall n, n ∈ before -> is_Some (resource_map !! n)) ->
     resource_map !! name = None ->
     (process_territories lib py temp_dir selected_names resource_map
        selected_types get fs fs').1 = Raised (KeyError name) /\
     Forall2 (fun n u => resource_map !! n = Some u) before
       (process_territories lib py temp_dir selected_names resource_map
          selected_types get fs fs').2).
  { intros before name after -> Hb Hn. unfold process_territories.
    destruct (download_loop_raises py temp_dir selected_types resource_map get
                before after name empty_run Hb Hn) as [run' [Hret Hreq]].
    rewrite Hret. simpl. split; [reflexivity|]. rewrite Hreq. simpl.
    destruct (download_loop_requests py temp_dir selected_types resource_map get
                before empty_run Hb) as [_ [_ [_ Hf2]]]. exact Hf2. }
  split; [|exact Hfirst]. split.
  - intros [key He].
    destruct (first_missing resource_map selected_names)
      as [Hall | [before [name [after [Heq [Hb Hn]]]]]].
    + destruct (download_loop_requests py temp_dir selected_types resource_map get
                  selected_names empty_run Hall) as [run [Hret _]].
      unfold process_territories in He. rewrite Hret in He.
      destruct (merge_step lib fs temp_dir (run_extraction run)) as [files|e] eqn:Hs;
        [discriminate|].
      simpl in He. unfold merge_step in Hs.
      destruct (merge_category lib fs temp_dir (parcels_to_merge _) _) as [ps|e1] eqn:H1.
      * destruct (merge_category lib fs temp_dir (buildings_to_merge _) _)
          as [bs|e2] eqn:H2; [discriminate|].
        injection Hs as <-. unfold merge_category in H2.
        destruct (buildings_to_merge _); [discriminate|].
        destruct (merge_shapefiles _ _ _ _).1 as [[|]|]; congruence.
      * injection Hs as <-. unfold merge_category in H1.
        destruct (parcels_to_merge _); [discriminate|].
        destruct (merge_shapefiles _ _ _ _).1 as [[|]|]; congruence.
    + exists name. split; [|exact Hn]. rewrite Heq.
      apply elem_of_app. right. apply list_elem_of_here.
  - intros [n [Hin Hn]].
    destruct (first_missing resource_map selected_names)
      as [Hall | [before [name [after [Heq [Hb Hname]]]]]].
    + destruct (Hall n Hin) as [u Hu]. congruence.
    + exists name. apply (Hfirst before name after Heq Hb Hname).
Qed.

Lemma process_territories_key_error_witness :
  (process_territories quiet ascii_python "/tmp/w"
     (["1. Riga"] ++ "3. Liepaja" :: ["10. Jelgava"])
     (catalog_of ascii_python sample_catalog) ["KKParcel"] sample_get
     sample_fs merged_fs).1
  = Raised (KeyError "3. Liepaja").
Proof.
  apply (proj2 (process_territories_key_error quiet ascii_python "/tmp/w"
                  (["1. Riga"] ++ "3. Liepaja" :: ["10. Jelgava"])
                  (catalog_of ascii_python sample_catalog) ["KKParcel"] sample_get
                  sample_fs merged_fs) ["1. Riga"] "3. Liepaja" ["10. Jelgava"]).
  - reflexivity.
  - intros n Hn. apply list_elem_of_singleton in Hn. subst n.
    vm_compute. eexists. reflexivity.
  - reflexivity.
Defined.

(** ** From the primary paths to the archive *)

Lemma merge_returns_true_iff (lib : Library) (fs : gmap string FileObj)
    (file_paths : list string) (output_path : string) :
  (merge_shapefiles lib fs file_paths output_path).1 = Returns true ->
  exists canon, canonical fs file_paths canon /\ sf_records canon <> [].
Proof.
  destruct (merge_shapefiles lib fs file_paths output_path) as [res eff] eqn:Hm.
  simpl. intros ->.
  destruct (merge_shapefiles_writer lib fs _ _ _ Hm) as [canon [w [Hc [Hrec _]]]].
  exists canon. split; assumption.
Qed.

Lemma merge_returns_false_none (lib : Library) (fs : gmap string FileObj)
    (file_paths : list string) (output_path : string) (canon : Shapefile) :
  (merge_shapefiles lib fs file_paths output_path).1 = Returns false ->
  canonical fs file_paths canon -> sf_records canon = [].
Proof.
  intros Hm Hc. apply merge_shapefiles_false_iff in Hm as [-> | [_ [Hnone | [c [Hc' Hr]]]]].
  - exfalso. apply (canonical_nonempty _ _ _ Hc). reflexivity.
  - apply find_first_sf_none in Hnone. apply find_first_sf_spec in Hc. congruence.
  - rewrite (canonical_unique _ _ _ _ Hc Hc'). exact Hr.
Qed.

(** A category's base name is handed to the packager exactly when the
    category's canonical source has records. *)
Lemma merge_category_spec (lib : Library) (fs : gmap string FileObj)
    (temp_dir : string) (paths : list string) (base : string) (created : list string) :
  merge_category lib fs temp_dir paths base = Returned created ->
  (created = [base] \/ created = []) /\
  (created = [base] <-> exists canon, canonical fs paths canon /\ sf_records canon <> []).
Proof.
  intros H.
  destruct (merge_category_cases _ _ _ _ _ _ H) as [[-> [_ Hm]] | [-> Hm]].
  - split; [left; reflexivity|]. split; [intros _|reflexivity].
    apply (merge_returns_true_iff _ _ _ _ Hm).
  - split; [right; reflexivity|]. split; [discriminate|].
    intros [canon [Hc Hrec]]. exfalso. destruct Hm as [-> | Hm].
    + apply (canonical_nonempty _ _ _ Hc). reflexivity.
    + apply Hrec, (merge_returns_false_none _ _ _ _ _ Hm Hc).
Qed.

Lemma merge_step_spec (lib : Library) (fs : gmap string FileObj) (temp_dir : string)
    (st : Extraction) (files_created : list string) (c : Category) :
  merge_step lib fs temp_dir st = Returned files_created ->
  (In (output_base c) files_created <->
   exists canon, canonical fs (primary_paths c st) canon /\ sf_records canon <> []).
Proof.
  intros H. destruct (merge_step_returned _ _ _ _ _ H) as [ps [bs [-> [Hp Hb]]]].
  destruct (merge_category_spec _ _ _ _ _ _ Hp) as [Hpc Hpi].
  destruct (merge_category_spec _ _ _ _ _ _ Hb) as [Hbc Hbi].
  rewrite in_app_iff. destruct c; simpl.
  - rewrite <- Hpi. split.
    + intros [Hin | Hin].
      * destruct Hpc as [-> | ->]; [reflexivity | inversion Hin].
      * destruct Hbc as [-> | ->]; [|inversion Hin].
        destruct Hin as [Hin | []]. discriminate Hin.
    + intros ->. left. left. reflexivity.
  - rewrite <- Hbi. split.
    + intros [Hin | Hin].
      * destruct Hpc as [-> | ->]; [|inversion Hin].
        destruct Hin as [Hin | []]. discriminate Hin.
      * destruct Hbc as [-> | ->]; [reflexivity | inversion Hin].
    + intros ->. right. left. reflexivity.
Qed.

(** X15.  When neither merge raises, a category's merged output is listed
    for packaging exactly when the first of the category's primary paths
    that opens with more than one field descriptor holds records; and the
    run returns nothing exactly when this holds for neither category. *)
Theorem merge_step_produces_iff (lib : Library) (fs fs' : gmap string FileObj)
    (temp_dir : string) (st : Extraction) (files_created : list string) :
  merge_step lib fs temp_dir st = Returned files_created ->
  (forall c, output_base c ∈ files_created <->
             exists canon, canonical fs (primary_paths c st) canon /\
                           sf_records canon <> []) /\
  (zip_result fs' temp_dir files_created = None <->
   forall c canon, canonical fs (primary_paths c st) canon -> sf_records canon = []).
Proof.
  intros Hstep.
  assert (H1 : forall c, output_base c ∈ files_created <->
                         exists canon, canonical fs (primary_paths c st) canon /\
                                       sf_records canon <> []).
  { intros c. rewrite list_elem_of_In. apply (merge_step_spec _ _ _ _ _ _ Hstep). }
  split; [exact H1|]. split.
  - intros Hz c canon Hc.
    destruct (sf_records canon) as [|r recs] eqn:Hrec; [reflexivity|]. exfalso.
    assert (Hin : output_base c ∈ files_created).
    { apply H1. exists canon. split; [exact Hc|]. rewrite Hrec. discriminate. }
    unfold zip_result in Hz. destruct files_created; [|discriminate].
    inversion Hin.
  - intros Hnone. unfold zip_result.
    destruct files_created as [|b bs] eqn:Hs; [reflexivity|]. exfalso.
    assert (Hb : In b files_created) by (rewrite Hs; left; reflexivity).
    rewrite <- Hs in Hstep.
    destruct (merge_step_names _ _ _ _ _ _ Hstep Hb) as [-> | ->].
    + apply (merge_step_spec _ _ _ _ _ Parcel Hstep) in Hb as [canon [Hc Hrec]].
      apply Hrec, (Hnone Parcel canon Hc).
    + apply (merge_step_spec _ _ _ _ _ Building Hstep) in Hb as [canon [Hc Hrec]].
      apply Hrec, (Hnone Building canon Hc).
Qed.

Lemma merge_step_produces_iff_witness :
  let st := {| extracted := []; parcels_to_merge := ["/tmp/w/riga/KKParcel.shp"];
               buildings_to_merge := ["/tmp/w/empty/KKParcel.shp"] |} in
  (forall c, output_base c ∈ ["Parcels_merged"] <->
             exists canon, canonical sample_fs (primary_paths c st) canon /\
                           sf_records canon <> []) /\
  (zip_result merged_fs "/tmp/w" ["Parcels_merged"] = None <->
   forall c canon, canonical sample_fs (primary_paths c st) canon ->
                   sf_records canon = []).
Proof.
  intros st.
  apply (merge_step_produces_iff quiet sample_fs merged_fs "/tmp/w" st).
  reflexivity.
Defined.

Lemma download_loop_unselected (py : Python) (temp_dir : string)
    (selected_types : list string) (resource_map : gmap string string)
    (get : string -> Download) (selected_names : list string) (run : Run)
    (c : Category) :
  ~ requested selected_types c ->
  primary_paths c
    (run_extraction
       (download_loop py temp_dir selected_types resource_map get selected_names run).1)
  = primary_paths c (run_extraction run).
Proof.
  intros Hreq. revert run. induction selected_names as [|name rest IH]; intros run.
  - reflexivity.
  - destruct (resource_map !! name) as [url|] eqn:Hurl.
    + destruct (download_loop_cons py temp_dir selected_types resource_map get
                  name url rest run Hurl) as [run1 [Heq [_ [Hun _]]]].
      rewrite Heq, IH. apply Hun, Hreq.
    + cbn [download_loop]. rewrite Hurl. reflexivity.
Qed.

Lemma zip_result_some (fs : gmap string FileObj) (temp_dir : string)
    (files_created : list string) (zip : list ZipEntry) :
  zip_result fs temp_dir files_created = Some zip ->
  zip = flat_map (zip_base fs temp_dir) files_created.
Proof.
  unfold zip_result. destruct files_created; [discriminate|]. intros [= <-]. reflexivity.
Qed.

(** What a run that returns an archive went through. *)
Lemma process_territories_returned (lib : Library) (py : Python) (temp_dir : string)
    (selected_names : list string) (resource_map : gmap string string)
    (selected_types : list string) (get : string -> Download)
    (fs fs' : gmap string FileObj) (zip : list ZipEntry) (requests : list string) :
  process_territories lib py temp_dir selected_names resource_map selected_types
    get fs fs' = (Returned (Some zip), requests) ->
  exists files_created,
    merge_step lib fs temp_dir
      (run_extraction
         (download_loop py temp_dir selected_types resource_map get selected_names
            empty_run).1)
    = Returned files_created /\
    zip = flat_map (zip_base fs' temp_dir) files_created.
Proof.
  unfold process_territories.
  destruct (download_loop _ _ _ _ _ _ _) as [run [e|]]; [discriminate|]. simpl.
  destruct (merge_step lib fs temp_dir (run_extraction run)) as [files|e];
    [|discriminate].
  intros [= Hz _]. exists files. split; [reflexivity|]. apply zip_result_some, Hz.
Qed.

Lemma output_base_app_inj (c c' : Category) (ext ext' : string) :
  output_base c +:+ ext = output_base c' +:+ ext' -> c = c'.
Proof. destruct c, c'; simpl; intros H; try reflexivity; discriminate H. Qed.

(** X16.  A data type that is not selected yields nothing: none of its
    files becomes a primary path, and the archive returned has no member
    under its output's base name, whatever the archives hold. *)
Theorem unselected_category_absent (lib : Library) (py : Python) (temp_dir : string)
    (selected_names : list string) (resource_map : gmap string string)
    (selected_types : list string) (get : string -> Download)
    (fs fs' : gmap string FileObj) (c : Category) :
  ~ requested selected_types c ->
  primary_paths c
    (run_extraction
       (download_loop py temp_dir selected_types resource_map get selected_names
          empty_run).1) = [] /\
  (forall zip requests,
     process_territories lib py temp_dir selected_names resource_map selected_types
       get fs fs' = (Returned (Some zip), requests) ->
     forall e ext, e ∈ zip -> ze_arcname e <> output_base c +:+ ext).
Proof.
  intros Hreq.
  assert (Hnone : primary_paths c
                    (run_extraction
                       (download_loop py temp_dir selected_types resource_map get
                          selected_names empty_run).1) = []).
  { rewrite (download_loop_unselected _ _ _ _ _ _ _ c Hreq). destruct c; reflexivity. }
  split; [exact Hnone|].
  intros zip requests Hp e ext He Hname.
  destruct (process_territories_returned _ _ _ _ _ _ _ _ _ _ _ Hp)
    as [files [Hstep ->]].
  apply list_elem_of_In, in_flat_map in He as [base [Hb Hin]].
  apply zip_base_spec in Hin as [ext' [_ [_ ->]]]. simpl in Hname.
  assert (Hbase : base = output_base c).
  { destruct (merge_step_names _ _ _ _ _ _ Hstep Hb) as [-> | ->].
    - rewrite (output_base_app_inj c Parcel ext ext'); [reflexivity|].
      symmetry. exact Hname.
    - rewrite (output_base_app_inj c Building ext ext'); [reflexivity|].
      symmetry. exact Hname. }
  subst base.
  apply (merge_step_spec _ _ _ _ _ c Hstep) in Hb as [canon [Hc _]].
  rewrite Hnone in Hc. apply (canonical_nonempty _ _ _ Hc). reflexivity.
Qed.

Lemma unselected_category_absent_witness :
  primary_paths Building
    (run_extraction
       (download_loop ascii_python "/tmp/w" ["KKParcel"]
          (catalog_of ascii_python sample_catalog) sample_get ["1. Riga"]
          empty_run).1) = [].
Proof.
  apply (unselected_category_absent quiet ascii_python "/tmp/w" ["1. Riga"]
           (catalog_of ascii_python sample_catalog) ["KKParcel"] sample_get
           sample_fs merged_fs Building).
  unfold requested. simpl. intros H. apply list_elem_of_singleton in H.
  discriminate H.
Defined.

Lemma sublist_flat_map {A B : Type} (f g : A -> list B) (l1 l2 : list A) :
  l1 `sublist_of` l2 -> (forall x, f x `sublist_of` g x) ->
  flat_map f l1 `sublist_of` flat_map g l2.
Proof.
  intros Hl Hfg. induction Hl as [|x l1 l2 _ IH|x l1 l2 _ IH]; simpl.
  - constructor.
  - apply sublist_app; [apply Hfg | exact IH].
  - apply sublist_inserts_l. exact IH.
Qed.

Lemma zip_base_arcnames (fs : gmap string FileObj) (temp_dir base : string) :
  map ze_arcname (zip_base fs temp_dir base)
  `sublist_of` map (fun ext => base +:+ ext) EXTENSIONS.
Proof.
  unfold zip_base. induction EXTENSIONS as [|ext exts IH]; simpl; [constructor|].
  destruct (path_exists fs _); simpl.
  - apply sublist_skip, IH.
  - apply sublist_cons, IH.
Qed.

Lemma merge_step_sublist (lib : Library) (fs : gmap string FileObj) (temp_dir : string)
    (st : Extraction) (files_created : list string) :
  merge_step lib fs temp_dir st = Returned files_created ->
  files_created `sublist_of` ["Parcels_merged"; "Buildings_merged"].
Proof.
  intros H. destruct (merge_step_returned _ _ _ _ _ H) as [ps [bs [-> [Hp Hb]]]].
  change ["Parcels_merged"; "Buildings_merged"]
    with (["Parcels_merged"] ++ ["Buildings_merged"]).
  apply sublist_app.
  - destruct (proj1 (merge_category_spec _ _ _ _ _ _ Hp)) as [-> | ->];
      [reflexivity | apply sublist_nil_l].
  - destruct (proj1 (merge_category_spec _ _ _ _ _ _ Hb)) as [-> | ->];
      [reflexivity | apply sublist_nil_l].
Qed.

Lemma map_flat_map {A B C : Type} (h : B -> C) (f : A -> list B) (l : list A) :
  map h (flat_map f l) = flat_map (fun x => map h (f x)) l.
Proof.
  induction l as [|x l IH]; [reflexivity|]. simpl. rewrite map_app, IH. reflexivity.
Qed.

(** X17.  The archive a run returns is flat and bounded: its member names,
    in order, are picked from the ten names "Parcels_merged" and
    "Buildings_merged" with the five extensions, so no name occurs twice
    and there are at most ten members; and each member was written from a
    file that exists in the working directory. *)
Theorem process_selection_archive_layout (lib : Library) (py : Python)
    (temp_dir : string) (selected_names : list string)
    (resource_map : gmap string string) (selected_types : list string)
    (get : string -> Download) (fs fs' : gmap string FileObj)
    (zip : list ZipEntry) (requests : list string) :
  process_territories lib py temp_dir selected_names resource_map selected_types
    get fs fs' = (Returned (Some zip), requests) ->
  map ze_arcname zip `sublist_of` archive_names /\
  NoDup (map ze_arcname zip) /\
  length zip <= 10 /\
  forall e, e ∈ zip -> path_exists fs' (ze_source e) = true.
Proof.
  intros Hp.
  destruct (process_territories_returned _ _ _ _ _ _ _ _ _ _ _ Hp)
    as [files [Hstep ->]].
  assert (Hsub : map ze_arcname (flat_map (zip_base fs' temp_dir) files)
                 `sublist_of` archive_names).
  { rewrite map_flat_map.
    change archive_names
      with (flat_map (fun base => map (fun ext => base +:+ ext) EXTENSIONS)
              ["Parcels_merged"; "Buildings_merged"]).
    apply sublist_flat_map; [apply (merge_step_sublist _ _ _ _ _ Hstep)|].
    intros base. apply zip_base_arcnames. }
  split; [exact Hsub|]. split; [|split].
  - eapply sublist_NoDup; [|exact Hsub]. apply (bool_decide_unpack _). vm_compute. exact I.
  - apply sublist_length in Hsub. rewrite length_map in Hsub. exact Hsub.
  - intros e He. apply list_elem_of_In, in_flat_map in He as [base [_ Hin]].
    apply zip_base_spec in Hin as [ext [_ [Hex ->]]]. exact Hex.
Qed.

Lemma process_selection_archive_layout_witness :
  map ze_arcname
    [ {| ze_arcname := "Parcels_merged.shp"; ze_source := "/tmp/w/Parcels_merged.shp" |};
      {| ze_arcname := "Parcels_merged.shx"; ze_source := "/tmp/w/Parcels_merged.shx" |};
      {| ze_arcname := "Parcels_merged.dbf"; ze_source := "/tmp/w/Parcels_merged.dbf" |};
      {| ze_arcname := "Parcels_merged.prj"; ze_source := "/tmp/w/Parcels_merged.prj" |} ]
  `sublist_of` archive_names.
Proof.
  apply (proj1 (process_selection_archive_layout quiet ascii_python "/tmp/w"
                  ["1. Riga"; "10. Jelgava"]
                  (catalog_of ascii_python sample_catalog) ["KKParcel"] sample_get
                  sample_fs merged_fs _
                  ["https://x/riga.zip"; "https://x/jelgava.zip"] eq_refl)).
Defined.

(** ** The page *)

Lemma get_territory_list_entries (py : Python) (r : Response) :
  (get_territory_list py r).1 = collect_resources py (catalog_entries r).
Proof.
  destruct r as [msg | msg | msg | data]; try reflexivity.
  simpl. destruct (body_success data); [|reflexivity].
  destruct (body_resources data); reflexivity.
Qed.

Lemma territory_names_have_urls (py : Python) (r : Response) (name : string) :
  name ∈ territory_names py (catalog_entries r) ->
  is_Some ((get_territory_list py r).1 !! name).
Proof.
  unfold territory_names. rewrite sorted_perm, get_territory_list_entries.
  apply (proj2 (catalog_keys_spec py (catalog_entries r))).
Qed.

(** With a library whose calls outside the [try] return, the merge
    returns. *)
Lemma merge_shapefiles_unfailing (lib : Library) (fs : gmap string FileObj)
    (file_paths : list string) (output_path : string) :
  unfailing lib ->
  exists b, (merge_shapefiles lib fs file_paths output_path).1 = Returns b.
Proof.
  intros [Hw [Hf [Hc Hcp]]]. unfold merge_shapefiles.
  destruct file_paths as [|path0 rest]; [exists false; reflexivity|].
  rewrite Hw. destruct (find_first_sf fs (path0 :: rest)) as [canon|];
    [|exists false; reflexivity].
  destruct (length (sf_records canon) =? 0); [exists false; reflexivity|].
  destruct (copy_fields lib (sf_fields canon) (Writer_new output_path)) as [w err] eqn:Hcf.
  destruct (copy_fields_spec lib _ _ _ _ Hcf) as [_ [_ [_ [_ [_ Hnone]]]]].
  rewrite (Hnone Hf). destruct (fold_left _ _ _) as [w1 out]. unfold finish.
  rewrite Hc. destruct (path_exists fs _); [rewrite Hcp|]; exists true; reflexivity.
Qed.

Lemma merge_step_unfailing (lib : Library) (fs : gmap string FileObj)
    (temp_dir : string) (st : Extraction) :
  unfailing lib -> exists files_created, merge_step lib fs temp_dir st = Returned files_created.
Proof.
  intros Hu.
  assert (H : forall paths base, exists created,
            merge_category lib fs temp_dir paths base = Returned created).
  { intros paths base. unfold merge_category. destruct paths as [|p ps]; [eauto|].
    destruct (merge_shapefiles_unfailing lib fs (p :: ps)
                (os_path_join temp_dir (base +:+ ".shp")) Hu) as [b ->].
    destruct b; eauto. }
  unfold merge_step.
  destruct (H (parcels_to_merge st) "Parcels_merged") as [ps ->].
  destruct (H (buildings_to_merge st) "Buildings_merged") as [bs ->]. eauto.
Qed.

(** How a run whose names all have URLs ends. *)
Lemma process_territories_no_key_error (lib : Library) (py : Python) (temp_dir : string)
    (selected_names : list string) (resource_map : gmap string string)
    (selected_types : list string) (get : string -> Download)
    (fs fs' : gmap string FileObj) :
  (forall n, n ∈ selected_names -> is_Some (resource_map !! n)) ->
  let r := process_territories lib py temp_dir selected_names resource_map
             selected_types get fs fs' in
  (forall key, r.1 <> Raised (KeyError key)) /\
  (unfailing lib -> exists result, r.1 = Returned result) /\
  Forall2 (fun n u => resource_map !! n = Some u) selected_names r.2.
Proof.
  intros Hall r. subst r. unfold process_territories.
  destruct (download_loop_requests py temp_dir selected_types resource_map get
              selected_names empty_run Hall) as [run [Hret [Hreq Hf2]]].
  rewrite Hret. simpl in Hreq.
  destruct (merge_step lib fs temp_dir (run_extraction run)) as [files|e] eqn:Hs; simpl.
  - split; [discriminate|]. split; [eauto|]. rewrite Hreq. exact Hf2.
  - split; [|split; [|rewrite Hreq; exact Hf2]].
    + intros key Hk. injection Hk as ->. unfold merge_step in Hs.
      destruct (merge_category lib fs temp_dir (parcels_to_merge _) _) as [ps|e1] eqn:H1.
      * destruct (merge_category lib fs temp_dir (buildings_to_merge _) _)
          as [bs|e2] eqn:H2; [discriminate|].
        injection Hs as ->. unfold merge_category in H2.
        destruct (buildings_to_merge _); [discriminate|].
        destruct (merge_shapefiles _ _ _ _).1 as [[|]|]; discriminate.
      * injection Hs as ->. unfold merge_category in H1.
        destruct (parcels_to_merge _); [discriminate|].
        destruct (merge_shapefiles _ _ _ _).1 as [[|]|]; discriminate.
    + intros Hu. destruct (merge_step_unfailing lib fs temp_dir (run_extraction run) Hu)
        as [files Hf]. congruence.
Qed.

(** X18.  Whatever the response, the downloads and the files, a run of the
    page whose picked territories are among the names it offered does not
    end in the [KeyError] of line 126: every offered name has a URL in the
    mapping.  When, besides, the writer's construction, [w.field],
    [w.close] and the copy of the sidecar do not raise, the run raises
    nothing and shows a screen. *)
Theorem page_raises_no_key_error (lib : Library) (py : Python) (r : Response)
    (ctl : Controls) (get : string -> Download) (temp_dir : string)
    (fs fs' : gmap string FileObj) :
  (forall n, n ∈ ctl_territories ctl -> n ∈ territory_names py (catalog_entries r)) ->
  (forall key, (page lib py r ctl get temp_dir fs fs').1 <> Raised (KeyError key)) /\
  (unfailing lib ->
   exists screen, (page lib py r ctl get temp_dir fs fs').1 = Returned screen).
Proof.
  intros Hpicked. unfold page.
  destruct (bool_decide _); [split; [discriminate | eauto]|].
  destruct (ctl_button ctl); simpl; [|split; [discriminate | eauto]].
  set (selected := if ctl_select_all ctl then _ else _).
  assert (Hall : forall n, n ∈ selected -> is_Some ((get_territory_list py r).1 !! n)).
  { intros n Hn. apply territory_names_have_urls. subst selected.
    destruct (ctl_select_all ctl); [exact Hn | apply Hpicked, Hn]. }
  destruct selected as [|s0 ss] eqn:Hsel; [split; [discriminate | eauto]|].
  destruct (ctl_data_types ctl) as [|t0 ts] eqn:Htypes; [split; [discriminate | eauto]|].
  destruct (process_territories_no_key_error lib py temp_dir (s0 :: ss)
              (get_territory_list py r).1 (t0 :: ts) get fs fs' Hall)
    as [Hno [Hret _]].
  destruct (process_territories lib py temp_dir (s0 :: ss) _ (t0 :: ts) get fs fs')
    as [[[zip|]|e] requests]; simpl in *.
  - split; [discriminate | eauto].
  - split; [discriminate | eauto].
  - split.
    + intros key Hk. injection Hk as ->. apply (Hno key). reflexivity.
    + intros Hu. destruct (Hret Hu) as [result Hr]. discriminate Hr.
Qed.

Lemma page_raises_no_key_error_witness :
  exists screen,
    (page quiet ascii_python
       (Decoded {| body_success := true; body_resources := Found sample_catalog |})
       {| ctl_territories := ["1. Riga"]; ctl_select_all := false;
          ctl_data_types := ["KKParcel"]; ctl_button := true |}
       sample_get "/tmp/w" sample_fs merged_fs).1
    = Returned screen.
Proof.
  apply page_raises_no_key_error.
  - simpl. intros n Hn. apply list_elem_of_singleton in Hn. subst n. vm_compute.
    apply list_elem_of_here.
  - repeat split.
Defined.

(** X19.  In a run of the page whose picked territories are among the
    names it offered, archives are requested only when the button is
    pressed with at least one data type picked, and then the requests are
    the mapping's URLs of the selected territories, one each and in their
    order, where the selection is every offered name when "select all" is
    ticked and the picked names otherwise; this holds also when a merge
    raises afterwards. *)
Theorem page_requests (lib : Library) (py : Python) (r : Response) (ctl : Controls)
    (get : string -> Download) (temp_dir : string) (fs fs' : gmap string FileObj) :
  (forall n, n ∈ ctl_territories ctl -> n ∈ territory_names py (catalog_entries r)) ->
  let selected :=
    if ctl_select_all ctl then territory_names py (catalog_entries r)
    else ctl_territories ctl in
  let requests := (page lib py r ctl get temp_dir fs fs').2 in
  (ctl_button ctl = true -> ctl_data_types ctl <> [] ->
   Forall2 (fun n u => (get_territory_list py r).1 !! n = Some u) selected requests) /\
  (ctl_button ctl = false \/ ctl_data_types ctl = [] -> requests = []).
Proof.
  intros Hpicked selected requests. subst requests.
  assert (Hall : forall n, n ∈ selected -> is_Some ((get_territory_list py r).1 !! n)).
  { intros n Hn. apply territory_names_have_urls. subst selected.
    destruct (ctl_select_all ctl); [exact Hn | apply Hpicked, Hn]. }
  unfold page. fold selected.
  destruct (bool_decide_reflect ((get_territory_list py r).1 = ∅)) as [Hempty | Hne].
  { simpl. split; [|reflexivity]. intros _ _.
    destruct selected as [|s0 ss]; [constructor|].
    destruct (Hall s0 (list_elem_of_here _ _)) as [u Hu].
    rewrite Hempty, lookup_empty in Hu. discriminate. }
  destruct (ctl_button ctl); simpl; [|split; [discriminate | reflexivity]].
  destruct selected as [|s0 ss] eqn:Hsel.
  { simpl. split; [intros _ _; constructor | reflexivity]. }
  destruct (ctl_data_types ctl) as [|t0 ts] eqn:Htypes.
  { simpl. split; [intros _ H; contradiction | reflexivity]. }
  destruct (process_territories_no_key_error lib py temp_dir (s0 :: ss)
              (get_territory_list py r).1 (t0 :: ts) get fs fs' Hall)
    as [_ [_ Hf2]].
  destruct (process_territories lib py temp_dir (s0 :: ss) _ (t0 :: ts) get fs fs')
    as [[[zip|]|e] reqs]; simpl in *;
    (split; [intros _ _; exact Hf2 | intros [H | H]; discriminate]).
Qed.

Lemma page_requests_witness :
  Forall2
    (fun n u =>
       (get_territory_list ascii_python
          (Decoded {| body_success := true;
                      body_resources := Found sample_catalog |})).1 !! n = Some u)
    (territory_names ascii_python sample_catalog)
    ["https://x/riga.zip"; "https://x/jelgava.zip"].
Proof.
  apply (page_requests quiet ascii_python
           (Decoded {| body_success := true; body_resources := Found sample_catalog |})
           {| ctl_territories := []; ctl_select_all := true;
              ctl_data_types := ["KKParcel"]; ctl_button := true |}
           sample_get "/tmp/w" sample_fs merged_fs).
  - intros n Hn. inversion Hn.
  - reflexivity.
  - discriminate.
Defined.

(** The sample page run with everything selected. *)
Example page_sample :
  page quiet ascii_python
    (Decoded {| body_success := true; body_resources := Found sample_catalog |})
    {| ctl_territories := []; ctl_select_all := true;
       ctl_data_types := []; ctl_button := true |}
    sample_get "/tmp/w" sample_fs merged_fs
  = (Returned
       (ErrorShown "Please select at least one data type (Parcels or Buildings)."), [])
  /\ page quiet ascii_python (HTTPError "503")
       {| ctl_territories := []; ctl_select_all := true;
          ctl_data_types := ["KKParcel"]; ctl_button := true |}
       sample_get "/tmp/w" sample_fs merged_fs
     = (Returned Stopped, []).
Proof. split; reflexivity. Qed.

(** A run in which the copy of the sidecar raises: the exception leaves
    the page, after both archives were requested. *)
Example page_raises_sample :
  page strict ascii_python
    (Decoded {| body_success := true; body_resources := Found sample_catalog |})
    {| ctl_territories := []; ctl_select_all := true;
       ctl_data_types := ["KKParcel"]; ctl_button := true |}
    sample_get "/tmp/w" sample_fs merged_fs
  = (Raised (LibraryError "[Errno 13] Permission denied"),
     ["https://x/riga.zip"; "https://x/jelgava.zip"]).
Proof. reflexivity. Qed.
